(** * Pool scoring engine, exit policy and portfolio ledger of the
      Solana yield-farming bot: a shallow embedding and its properties.

    The embedding follows [poolEvaluator], [portfolioManager],
    [yieldFarmingBot] and [poolMonitor].

    Modelling conventions.
    - A JavaScript [number] holding a currency amount, a percentage or a
      ratio is an exact rational ([Q]): rounding, [NaN] and the infinities
      of IEEE doubles are left out. Division is the division of [Q], which
      yields 0 on a zero divisor where JavaScript yields an infinity or
      [NaN]; a statement on the ledger's sums, on re-pricing or on a
      monitoring pass assumes that the divisors involved (entry price,
      amount, entry yield) are not 0.
    - The score is built from integer literals only and is a [Z].
    - A [Date] is its epoch time in milliseconds ([Z]); [Date.now()] is an
      explicit argument [now], and every clock read within one call
      returns it.
    - [uuid.v4()] is an explicit argument: the fresh identifier.
    - A template string pushed to [reasons] or [warnings] is a constructor
      that carries the interpolated values.
    - [console.log] is not modelled; the [actionLogger] callback of the
      portfolio manager appends to the [actions] component of its state. *)

From Stdlib Require Import QArith Qminmax ZArith List String Bool Lia Lqa.
Import ListNotations.
Open Scope Q_scope.

(** ** Comparisons of numbers, as booleans *)

(** [a >= b] is [Qle_bool b a]; [a < b] is its negation on rationals. *)
Definition Qlt_bool (a b : Q) : bool := negb (Qle_bool b a).

Lemma Qlt_bool_iff (a b : Q) : Qlt_bool a b = true <-> a < b.
Proof.
  unfold Qlt_bool. rewrite negb_true_iff.
  split; intro H.
  - apply Qnot_le_lt. intro Hle. apply Qle_bool_iff in Hle. congruence.
  - destruct (Qle_bool b a) eqn:E; [|reflexivity].
    apply Qle_bool_iff in E. exfalso. apply (Qlt_not_le _ _ H E).
Qed.

Lemma Qlt_bool_false_iff (a b : Q) : Qlt_bool a b = false <-> b <= a.
Proof.
  unfold Qlt_bool. rewrite negb_false_iff. apply Qle_bool_iff.
Qed.

Lemma Qle_bool_false_iff (a b : Q) : Qle_bool a b = false <-> b < a.
Proof.
  rewrite <- Qlt_bool_iff. unfold Qlt_bool.
  destruct (Qle_bool a b); simpl; split; congruence.
Qed.

(** ** Data model ([types]) *)

Module Token.
Record t : Type := mk {
  mint : string;
  symbol : string;
  decimals : Z;
  amount : Q
}.
End Token.

Module Pool.
(** [PoolInfo] *)
Record t : Type := mk {
  poolId : string;
  baseToken : Token.t;
  quoteToken : Token.t;
  tvl : Q;
  volume24h : Q;
  fees24h : Q;
  apy : Q;
  createdAt : Z;
  lpTokenSupply : Q;
  price : Q
}.

(** Object spread [{...pool, field: v}] for the three gate metrics. *)
Definition with_apy (p : t) (v : Q) : t :=
  mk (poolId p) (baseToken p) (quoteToken p) (tvl p) (volume24h p)
     (fees24h p) v (createdAt p) (lpTokenSupply p) (price p).
Definition with_tvl (p : t) (v : Q) : t :=
  mk (poolId p) (baseToken p) (quoteToken p) v (volume24h p)
     (fees24h p) (apy p) (createdAt p) (lpTokenSupply p) (price p).
Definition with_volume24h (p : t) (v : Q) : t :=
  mk (poolId p) (baseToken p) (quoteToken p) (tvl p) v
     (fees24h p) (apy p) (createdAt p) (lpTokenSupply p) (price p).
End Pool.

Module Config.
(** [BotConfig] *)
Record t : Type := mk {
  minApy : Q;
  minTvl : Q;
  minVolume24h : Q;
  maxPositions : Q;
  positionSize : Q;
  exitApyThreshold : Q;
  stopLossPercentage : Q;
  takeProfitPercentage : Q;
  maxHoldingTime : Q;
  maxTotalInvestment : Q;
  riskPerPosition : Q
}.
End Config.

(** [DEFAULT_BOT_CONFIG] of [config]. *)
Definition DEFAULT_BOT_CONFIG : Config.t :=
  Config.mk 20 100 1000 5 1000 10 (-15) 25 168 10000 10.

Inductive Status : Type := active | exited.

Module Position.
Record t : Type := mk {
  id : string;
  poolId : string;
  entryTime : Z;
  entryPrice : Q;
  entryApy : Q;
  amount : Q;
  currentValue : Q;
  currentApy : Q;
  pnl : Q;
  pnlPercentage : Q;
  status : Status;
  exitTime : option Z;
  exitPrice : option Q;
  exitReason : option string
}.
End Position.

Module Portfolio.
Record t : Type := mk {
  totalValue : Q;
  totalInvested : Q;
  totalPnl : Q;
  totalPnlPercentage : Q;
  activePositions : list Position.t;
  closedPositions : list Position.t;
  availableCash : Q;
  maxPositions : Q
}.
End Portfolio.

(** Milliseconds to hours: [ms / (1000 * 60 * 60)]. *)
Definition hoursOfMs (ms : Z) : Q := inject_Z ms / (1000 * 60 * 60).

(** ** Scoring engine and exit policy ([poolEvaluator], the configured
       evaluator of the bot) *)

Module PoolEvaluator.

(** [POOL_EVALUATION] of [config]. *)
Definition MIN_AGE_HOURS : Q := 1.
Definition MAX_AGE_HOURS : Q := 72.
Definition MIN_LIQUIDITY_RATIO : Q := 3 # 10.

Inductive Reason : Type :=
| ApyMeets (apy minApy : Q)          (* "✓ APY .. meets minimum .." *)
| ApyBelow (apy minApy : Q)          (* "✗ APY .. below minimum .." *)
| TvlMeets (tvl minTvl : Q)          (* "✓ TVL .. meets minimum .." *)
| TvlBelow (tvl minTvl : Q)          (* "✗ TVL .. below minimum .." *)
| VolumeMeets (vol minVol : Q)       (* "✓ 24h volume .. meets minimum .." *)
| VolumeBelow (vol minVol : Q)       (* "✗ 24h volume .. below minimum .." *)
| AgeWithinRange (ageHours : Q)      (* "✓ Pool age ..h within acceptable range" *)
| GoodLiquidityBalance (ratio : Q)   (* "✓ Good liquidity balance (ratio: ..)" *)
| ExceptionalApy (apy : Q)           (* "Exceptional APY (..%)" *)
| HighVolumeActivity.                (* "High volume activity" *)

Inductive Warning : Type :=
| PoolVeryNew (ageHours : Q)         (* "Pool is very new (..h), higher risk" *)
| PoolOld (ageHours : Q)             (* "Pool is old (..h), potentially less profitable" *)
| UnbalancedLiquidity (ratio : Q)    (* "Unbalanced liquidity (ratio: ..)" *)
| ExtremelyHighApy (apy : Q)         (* "Extremely high APY (..%) - possible rug pull risk" *)
| LowTvlRelativeToVolume.            (* "Low TVL relative to volume - high volatility risk" *)

Record Evaluation : Type := mkEvaluation {
  shouldEnter : bool;
  score : Z;
  reasons : list Reason;
  warnings : list Warning
}.

(** [calculateLiquidityRatio] *)
Definition calculateLiquidityRatio (pool : Pool.t) : Q :=
  let baseValue := Token.amount (Pool.baseToken pool) * Pool.price pool in
  let quoteValue := Token.amount (Pool.quoteToken pool) in
  let totalValue := baseValue + quoteValue in
  if Qeq_bool totalValue 0 then 0
  else
    let ratio := Qmin baseValue quoteValue / totalValue in
    ratio * 2.

(** [getPoolAgeHours] *)
Definition getPoolAgeHours (now : Z) (pool : Pool.t) : Q :=
  hoursOfMs (now - Pool.createdAt pool).

(** The part of [evaluatePoolForEntry] that runs once the three hard
    gates have passed: [score], [reasons] and [warnings] come in as the
    gates left them. *)
Definition scoreAfterGates (config : Config.t) (now : Z) (pool : Pool.t)
    (score : Z) (reasons : list Reason) (warnings : list Warning)
    : Evaluation :=
  (* Check pool age *)
  let ageHours := getPoolAgeHours now pool in
  let '(score, reasons, warnings) :=
    if Qle_bool MIN_AGE_HOURS ageHours && Qle_bool ageHours MAX_AGE_HOURS
    then ((score + 15)%Z, reasons ++ [AgeWithinRange ageHours], warnings)
    else if Qlt_bool ageHours MIN_AGE_HOURS
    then ((score + 5)%Z, reasons, warnings ++ [PoolVeryNew ageHours])
    else ((score + 5)%Z, reasons, warnings ++ [PoolOld ageHours]) in
  (* Check liquidity balance *)
  let liquidityRatio := calculateLiquidityRatio pool in
  let '(score, reasons, warnings) :=
    if Qle_bool MIN_LIQUIDITY_RATIO liquidityRatio
    then ((score + 10)%Z, reasons ++ [GoodLiquidityBalance liquidityRatio], warnings)
    else ((score + 3)%Z, reasons, warnings ++ [UnbalancedLiquidity liquidityRatio]) in
  (* Bonus scoring for exceptional metrics *)
  let '(score, reasons) :=
    if Qlt_bool (Config.minApy config * 2) (Pool.apy pool)
    then ((score + 10)%Z, reasons ++ [ExceptionalApy (Pool.apy pool)])
    else (score, reasons) in
  let '(score, reasons) :=
    if Qlt_bool (Config.minVolume24h config * 5) (Pool.volume24h pool)
    then ((score + 5)%Z, reasons ++ [HighVolumeActivity])
    else (score, reasons) in
  (* Check for red flags *)
  let '(score, warnings) :=
    if Qlt_bool 100 (Pool.apy pool)
    then ((score - 20)%Z, warnings ++ [ExtremelyHighApy (Pool.apy pool)])
    else (score, warnings) in
  let '(score, warnings) :=
    if Qlt_bool (Pool.tvl pool) (Pool.volume24h pool * (1 # 10))
    then ((score - 10)%Z, warnings ++ [LowTvlRelativeToVolume])
    else (score, warnings) in
  let shouldEnter := (70 <=? score)%Z in
  mkEvaluation shouldEnter score reasons warnings.

(** [evaluatePoolForEntry] *)
Definition evaluatePoolForEntry (config : Config.t) (now : Z) (pool : Pool.t)
    : Evaluation :=
  let reasons : list Reason := [] in
  let warnings : list Warning := [] in
  let score := 0%Z in
  (* Check minimum APY *)
  if Qle_bool (Config.minApy config) (Pool.apy pool) then
    let score := (score + 25)%Z in
    let reasons := reasons ++ [ApyMeets (Pool.apy pool) (Config.minApy config)] in
    (* Check minimum TVL *)
    if Qle_bool (Config.minTvl config) (Pool.tvl pool) then
      let score := (score + 20)%Z in
      let reasons := reasons ++ [TvlMeets (Pool.tvl pool) (Config.minTvl config)] in
      (* Check minimum volume *)
      if Qle_bool (Config.minVolume24h config) (Pool.volume24h pool) then
        let score := (score + 20)%Z in
        let reasons :=
          reasons ++ [VolumeMeets (Pool.volume24h pool) (Config.minVolume24h config)] in
        scoreAfterGates config now pool score reasons warnings
      else
        let reasons :=
          reasons ++ [VolumeBelow (Pool.volume24h pool) (Config.minVolume24h config)] in
        mkEvaluation false score reasons warnings
    else
      let reasons := reasons ++ [TvlBelow (Pool.tvl pool) (Config.minTvl config)] in
      mkEvaluation false score reasons warnings
  else
    let reasons := reasons ++ [ApyBelow (Pool.apy pool) (Config.minApy config)] in
    mkEvaluation false score reasons warnings.

Inductive Urgency : Type := low | medium | high.

Inductive ExitReason : Type :=
| StopLossTriggered (pnlPercentage : Q)      (* "Stop loss triggered: ..% loss" *)
| TakeProfitTriggered (pnlPercentage : Q)    (* "Take profit triggered: ..% gain" *)
| ApyDropped (apy threshold : Q)             (* "APY dropped to ..%, below threshold ..%" *)
| MaxHoldingTimeReached (hours : Q)          (* "Maximum holding time reached: ..h" *)
| SignificantApyDecline (decline : Q)        (* "Significant APY decline: ..% drop" *)
| LowLiquidity                               (* "Low liquidity relative to position size" *)
| MeetsHoldingCriteria.                      (* "Position meets holding criteria" *)

Record ExitEvaluation : Type := mkExit {
  shouldExit : bool;
  reason : ExitReason;
  urgency : Urgency
}.

(** [evaluatePositionForExit] *)
Definition evaluatePositionForExit (config : Config.t) (now : Z)
    (position : Position.t) (currentPool : Pool.t) : ExitEvaluation :=
  let holdingTimeHours := hoursOfMs (now - Position.entryTime position) in
  (* Check stop loss *)
  if Qle_bool (Position.pnlPercentage position) (Config.stopLossPercentage config)
  then mkExit true (StopLossTriggered (Position.pnlPercentage position)) high
  (* Check take profit *)
  else if Qle_bool (Config.takeProfitPercentage config) (Position.pnlPercentage position)
  then mkExit true (TakeProfitTriggered (Position.pnlPercentage position)) medium
  (* Check APY threshold *)
  else if Qlt_bool (Pool.apy currentPool) (Config.exitApyThreshold config)
  then mkExit true (ApyDropped (Pool.apy currentPool) (Config.exitApyThreshold config)) medium
  (* Check maximum holding time *)
  else if Qle_bool (Config.maxHoldingTime config) holdingTimeHours
  then mkExit true (MaxHoldingTimeReached holdingTimeHours) low
  else
    (* Check for significant APY decline *)
    let apyDecline :=
      ((Position.entryApy position - Pool.apy currentPool)
         / Position.entryApy position) * 100 in
    if Qlt_bool 50 apyDecline
    then mkExit true (SignificantApyDecline apyDecline) medium
    (* Check for liquidity issues *)
    else if Qlt_bool (Pool.tvl currentPool) (Position.amount position * 10)
    then mkExit true LowLiquidity high
    else mkExit false MeetsHoldingCriteria low.

End PoolEvaluator.

(** ** The pool monitor ([poolMonitor] with its own [poolEvaluator] and
       [config]): listening and decision phases only *)

Module PoolMonitor.

(** [POOL_EVALUATION] of the monitor's [config]. *)
Definition MIN_APY : Q := 100.
Definition MIN_TVL : Q := 50.
Definition MIN_VOLUME_24H : Q := 500.
Definition MIN_AGE_HOURS : Q := 1.
Definition MAX_AGE_HOURS : Q := 72.
Definition SWEET_SPOT_AGE_HOURS : Q := 24.
Definition HIGH_INCENTIVE_THRESHOLD : Q := 200.
Definition HIGH_VOLUME_THRESHOLD : Q := 5000.
Definition MIN_SCORE_TO_ENTER : Z := 100.

Inductive Decision : Type := ENTER | SKIP.

Inductive Reason : Type :=
| ApyMeets (apy minApy : Q)
| ApyBelow (apy minApy : Q)
| TvlMeets (tvl minTvl : Q)
| TvlBelow (tvl minTvl : Q)
| VolumeMeets (vol minVol : Q)
| VolumeBelow (vol minVol : Q)
| AgeSweetSpot (ageHours : Q)        (* "Pool age ..h in 24h incentive sweet spot" *)
| AgeWithinRange (ageHours : Q)      (* "Pool age ..h within acceptable range" *)
| UltraFresh (ageHours : Q)          (* "Ultra fresh pool (..h)" *)
| UltraHighIncentive (apy : Q)       (* "Ultra high incentive (..%+ APY)" *)
| HighIncentive (apy : Q)            (* "High incentive (..%+ APY)" *)
| HighVolumeActivity                 (* "High volume activity" *)
| GoodVolumeActivity                 (* "Good volume activity" *)
| EarlyEntryOpportunity              (* "Early entry opportunity (low TVL, high APY)" *)
| SustainableIncentive.              (* "Sustainable incentive metrics" *)

Inductive Warning : Type :=
| PoolTooNew (ageHours : Q)          (* "Pool too new (..h), might be unstable" *)
| PoolTooOld (ageHours : Q)          (* "Pool too old (..h), incentives likely ended" *)
| VeryHighApy (apy : Q).             (* "Very high APY (..%) - monitor closely for exit" *)

(** [PoolEvaluation] *)
Record Evaluation : Type := mkEvaluation {
  poolId : string;
  score : Z;
  decision : Decision;
  reasons : list Reason;
  warnings : list Warning;
  timestamp : Z
}.

(** Steps 4 to 8 of the monitor's [evaluatePoolForEntry]. *)
Definition scoreAfterGates (now : Z) (pool : Pool.t)
    (score : Z) (reasons : list Reason) (warnings : list Warning)
    : Evaluation :=
  (* 4. Pool Age Analysis *)
  let poolAge := (now - Pool.createdAt pool)%Z in
  let ageHours := hoursOfMs poolAge in
  let '(score, reasons, warnings) :=
    if Qle_bool MIN_AGE_HOURS ageHours && Qle_bool ageHours MAX_AGE_HOURS then
      let '(score, reasons) :=
        if Qle_bool ageHours SWEET_SPOT_AGE_HOURS
        then ((score + 20)%Z, reasons ++ [AgeSweetSpot ageHours])
        else ((score + 10)%Z, reasons ++ [AgeWithinRange ageHours]) in
      if Qle_bool ageHours 12
      then ((score + 15)%Z, reasons ++ [UltraFresh ageHours], warnings)
      else (score, reasons, warnings)
    else if Qlt_bool ageHours MIN_AGE_HOURS
    then (score, reasons, warnings ++ [PoolTooNew ageHours])
    else (score, reasons, warnings ++ [PoolTooOld ageHours]) in
  (* 5. High Incentive Bonus *)
  let '(score, reasons) :=
    if Qle_bool HIGH_INCENTIVE_THRESHOLD (Pool.apy pool)
    then ((score + 25)%Z, reasons ++ [UltraHighIncentive (Pool.apy pool)])
    else if Qle_bool 100 (Pool.apy pool)
    then ((score + 15)%Z, reasons ++ [HighIncentive (Pool.apy pool)])
    else (score, reasons) in
  (* 6. Volume Analysis *)
  let '(score, reasons) :=
    if Qle_bool HIGH_VOLUME_THRESHOLD (Pool.volume24h pool)
    then ((score + 15)%Z, reasons ++ [HighVolumeActivity])
    else if Qle_bool (MIN_VOLUME_24H * 2) (Pool.volume24h pool)
    then ((score + 10)%Z, reasons ++ [GoodVolumeActivity])
    else (score, reasons) in
  (* 7. Risk/Reward Analysis *)
  let '(score, reasons) :=
    if Qlt_bool (Pool.tvl pool) 1000 && Qlt_bool 150 (Pool.apy pool)
    then ((score + 15)%Z, reasons ++ [EarlyEntryOpportunity])
    else (score, reasons) in
  (* 8. Sustainability Check *)
  let '(score, reasons) :=
    if Qlt_bool (Pool.apy pool) 1000
       && Qlt_bool (Pool.tvl pool * (1 # 10)) (Pool.volume24h pool)
    then ((score + 10)%Z, reasons ++ [SustainableIncentive])
    else (score, reasons) in
  (* Warning for extreme APY *)
  let warnings :=
    if Qlt_bool 1000 (Pool.apy pool)
    then warnings ++ [VeryHighApy (Pool.apy pool)]
    else warnings in
  let decision := if (MIN_SCORE_TO_ENTER <=? score)%Z then ENTER else SKIP in
  mkEvaluation (Pool.poolId pool) score decision reasons warnings now.

(** [evaluatePoolForEntry] of the monitor's evaluator. *)
Definition evaluatePoolForEntry (now : Z) (pool : Pool.t) : Evaluation :=
  let reasons : list Reason := [] in
  let warnings : list Warning := [] in
  let score := 0%Z in
  (* 1. APY Check (Required) *)
  if Qle_bool MIN_APY (Pool.apy pool) then
    let score := (score + 30)%Z in
    let reasons := reasons ++ [ApyMeets (Pool.apy pool) MIN_APY] in
    (* 2. TVL Check (Required) *)
    if Qle_bool MIN_TVL (Pool.tvl pool) then
      let score := (score + 20)%Z in
      let reasons := reasons ++ [TvlMeets (Pool.tvl pool) MIN_TVL] in
      (* 3. Volume Check (Required) *)
      if Qle_bool MIN_VOLUME_24H (Pool.volume24h pool) then
        let score := (score + 20)%Z in
        let reasons := reasons ++ [VolumeMeets (Pool.volume24h pool) MIN_VOLUME_24H] in
        scoreAfterGates now pool score reasons warnings
      else
        mkEvaluation (Pool.poolId pool) 0 SKIP
          [VolumeBelow (Pool.volume24h pool) MIN_VOLUME_24H] warnings now
    else
      mkEvaluation (Pool.poolId pool) 0 SKIP
        [TvlBelow (Pool.tvl pool) MIN_TVL] warnings now
  else
    mkEvaluation (Pool.poolId pool) 0 SKIP
      [ApyBelow (Pool.apy pool) MIN_APY] warnings now.

(** The key of [removeDuplicatePools]: the two mints joined by a dash. *)
Definition pairKey (pool : Pool.t) : string :=
  (Token.mint (Pool.baseToken pool) ++ "-" ++ Token.mint (Pool.quoteToken pool))%string.

Definition seenHas (seen : list string) (key : string) : bool :=
  existsb (String.eqb key) seen.

(** [pools.filter(...)] with the [seen] set threaded through. *)
Fixpoint removeDuplicatePoolsFrom (seen : list string) (pools : list Pool.t)
    : list Pool.t :=
  match pools with
  | [] => []
  | pool :: rest =>
      let key := pairKey pool in
      if seenHas seen key
      then removeDuplicatePoolsFrom seen rest
      else pool :: removeDuplicatePoolsFrom (key :: seen) rest
  end.

(** [removeDuplicatePools] *)
Definition removeDuplicatePools (pools : list Pool.t) : list Pool.t :=
  removeDuplicatePoolsFrom [] pools.

End PoolMonitor.

(** ** The orchestrator's deduplication ([yieldFarmingBot]) *)

Module YieldFarmingBot.

(** A JavaScript [Map] from pool id to pool record, in insertion order. *)
Definition PoolMap : Type := list (string * Pool.t).

(** [Map.prototype.get] *)
Fixpoint mapGet (m : PoolMap) (key : string) : option Pool.t :=
  match m with
  | [] => None
  | (k, v) :: rest => if String.eqb k key then Some v else mapGet rest key
  end.

(** [Map.prototype.has] *)
Definition mapHas (m : PoolMap) (key : string) : bool :=
  match mapGet m key with Some _ => true | None => false end.

(** [Map.prototype.set]: an existing key keeps its place and takes the
    new value, a new key goes to the end. *)
Fixpoint mapSet (m : PoolMap) (key : string) (value : Pool.t) : PoolMap :=
  match m with
  | [] => [(key, value)]
  | (k, v) :: rest =>
      if String.eqb k key then (k, value) :: rest
      else (k, v) :: mapSet rest key value
  end.

(** [Array.from(map.values())] *)
Definition mapValues (m : PoolMap) : list Pool.t := map snd m.

(** The body of the [forEach] callback of [deduplicatePools]. *)
Definition dedupStep (uniquePoolsMap : PoolMap) (pool : Pool.t) : PoolMap :=
  match mapGet uniquePoolsMap (Pool.poolId pool) with
  | None => mapSet uniquePoolsMap (Pool.poolId pool) pool
  | Some old =>
      if (Pool.createdAt old <? Pool.createdAt pool)%Z
      then mapSet uniquePoolsMap (Pool.poolId pool) pool
      else uniquePoolsMap
  end.

(** [deduplicatePools] *)
Definition deduplicatePools (pools : list Pool.t) : list Pool.t :=
  mapValues (fold_left dedupStep pools []).

End YieldFarmingBot.


(** ** Portfolio ledger ([portfolioManager]) *)

Module PortfolioManager.

Inductive ActionType : Type :=
| pool_detected | pool_evaluated | position_entered
| position_monitored | position_exited.

(** The [details] payload of the two actions the manager logs. *)
Inductive Details : Type :=
| EnterDetails (positionId : string) (amount entryPrice entryApy : Q)
    (poolSymbols : string)
| ExitDetails (positionId : string) (exitReason : string)
    (pnl pnlPercentage holdingTime finalValue : Q).

(** [BotAction] *)
Record BotAction : Type := mkAction {
  action_id : string;
  timestamp : Z;
  type : ActionType;
  action_poolId : string;
  details : Details;
  success : bool
}.

(** The manager's mutable state: [this.portfolio], and the actions handed
    to [this.actionLogger] so far, oldest first. [this.config] is read
    only and is an argument of every operation. *)
Record State : Type := mkState {
  portfolio : Portfolio.t;
  actions : list BotAction
}.

(** [constructor(config, actionLogger, initialCash)] *)
Definition init (config : Config.t) (initialCash : Q) : State :=
  mkState
    (Portfolio.mk initialCash 0 0 0 [] [] initialCash (Config.maxPositions config))
    [].

(** [array.length] as a number. *)
Definition lengthQ {A : Type} (l : list A) : Q := inject_Z (Z.of_nat (List.length l)).

(** [canEnterNewPosition] *)
Definition canEnterNewPosition (config : Config.t) (st : State) : bool :=
  Qlt_bool (lengthQ (Portfolio.activePositions (portfolio st)))
           (Config.maxPositions config)
  && Qle_bool (Config.positionSize config) (Portfolio.availableCash (portfolio st))
  && Qlt_bool (Portfolio.totalInvested (portfolio st))
              (Config.maxTotalInvestment config).

(** [hasPositionInPool] *)
Definition hasPositionInPool (st : State) (poolId : string) : bool :=
  existsb (fun p => String.eqb (Position.poolId p) poolId)
          (Portfolio.activePositions (portfolio st)).

(** [enterPosition]: [None] is the [null] result. *)
Definition enterPosition (config : Config.t) (uuid : string) (now : Z)
    (pool : Pool.t) (st : State) : option Position.t * State :=
  (* Check if we can enter a new position *)
  if negb (canEnterNewPosition config st) then (None, st)
  (* Check if we already have a position in this pool *)
  else if hasPositionInPool st (Pool.poolId pool) then (None, st)
  else
    let pf := portfolio st in
    let positionSize := Qmin (Config.positionSize config) (Portfolio.availableCash pf) in
    let position :=
      Position.mk uuid (Pool.poolId pool) now (Pool.price pool) (Pool.apy pool)
        positionSize positionSize (Pool.apy pool) 0 0 active None None None in
    (* Update portfolio *)
    let pf' :=
      Portfolio.mk (Portfolio.totalValue pf)
        (Portfolio.totalInvested pf + positionSize)
        (Portfolio.totalPnl pf) (Portfolio.totalPnlPercentage pf)
        (Portfolio.activePositions pf ++ [position])
        (Portfolio.closedPositions pf)
        (Portfolio.availableCash pf - positionSize)
        (Portfolio.maxPositions pf) in
    (* Log action *)
    let action :=
      mkAction ("enter_" ++ uuid)%string now position_entered (Pool.poolId pool)
        (EnterDetails uuid positionSize (Pool.price pool) (Pool.apy pool)
           (Token.symbol (Pool.baseToken pool) ++ "/"
              ++ Token.symbol (Pool.quoteToken pool))%string)
        true in
    (Some position, mkState pf' (actions st ++ [action])).

(** [Array.prototype.findIndex]: [None] is the result [-1]. *)
Fixpoint findIndex {A : Type} (f : A -> bool) (l : list A) : option nat :=
  match l with
  | [] => None
  | x :: rest =>
      if f x then Some O
      else match findIndex f rest with
           | Some i => Some (S i)
           | None => None
           end
  end.

(** [array.splice(index, 1)] *)
Fixpoint removeAt {A : Type} (index : nat) (l : list A) : list A :=
  match l, index with
  | [], _ => []
  | _ :: rest, O => rest
  | x :: rest, S i => x :: removeAt i rest
  end.

(** The yield accrued over [timeHeldHours]:
    [(entryApy / 100 / 365 / 24) * timeHeldHours * amount]. *)
Definition apyGainOf (position : Position.t) (timeHeldHours : Q) : Q :=
  (Position.entryApy position / 100 / 365 / 24) * timeHeldHours
    * Position.amount position.

(** The field writes of [exitPosition] on the position object. *)
Definition closePosition (now : Z) (position : Position.t) (currentPool : Pool.t)
    (reason : string) : Position.t :=
  let timeHeldHours := hoursOfMs (now - Position.entryTime position) in
  let apyGain := apyGainOf position timeHeldHours in
  let priceChange :=
    ((Pool.price currentPool - Position.entryPrice position)
       / Position.entryPrice position) * Position.amount position in
  let currentValue := Position.amount position + apyGain + priceChange in
  let pnl := currentValue - Position.amount position in
  let pnlPercentage := (pnl / Position.amount position) * 100 in
  Position.mk (Position.id position) (Position.poolId position)
    (Position.entryTime position) (Position.entryPrice position)
    (Position.entryApy position) (Position.amount position)
    currentValue (Position.currentApy position) pnl pnlPercentage
    exited (Some now) (Some (Pool.price currentPool)) (Some reason).

(** [exitPosition]: the boolean is the function's result. *)
Definition exitPosition (positionId : string) (now : Z) (currentPool : Pool.t)
    (reason : string) (st : State) : bool * State :=
  let pf := portfolio st in
  match findIndex (fun p => String.eqb (Position.id p) positionId)
                  (Portfolio.activePositions pf) with
  | None => (false, st)
  | Some positionIndex =>
      match nth_error (Portfolio.activePositions pf) positionIndex with
      | None => (false, st)
      | Some position0 =>
          let position := closePosition now position0 currentPool reason in
          (* Update portfolio *)
          let pf' :=
            Portfolio.mk (Portfolio.totalValue pf)
              (Portfolio.totalInvested pf - Position.amount position)
              (Portfolio.totalPnl pf) (Portfolio.totalPnlPercentage pf)
              (removeAt positionIndex (Portfolio.activePositions pf))
              (Portfolio.closedPositions pf ++ [position])
              (Portfolio.availableCash pf + Position.currentValue position)
              (Portfolio.maxPositions pf) in
          (* Log action *)
          let action :=
            mkAction ("exit_" ++ Position.id position)%string now position_exited
              (Position.poolId position)
              (ExitDetails (Position.id position) reason (Position.pnl position)
                 (Position.pnlPercentage position)
                 (hoursOfMs (now - Position.entryTime position0))
                 (Position.currentValue position))
              true in
          (true, mkState pf' (actions st ++ [action]))
      end
  end.

(** [updatePosition]: the field writes on the position object. *)
Definition updatePosition (now : Z) (position : Position.t) (currentPool : Pool.t)
    : Position.t :=
  let timeHeldHours := hoursOfMs (now - Position.entryTime position) in
  (* Simulate APY gains over time *)
  let apyGain := apyGainOf position timeHeldHours in
  (* Simulate price impact on position value: 50% price exposure *)
  let priceChange :=
    ((Pool.price currentPool - Position.entryPrice position)
       / Position.entryPrice position) * Position.amount position * (1 # 2) in
  let currentValue := Position.amount position + apyGain + priceChange in
  let pnl := currentValue - Position.amount position in
  Position.mk (Position.id position) (Position.poolId position)
    (Position.entryTime position) (Position.entryPrice position)
    (Position.entryApy position) (Position.amount position)
    currentValue (Pool.apy currentPool) pnl
    ((pnl / Position.amount position) * 100)
    (Position.status position) (Position.exitTime position)
    (Position.exitPrice position) (Position.exitReason position).

(** [updatePosition] seen from the ledger. The caller holds a reference
    to a position object; the object is the one created by [enterPosition]
    under that [id], and it sits in the active list or, once exited, in
    the closed one. *)
Definition updateIn (positionId : string) (now : Z) (currentPool : Pool.t)
    (l : list Position.t) : list Position.t :=
  map (fun p => if String.eqb (Position.id p) positionId
                then updatePosition now p currentPool else p) l.

Definition updatePositionById (positionId : string) (now : Z)
    (currentPool : Pool.t) (st : State) : State :=
  let pf := portfolio st in
  mkState
    (Portfolio.mk (Portfolio.totalValue pf) (Portfolio.totalInvested pf)
       (Portfolio.totalPnl pf) (Portfolio.totalPnlPercentage pf)
       (updateIn positionId now currentPool (Portfolio.activePositions pf))
       (updateIn positionId now currentPool (Portfolio.closedPositions pf))
       (Portfolio.availableCash pf) (Portfolio.maxPositions pf))
    (actions st).

(** One call on the ledger. *)
Inductive Op : Type :=
| Enter (uuid : string) (now : Z) (pool : Pool.t)
| Exit (positionId : string) (now : Z) (currentPool : Pool.t) (reason : string)
| Update (positionId : string) (now : Z) (currentPool : Pool.t).

Definition step (config : Config.t) (st : State) (op : Op) : State :=
  match op with
  | Enter uuid now pool => snd (enterPosition config uuid now pool st)
  | Exit positionId now currentPool reason =>
      snd (exitPosition positionId now currentPool reason st)
  | Update positionId now currentPool =>
      updatePositionById positionId now currentPool st
  end.

(** The state after a sequence of calls on a fresh manager. *)
Definition run (config : Config.t) (initialCash : Q) (ops : list Op) : State :=
  fold_left (step config) ops (init config initialCash).

End PortfolioManager.


(** * Properties *)

(** ** Hard gates of the scoring engine *)

Module GateProperties.
Import PoolEvaluator.

Definition usdc : Token.t :=
  Token.mk "EPjFWdd5AufqSSqeM2qN1xzybapC8G4wEGGkZwyTDt1v" "USDC" 6 50000.
Definition wsol : Token.t :=
  Token.mk "So11111111111111111111111111111111111111112" "SOL" 9 50000.

(** A pool created two hours before [now = 7200000], balanced 50/50. *)
Definition samplePool (apy tvl volume24h : Q) : Pool.t :=
  Pool.mk "pool_1" usdc wsol tvl volume24h 0 apy 0 1000 1.

Definition sampleNow : Z := 7200000.

(** Yield 25% passes the default 20% gate, TVL $50 fails the $100 gate. *)
Definition poolLowTvl : Pool.t := samplePool 25 50 2000.
(** Yield and TVL pass, volume $500 fails the $1000 gate. *)
Definition poolLowVolume : Pool.t := samplePool 25 5000 500.
(** Yield 8.5% fails the 20% gate. *)
Definition poolLowApy : Pool.t := samplePool (85 # 10) 5000 2000.

Example evaluate_poolLowApy :
  evaluatePoolForEntry DEFAULT_BOT_CONFIG sampleNow poolLowApy
  = mkEvaluation false 0 [ApyBelow (85 # 10) 20] [].
Proof. reflexivity. Qed.

(** The entry scenario of the specification: yield 18.5%, TVL $75,000,
    volume $25,000, two hours old, balanced, under the demonstration
    configuration (yield >= 12, TVL >= 100, volume >= 500). *)
Definition demoConfig : Config.t :=
  Config.mk 12 100 500 3 500 10 (-15) 25 168 10000 10.

Example evaluate_demo_scenario :
  evaluatePoolForEntry demoConfig sampleNow (samplePool (185 # 10) 75000 25000)
  = mkEvaluation true 95
      [ApyMeets (185 # 10) 12; TvlMeets 75000 100; VolumeMeets 25000 500;
       AgeWithinRange (hoursOfMs 7200000);
       GoodLiquidityBalance
         (calculateLiquidityRatio (samplePool (185 # 10) 75000 25000));
       HighVolumeActivity]
      []
  /\ calculateLiquidityRatio (samplePool (185 # 10) 75000 25000) == 1.
Proof. split; reflexivity. Qed.

(** C1, as stated, fails on the configured evaluator: a pool that passes
    the yield gate and fails the TVL gate is skipped with score 25 and two
    reasons, not with score 0 and exactly one reason. *)
Lemma hard_gate_score_counterexample :
  Pool.tvl poolLowTvl < Config.minTvl DEFAULT_BOT_CONFIG
  /\ shouldEnter (evaluatePoolForEntry DEFAULT_BOT_CONFIG sampleNow poolLowTvl) = false
  /\ score (evaluatePoolForEntry DEFAULT_BOT_CONFIG sampleNow poolLowTvl) = 25%Z
  /\ List.length (reasons (evaluatePoolForEntry DEFAULT_BOT_CONFIG sampleNow poolLowTvl)) = 2%nat
  /\ ~ (score (evaluatePoolForEntry DEFAULT_BOT_CONFIG sampleNow poolLowTvl) = 0%Z
        /\ List.length (reasons (evaluatePoolForEntry DEFAULT_BOT_CONFIG sampleNow poolLowTvl)) = 1%nat).
Proof.
  repeat split; try reflexivity.
  intros [H _]. vm_compute in H. discriminate H.
Qed.

(** C1, amended. A pool that fails a hard gate is skipped and nothing
    after the failing gate is read: the result is a function of the
    metrics up to that gate alone. The configured evaluator returns the
    points of the gates passed so far (0, 25, 45) and one reason per gate
    checked, the last one naming the failing gate, so score 0 with exactly
    one reason is the yield-gate case; the monitor's evaluator returns
    score 0 and exactly one reason at each of the three gates. *)
Theorem hard_gate_failure_skips (config : Config.t) (now : Z) (pool : Pool.t) :
  (Pool.apy pool < Config.minApy config ->
     evaluatePoolForEntry config now pool
     = mkEvaluation false 0 [ApyBelow (Pool.apy pool) (Config.minApy config)] [])
  /\ (Config.minApy config <= Pool.apy pool ->
      Pool.tvl pool < Config.minTvl config ->
      evaluatePoolForEntry config now pool
      = mkEvaluation false 25
          [ApyMeets (Pool.apy pool) (Config.minApy config);
           TvlBelow (Pool.tvl pool) (Config.minTvl config)] [])
  /\ (Config.minApy config <= Pool.apy pool ->
      Config.minTvl config <= Pool.tvl pool ->
      Pool.volume24h pool < Config.minVolume24h config ->
      evaluatePoolForEntry config now pool
      = mkEvaluation false 45
          [ApyMeets (Pool.apy pool) (Config.minApy config);
           TvlMeets (Pool.tvl pool) (Config.minTvl config);
           VolumeBelow (Pool.volume24h pool) (Config.minVolume24h config)] [])
  /\ (Pool.apy pool < PoolMonitor.MIN_APY ->
      PoolMonitor.evaluatePoolForEntry now pool
      = PoolMonitor.mkEvaluation (Pool.poolId pool) 0 PoolMonitor.SKIP
          [PoolMonitor.ApyBelow (Pool.apy pool) PoolMonitor.MIN_APY] [] now)
  /\ (PoolMonitor.MIN_APY <= Pool.apy pool ->
      Pool.tvl pool < PoolMonitor.MIN_TVL ->
      PoolMonitor.evaluatePoolForEntry now pool
      = PoolMonitor.mkEvaluation (Pool.poolId pool) 0 PoolMonitor.SKIP
          [PoolMonitor.TvlBelow (Pool.tvl pool) PoolMonitor.MIN_TVL] [] now)
  /\ (PoolMonitor.MIN_APY <= Pool.apy pool ->
      PoolMonitor.MIN_TVL <= Pool.tvl pool ->
      Pool.volume24h pool < PoolMonitor.MIN_VOLUME_24H ->
      PoolMonitor.evaluatePoolForEntry now pool
      = PoolMonitor.mkEvaluation (Pool.poolId pool) 0 PoolMonitor.SKIP
          [PoolMonitor.VolumeBelow (Pool.volume24h pool) PoolMonitor.MIN_VOLUME_24H] [] now).
Proof.
  unfold evaluatePoolForEntry, PoolMonitor.evaluatePoolForEntry.
  repeat split; intros;
    repeat match goal with
    | H : _ <= _ |- _ => apply Qle_bool_iff in H; rewrite H
    | H : _ < _ |- _ => apply Qle_bool_false_iff in H; rewrite H
    end; reflexivity.
Qed.

(** The three branches of each evaluator are reached: the sample pools
    fail the yield, the TVL and the volume gate in turn. *)
Lemma hard_gate_failure_skips_witness :
  (score (evaluatePoolForEntry DEFAULT_BOT_CONFIG sampleNow poolLowApy) = 0%Z
   /\ score (evaluatePoolForEntry DEFAULT_BOT_CONFIG sampleNow poolLowTvl) = 25%Z
   /\ score (evaluatePoolForEntry DEFAULT_BOT_CONFIG sampleNow poolLowVolume) = 45%Z)
  /\ (PoolMonitor.score (PoolMonitor.evaluatePoolForEntry sampleNow poolLowApy) = 0%Z
      /\ PoolMonitor.score
           (PoolMonitor.evaluatePoolForEntry sampleNow (samplePool 150 20 2000)) = 0%Z
      /\ PoolMonitor.score
           (PoolMonitor.evaluatePoolForEntry sampleNow (samplePool 150 5000 100)) = 0%Z).
Proof.
  split; [split; [|split] | split; [|split]].
  - destruct (hard_gate_failure_skips DEFAULT_BOT_CONFIG sampleNow poolLowApy)
      as [H _]. rewrite H; [reflexivity | reflexivity].
  - destruct (hard_gate_failure_skips DEFAULT_BOT_CONFIG sampleNow poolLowTvl)
      as [_ [H _]]. rewrite H; [reflexivity | discriminate | reflexivity].
  - destruct (hard_gate_failure_skips DEFAULT_BOT_CONFIG sampleNow poolLowVolume)
      as [_ [_ [H _]]].
    rewrite H; [reflexivity | discriminate | discriminate | reflexivity].
  - destruct (hard_gate_failure_skips DEFAULT_BOT_CONFIG sampleNow poolLowApy)
      as [_ [_ [_ [H _]]]]. rewrite H; [reflexivity | reflexivity].
  - destruct (hard_gate_failure_skips DEFAULT_BOT_CONFIG sampleNow (samplePool 150 20 2000))
      as [_ [_ [_ [_ [H _]]]]].
    rewrite H; [reflexivity | discriminate | reflexivity].
  - destruct (hard_gate_failure_skips DEFAULT_BOT_CONFIG sampleNow (samplePool 150 5000 100))
      as [_ [_ [_ [_ [_ H]]]]].
    rewrite H; [reflexivity | discriminate | discriminate | reflexivity].
Defined.

End GateProperties.


(** ** Monotonicity of the score *)

Module ScoreProperties.
Import PoolEvaluator.

(** The three hard gates as a proposition. *)
Definition passesHardGates (config : Config.t) (pool : Pool.t) : Prop :=
  Config.minApy config <= Pool.apy pool
  /\ Config.minTvl config <= Pool.tvl pool
  /\ Config.minVolume24h config <= Pool.volume24h pool.

Definition agePoints (now : Z) (pool : Pool.t) : Z :=
  let ageHours := getPoolAgeHours now pool in
  if Qle_bool MIN_AGE_HOURS ageHours && Qle_bool ageHours MAX_AGE_HOURS
  then 15 else 5.

Definition liquidityPoints (pool : Pool.t) : Z :=
  if Qle_bool MIN_LIQUIDITY_RATIO (calculateLiquidityRatio pool) then 10 else 3.

(** Points that depend on the three gate metrics, after the gates. *)
Definition metricPoints (config : Config.t) (apy tvl volume24h : Q) : Z :=
  (if Qlt_bool (Config.minApy config * 2) apy then 10 else 0)
  + (if Qlt_bool (Config.minVolume24h config * 5) volume24h then 5 else 0)
  - (if Qlt_bool 100 apy then 20 else 0)
  - (if Qlt_bool tvl (volume24h * (1 # 10)) then 10 else 0).

Lemma score_scoreAfterGates (config : Config.t) (now : Z) (pool : Pool.t)
    (s : Z) (rs : list Reason) (ws : list Warning) :
  score (scoreAfterGates config now pool s rs ws)
  = (s + agePoints now pool + liquidityPoints pool
     + metricPoints config (Pool.apy pool) (Pool.tvl pool) (Pool.volume24h pool))%Z.
Proof.
  unfold scoreAfterGates, agePoints, liquidityPoints, metricPoints.
  destruct (Qle_bool MIN_AGE_HOURS (getPoolAgeHours now pool)
            && Qle_bool (getPoolAgeHours now pool) MAX_AGE_HOURS);
    [| destruct (Qlt_bool (getPoolAgeHours now pool) MIN_AGE_HOURS)];
    destruct (Qle_bool MIN_LIQUIDITY_RATIO (calculateLiquidityRatio pool));
    destruct (Qlt_bool (Config.minApy config * 2) (Pool.apy pool));
    destruct (Qlt_bool (Config.minVolume24h config * 5) (Pool.volume24h pool));
    destruct (Qlt_bool 100 (Pool.apy pool));
    destruct (Qlt_bool (Pool.tvl pool) (Pool.volume24h pool * (1 # 10)));
    simpl; lia.
Qed.

(** The score of a pool that passes the three gates, in closed form. *)
Lemma score_passing (config : Config.t) (now : Z) (pool : Pool.t) :
  passesHardGates config pool ->
  score (evaluatePoolForEntry config now pool)
  = (65 + agePoints now pool + liquidityPoints pool
     + metricPoints config (Pool.apy pool) (Pool.tvl pool) (Pool.volume24h pool))%Z.
Proof.
  intros (Ha & Ht & Hv). unfold evaluatePoolForEntry.
  apply Qle_bool_iff in Ha, Ht, Hv. rewrite Ha, Ht, Hv.
  rewrite score_scoreAfterGates. lia.
Qed.

(** Case analysis on a strict comparison, with its meaning in context. *)
Ltac case_lt a b :=
  let E := fresh "E" in
  destruct (Qlt_bool a b) eqn:E;
  [apply Qlt_bool_iff in E | apply Qlt_bool_false_iff in E].

Lemma metricPoints_mono_tvl (config : Config.t) (apy tvl tvl' vol : Q) :
  tvl <= tvl' ->
  (metricPoints config apy tvl vol <= metricPoints config apy tvl' vol)%Z.
Proof.
  intros H. unfold metricPoints.
  case_lt tvl (vol * (1 # 10)); case_lt tvl' (vol * (1 # 10));
    try lia; exfalso; lra.
Qed.

Lemma metricPoints_mono_apy (config : Config.t) (apy apy' tvl vol : Q) :
  apy <= apy' -> apy' <= 100 \/ 100 < apy ->
  (metricPoints config apy tvl vol <= metricPoints config apy' tvl vol)%Z.
Proof.
  intros H Hflag. unfold metricPoints.
  case_lt (Config.minApy config * 2) apy; case_lt (Config.minApy config * 2) apy';
    case_lt 100 apy; case_lt 100 apy';
    try lia; exfalso; destruct Hflag; lra.
Qed.

Lemma metricPoints_mono_volume (config : Config.t) (apy tvl vol vol' : Q) :
  vol <= vol' -> vol' * (1 # 10) <= tvl \/ tvl < vol * (1 # 10) ->
  (metricPoints config apy tvl vol <= metricPoints config apy tvl vol')%Z.
Proof.
  intros H Hflag. unfold metricPoints.
  case_lt (Config.minVolume24h config * 5) vol;
    case_lt (Config.minVolume24h config * 5) vol';
    case_lt tvl (vol * (1 # 10)); case_lt tvl (vol' * (1 # 10));
    try lia; exfalso; destruct Hflag; lra.
Qed.

Definition poolApy90 : Pool.t := GateProperties.samplePool 90 5000 2000.
Definition poolVolume2000 : Pool.t := GateProperties.samplePool 25 1000 2000.

(** C2, as stated, fails in yield and in volume: raising the yield of a
    passing pool from 90% to 110% crosses the rug-pull ceiling and lowers
    the score from 100 to 80; raising its 24h volume from $2,000 to
    $20,000 at TVL $1,000 raises the low-TVL flag and lowers the score
    from 90 to 85. *)
Lemma score_monotone_counterexample :
  (passesHardGates DEFAULT_BOT_CONFIG poolApy90
   /\ Pool.apy poolApy90 <= 110
   /\ score (evaluatePoolForEntry DEFAULT_BOT_CONFIG GateProperties.sampleNow poolApy90)
      = 100%Z
   /\ score (evaluatePoolForEntry DEFAULT_BOT_CONFIG GateProperties.sampleNow
               (Pool.with_apy poolApy90 110)) = 80%Z)
  /\ (passesHardGates DEFAULT_BOT_CONFIG poolVolume2000
      /\ Pool.volume24h poolVolume2000 <= 20000
      /\ score (evaluatePoolForEntry DEFAULT_BOT_CONFIG GateProperties.sampleNow
                  poolVolume2000) = 90%Z
      /\ score (evaluatePoolForEntry DEFAULT_BOT_CONFIG GateProperties.sampleNow
                  (Pool.with_volume24h poolVolume2000 20000)) = 85%Z).
Proof.
  unfold passesHardGates.
  repeat split; try reflexivity; discriminate.
Qed.

(** C2, amended. For a pool that passes the three hard gates, with the
    configuration, the clock and every other attribute fixed, the score
    never drops when TVL rises; it never drops when the yield rises unless
    the rise takes the yield across the 100% red-flag ceiling; and it
    never drops when the 24h volume rises unless the rise brings TVL below
    a tenth of the volume (the low-TVL red flag). *)
Theorem score_monotone (config : Config.t) (now : Z) (pool : Pool.t) :
  passesHardGates config pool ->
  (forall tvl' : Q,
      Pool.tvl pool <= tvl' ->
      (score (evaluatePoolForEntry config now pool)
       <= score (evaluatePoolForEntry config now (Pool.with_tvl pool tvl')))%Z)
  /\ (forall apy' : Q,
      Pool.apy pool <= apy' ->
      apy' <= 100 \/ 100 < Pool.apy pool ->
      (score (evaluatePoolForEntry config now pool)
       <= score (evaluatePoolForEntry config now (Pool.with_apy pool apy')))%Z)
  /\ (forall volume' : Q,
      Pool.volume24h pool <= volume' ->
      volume' * (1 # 10) <= Pool.tvl pool
        \/ Pool.tvl pool < Pool.volume24h pool * (1 # 10) ->
      (score (evaluatePoolForEntry config now pool)
       <= score (evaluatePoolForEntry config now (Pool.with_volume24h pool volume')))%Z).
Proof.
  intros Hpass. pose proof Hpass as (Ha & Ht & Hv).
  rewrite (score_passing _ _ _ Hpass).
  split; [|split].
  - intros tvl' Hle.
    rewrite score_passing by (unfold passesHardGates; simpl; repeat split; lra).
    pose proof (metricPoints_mono_tvl config (Pool.apy pool) _ _
                  (Pool.volume24h pool) Hle).
    destruct pool; simpl in *.
    unfold agePoints, liquidityPoints, getPoolAgeHours, calculateLiquidityRatio in *.
    simpl in *. lia.
  - intros apy' Hle Hflag.
    rewrite score_passing by (unfold passesHardGates; simpl; repeat split; lra).
    pose proof (metricPoints_mono_apy config _ _ (Pool.tvl pool)
                  (Pool.volume24h pool) Hle Hflag).
    destruct pool; simpl in *.
    unfold agePoints, liquidityPoints, getPoolAgeHours, calculateLiquidityRatio in *.
    simpl in *. lia.
  - intros vol' Hle Hflag.
    rewrite score_passing by (unfold passesHardGates; simpl; repeat split; lra).
    pose proof (metricPoints_mono_volume config (Pool.apy pool) (Pool.tvl pool)
                  _ _ Hle Hflag).
    destruct pool; simpl in *.
    unfold agePoints, liquidityPoints, getPoolAgeHours, calculateLiquidityRatio in *.
    simpl in *. lia.
Qed.

(** The amended statement at the default configuration: from yield 25%,
    TVL $5,000 and volume $2,000 the score holds at 90 when TVL rises to
    $50,000 and rises to 100 when the yield rises to 90%. *)
Lemma score_monotone_witness :
  (score (evaluatePoolForEntry DEFAULT_BOT_CONFIG GateProperties.sampleNow
            (GateProperties.samplePool 25 5000 2000))
   <= score (evaluatePoolForEntry DEFAULT_BOT_CONFIG GateProperties.sampleNow
               (Pool.with_tvl (GateProperties.samplePool 25 5000 2000) 50000)))%Z
  /\ (score (evaluatePoolForEntry DEFAULT_BOT_CONFIG GateProperties.sampleNow
               (GateProperties.samplePool 25 5000 2000))
      <= score (evaluatePoolForEntry DEFAULT_BOT_CONFIG GateProperties.sampleNow
                  (Pool.with_apy (GateProperties.samplePool 25 5000 2000) 90)))%Z.
Proof.
  assert (Hpass : passesHardGates DEFAULT_BOT_CONFIG
                    (GateProperties.samplePool 25 5000 2000))
    by (unfold passesHardGates; repeat split; discriminate).
  destruct (score_monotone DEFAULT_BOT_CONFIG GateProperties.sampleNow
              (GateProperties.samplePool 25 5000 2000) Hpass) as (Ht & Ha & _).
  split.
  - apply Ht. discriminate.
  - apply Ha; [discriminate | left; discriminate].
Defined.

End ScoreProperties.


(** ** Deduplication of discovered pools *)

Module DedupProperties.
Import YieldFarmingBot.

Section FoldInvariant.
Context {A B : Type} (f : A -> B -> A) (P : list B -> A -> Prop).
Hypothesis step_ok : forall l a b, P l a -> P (l ++ [b]) (f a b).

(** An invariant of the elements consumed so far survives [forEach]. *)
Lemma fold_left_invariant (a0 : A) (l : list B) :
  P [] a0 -> P l (fold_left f l a0).
Proof.
  intros H0. induction l as [|b l IH] using rev_ind.
  - exact H0.
  - rewrite fold_left_app. simpl. apply step_ok. exact IH.
Qed.
End FoldInvariant.

Lemma mapGet_mapSet (m : PoolMap) (k k' : string) (v : Pool.t) :
  mapGet (mapSet m k v) k' = if String.eqb k k' then Some v else mapGet m k'.
Proof.
  induction m as [|[k0 v0] m IH]; simpl.
  - reflexivity.
  - destruct (String.eqb k0 k) eqn:E0; simpl.
    + apply String.eqb_eq in E0. subst k0.
      destruct (String.eqb k k'); reflexivity.
    + rewrite IH. destruct (String.eqb k0 k') eqn:E1; [|reflexivity].
      apply String.eqb_eq in E1. subst k'. rewrite String.eqb_sym, E0. reflexivity.
Qed.

Lemma mapGet_In (m : PoolMap) (k : string) (v : Pool.t) :
  mapGet m k = Some v -> In (k, v) m.
Proof.
  induction m as [|[k0 v0] m IH]; simpl; [discriminate|].
  destruct (String.eqb k0 k) eqn:E.
  - apply String.eqb_eq in E. intros [= ->]. left. congruence.
  - intros H. right. auto.
Qed.

Lemma mapGet_None_notin (m : PoolMap) (k : string) :
  mapGet m k = None -> ~ In k (map fst m).
Proof.
  induction m as [|[k0 v0] m IH]; simpl; [tauto|].
  destruct (String.eqb k0 k) eqn:E; [discriminate|].
  apply String.eqb_neq in E. intros H [H1|H1]; [congruence | exact (IH H H1)].
Qed.

Lemma In_mapSet (m : PoolMap) (k k' : string) (v v' : Pool.t) :
  In (k', v') (mapSet m k v) -> (k' = k /\ v' = v) \/ In (k', v') m.
Proof.
  induction m as [|[k0 v0] m IH]; simpl.
  - intros [[= <- <-]|[]]. left. split; reflexivity.
  - destruct (String.eqb k0 k) eqn:E; simpl.
    + apply String.eqb_eq in E. subst k0.
      intros [[= <- <-]|H]; [left; split; reflexivity | right; right; exact H].
    + intros [H|H]; [right; left; exact H|].
      destruct (IH H) as [H1|H1]; [left; exact H1 | right; right; exact H1].
Qed.

(** [set] on a present key leaves the order of the keys alone; on an
    absent key it appends the key. *)
Lemma keys_mapSet (m : PoolMap) (k : string) (v : Pool.t) :
  map fst (mapSet m k v)
  = if mapHas m k then map fst m else map fst m ++ [k].
Proof.
  unfold mapHas. induction m as [|[k0 v0] m IH]; simpl.
  - reflexivity.
  - destruct (String.eqb k0 k) eqn:E; simpl.
    + reflexivity.
    + rewrite IH. destruct (mapGet m k); reflexivity.
Qed.

Lemma NoDup_snoc {A : Type} (l : list A) (x : A) :
  NoDup l -> ~ In x l -> NoDup (l ++ [x]).
Proof.
  intros Hl Hx. induction Hl as [|y l Hy Hl IH]; simpl.
  - constructor; [tauto | constructor].
  - constructor.
    + rewrite in_app_iff. simpl. intros [H|[H|[]]]; [tauto|].
      apply Hx. left. auto.
    + apply IH. intros H. apply Hx. right. exact H.
Qed.

(** What the map of [deduplicatePools] holds once [seen] has been
    consumed: distinct keys, each bound to a consumed record of that pool
    id, and for every consumed record a binding at least as recent. *)
Definition dedupInvariant (seen : list Pool.t) (m : PoolMap) : Prop :=
  NoDup (map fst m)
  /\ (forall k v, In (k, v) m -> Pool.poolId v = k /\ In v seen)
  /\ (forall p, In p seen ->
        exists v, mapGet m (Pool.poolId p) = Some v
                  /\ (Pool.createdAt p <= Pool.createdAt v)%Z).

Lemma dedupInvariant_set (seen : list Pool.t) (m : PoolMap) (pool : Pool.t) :
  dedupInvariant seen m ->
  (forall old, mapGet m (Pool.poolId pool) = Some old ->
               (Pool.createdAt old < Pool.createdAt pool)%Z) ->
  dedupInvariant (seen ++ [pool]) (mapSet m (Pool.poolId pool) pool).
Proof.
  intros (Hnd & Hin & Hmax) Hnewer. split; [|split].
  - rewrite keys_mapSet. unfold mapHas.
    destruct (mapGet m (Pool.poolId pool)) eqn:E; [exact Hnd|].
    apply NoDup_snoc; [exact Hnd | apply mapGet_None_notin; exact E].
  - intros k v H. apply In_mapSet in H. rewrite in_app_iff.
    destruct H as [[-> ->]|H].
    + split; [reflexivity | right; left; reflexivity].
    + destruct (Hin k v H). split; [assumption | left; assumption].
  - intros p Hp. rewrite mapGet_mapSet. rewrite in_app_iff in Hp.
    destruct (String.eqb (Pool.poolId pool) (Pool.poolId p)) eqn:E.
    + exists pool. split; [reflexivity|].
      destruct Hp as [Hp|[<-|[]]]; [|lia].
      destruct (Hmax p Hp) as (v & Hv & Hle).
      apply String.eqb_eq in E. rewrite <- E in Hv.
      specialize (Hnewer v Hv). lia.
    + destruct Hp as [Hp|[<-|[]]]; [exact (Hmax p Hp)|].
      rewrite String.eqb_refl in E. discriminate.
Qed.

Lemma dedupInvariant_step (seen : list Pool.t) (m : PoolMap) (pool : Pool.t) :
  dedupInvariant seen m -> dedupInvariant (seen ++ [pool]) (dedupStep m pool).
Proof.
  intros Hinv. unfold dedupStep.
  destruct (mapGet m (Pool.poolId pool)) as [old|] eqn:E.
  - destruct (Pool.createdAt old <? Pool.createdAt pool)%Z eqn:Hlt.
    + apply dedupInvariant_set; [exact Hinv|].
      intros old' Hold. rewrite E in Hold. injection Hold as <-.
      apply Z.ltb_lt. exact Hlt.
    + apply Z.ltb_ge in Hlt. destruct Hinv as (Hnd & Hin & Hmax).
      split; [exact Hnd | split].
      * intros k v H. destruct (Hin k v H). rewrite in_app_iff. tauto.
      * intros p Hp. rewrite in_app_iff in Hp.
        destruct Hp as [Hp|[<-|[]]]; [exact (Hmax p Hp)|].
        exists old. split; [exact E | exact Hlt].
  - apply dedupInvariant_set; [exact Hinv|].
    intros old' Hold. rewrite E in Hold. discriminate Hold.
Qed.

Lemma dedupInvariant_fold (pools : list Pool.t) :
  dedupInvariant pools (fold_left dedupStep pools []).
Proof.
  apply (fold_left_invariant dedupStep dedupInvariant).
  - intros l a b. apply dedupInvariant_step.
  - split; [constructor | split]; simpl; intros; contradiction.
Qed.

(** The first record of [pools] with a given mint-pair key. *)
Definition firstWithKey (key : string) (pools : list Pool.t) : option Pool.t :=
  find (fun x => String.eqb (PoolMonitor.pairKey x) key) pools.

Lemma removeDuplicatePoolsFrom_spec (pools : list Pool.t) :
  forall seen : list string,
  let out := PoolMonitor.removeDuplicatePoolsFrom seen pools in
  NoDup (map PoolMonitor.pairKey out)
  /\ (forall q, In q out ->
        PoolMonitor.seenHas seen (PoolMonitor.pairKey q) = false
        /\ firstWithKey (PoolMonitor.pairKey q) pools = Some q)
  /\ (forall p, In p pools ->
        PoolMonitor.seenHas seen (PoolMonitor.pairKey p) = false ->
        exists q, In q out /\ firstWithKey (PoolMonitor.pairKey p) pools = Some q).
Proof.
  induction pools as [|pool rest IH]; intros seen; cbn zeta.
  - split; [constructor | split]; simpl; intros; contradiction.
  - simpl PoolMonitor.removeDuplicatePoolsFrom. unfold firstWithKey. simpl find.
    destruct (PoolMonitor.seenHas seen (PoolMonitor.pairKey pool)) eqn:Eseen.
    + destruct (IH seen) as (Hnd & Hout & Hall). split; [exact Hnd | split].
      * intros q Hq. destruct (Hout q Hq) as (Hns & Hfirst).
        split; [exact Hns|].
        destruct (String.eqb (PoolMonitor.pairKey pool) (PoolMonitor.pairKey q)) eqn:E;
          [|exact Hfirst].
        apply String.eqb_eq in E. rewrite E in Eseen. congruence.
      * intros p Hp Hns.
        destruct (String.eqb (PoolMonitor.pairKey pool) (PoolMonitor.pairKey p)) eqn:E.
        { apply String.eqb_eq in E. rewrite E in Eseen. congruence. }
        destruct Hp as [<-|Hp]; [rewrite String.eqb_refl in E; discriminate|].
        exact (Hall p Hp Hns).
    + destruct (IH (PoolMonitor.pairKey pool :: seen)) as (Hnd & Hout & Hall).
      assert (Hfresh : forall q,
                 In q (PoolMonitor.removeDuplicatePoolsFrom
                         (PoolMonitor.pairKey pool :: seen) rest) ->
                 String.eqb (PoolMonitor.pairKey pool) (PoolMonitor.pairKey q) = false
                 /\ PoolMonitor.seenHas seen (PoolMonitor.pairKey q) = false).
      { intros q Hq. destruct (Hout q Hq) as (Hns & _).
        unfold PoolMonitor.seenHas in Hns. simpl in Hns.
        apply orb_false_iff in Hns. destruct Hns as (Hk & Hs).
        rewrite String.eqb_sym. split; assumption. }
      split; [|split].
      * simpl. constructor; [|exact Hnd].
        rewrite in_map_iff. intros (q & Hkey & Hq).
        destruct (Hfresh q Hq) as (Hne & _).
        rewrite Hkey, String.eqb_refl in Hne. discriminate.
      * intros q [<-|Hq].
        { rewrite String.eqb_refl. split; [exact Eseen | reflexivity]. }
        destruct (Hfresh q Hq) as (Hne & Hns). rewrite Hne.
        split; [exact Hns | exact (proj2 (Hout q Hq))].
      * intros p Hp Hns.
        destruct (String.eqb (PoolMonitor.pairKey pool) (PoolMonitor.pairKey p)) eqn:E.
        { exists pool. split; [left; reflexivity | reflexivity]. }
        destruct Hp as [<-|Hp]; [rewrite String.eqb_refl in E; discriminate|].
        destruct (Hall p Hp) as (q & Hq & Hfirst).
        { unfold PoolMonitor.seenHas. simpl. rewrite String.eqb_sym, E. exact Hns. }
        exists q. split; [right; exact Hq | exact Hfirst].
Qed.

Definition rayMint : string := "4k3Dyjzvzp8eMZWUXbBCjEvwSkkk59S5iCNLY3QrkX6R".
Definition solMint : string := "So11111111111111111111111111111111111111112".

(** A RAY/SOL record with the given pool id and creation time. *)
Definition raySol (poolId : string) (createdAt : Z) : Pool.t :=
  Pool.mk poolId (Token.mk rayMint "RAY" 6 1000) (Token.mk solMint "SOL" 9 1000)
    5000 2000 10 30 createdAt 100 1.

(** C3, as stated, fails on both discovery paths. The bot's
    [deduplicatePools] keeps two records of the same (baseMint, quoteMint)
    pair when their pool ids differ; the monitor's [removeDuplicatePools]
    keeps the first record of a pair, here the older one. *)
Lemma dedup_pair_counterexample :
  PoolMonitor.pairKey (raySol "raydium_1" 100) = PoolMonitor.pairKey (raySol "jupiter_1" 200)
  /\ deduplicatePools [raySol "raydium_1" 100; raySol "jupiter_1" 200]
     = [raySol "raydium_1" 100; raySol "jupiter_1" 200]
  /\ PoolMonitor.removeDuplicatePools [raySol "raydium_1" 100; raySol "jupiter_1" 200]
     = [raySol "raydium_1" 100]
  /\ (Pool.createdAt (raySol "raydium_1" 100) < Pool.createdAt (raySol "jupiter_1" 200))%Z.
Proof. repeat split. Qed.

Example deduplicatePools_keeps_newest :
  deduplicatePools [raySol "a" 100; raySol "b" 50; raySol "a" 300; raySol "a" 200]
  = [raySol "a" 300; raySol "b" 50].
Proof. reflexivity. Qed.

Lemma find_app_first {A : Type} (f : A -> bool) (l l' : list A) :
  find f (l ++ l')
  = match find f l with
    | Some x => Some x
    | None => find f l'
    end.
Proof.
  induction l as [|y l IH]; simpl; [reflexivity|].
  destruct (f y); [reflexivity | exact IH].
Qed.

Lemma find_all_false {A : Type} (f : A -> bool) (l : list A) :
  (forall x, In x l -> f x = false) -> find f l = None.
Proof.
  induction l as [|y l IH]; simpl; intros H; [reflexivity|].
  rewrite (H y (or_introl eq_refl)). apply IH.
  intros x Hx. apply H. right. exact Hx.
Qed.

(** The first record of [pools] that carries the pool id of [q] and was
    created no earlier than [q]. *)
Definition firstNewest (q : Pool.t) (pools : list Pool.t) : option Pool.t :=
  find (fun x => String.eqb (Pool.poolId x) (Pool.poolId q)
                 && (Pool.createdAt q <=? Pool.createdAt x)%Z) pools.

(** Every record the map holds came first among the consumed records of
    its pool id that are as recent as it is. *)
Definition tieInvariant (seen : list Pool.t) (m : PoolMap) : Prop :=
  forall k v, In (k, v) m -> firstNewest v seen = Some v.

Lemma firstNewest_self (pool : Pool.t) (seen : list Pool.t) :
  (forall x, In x seen -> Pool.poolId x = Pool.poolId pool ->
             (Pool.createdAt x < Pool.createdAt pool)%Z) ->
  firstNewest pool (seen ++ [pool]) = Some pool.
Proof.
  intros Holder. unfold firstNewest. rewrite find_app_first.
  rewrite find_all_false.
  - simpl. rewrite String.eqb_refl, Z.leb_refl. reflexivity.
  - intros x Hx.
    destruct (String.eqb (Pool.poolId x) (Pool.poolId pool)) eqn:E; [|reflexivity].
    apply String.eqb_eq in E. specialize (Holder x Hx E).
    simpl. apply Z.leb_gt. exact Holder.
Qed.

Lemma firstNewest_keeps (v pool : Pool.t) (seen : list Pool.t) :
  firstNewest v seen = Some v -> firstNewest v (seen ++ [pool]) = Some v.
Proof.
  unfold firstNewest. intros H. rewrite find_app_first, H. reflexivity.
Qed.

Lemma tieInvariant_step (seen : list Pool.t) (m : PoolMap) (pool : Pool.t) :
  dedupInvariant seen m -> tieInvariant seen m ->
  tieInvariant (seen ++ [pool]) (dedupStep m pool).
Proof.
  intros (Hnd & Hin & Hmax) Htie. unfold dedupStep.
  destruct (mapGet m (Pool.poolId pool)) as [old|] eqn:E.
  - destruct (Pool.createdAt old <? Pool.createdAt pool)%Z eqn:Hlt.
    + apply Z.ltb_lt in Hlt. intros k v Hkv. apply In_mapSet in Hkv.
      destruct Hkv as [(_ & ->)|Hkv]; [|apply firstNewest_keeps, (Htie k v Hkv)].
      apply firstNewest_self. intros x Hx Hid.
      destruct (Hmax x Hx) as (v0 & Hget & Hle).
      rewrite Hid, E in Hget. injection Hget as <-. lia.
    + intros k v Hkv. apply firstNewest_keeps, (Htie k v Hkv).
  - intros k v Hkv. apply In_mapSet in Hkv.
    destruct Hkv as [(_ & ->)|Hkv]; [|apply firstNewest_keeps, (Htie k v Hkv)].
    apply firstNewest_self. intros x Hx Hid.
    destruct (Hmax x Hx) as (v0 & Hget & _).
    rewrite Hid, E in Hget. discriminate Hget.
Qed.

Lemma tieInvariant_fold (pools : list Pool.t) :
  dedupInvariant pools (fold_left dedupStep pools [])
  /\ tieInvariant pools (fold_left dedupStep pools []).
Proof.
  apply (fold_left_invariant dedupStep
           (fun seen m => dedupInvariant seen m /\ tieInvariant seen m)).
  - intros l a b (Hinv & Htie).
    split; [apply dedupInvariant_step; exact Hinv
           | apply tieInvariant_step; assumption].
  - split.
    + split; [constructor | split]; simpl; intros; contradiction.
    + intros k v [].
Qed.

(** Two records of one pool id with the same creation time: the one
    seen first stays. *)
Example deduplicatePools_tie_keeps_first :
  deduplicatePools [raySol "a" 100; Pool.with_tvl (raySol "a" 100) 7777;
                    raySol "a" 50]
  = [raySol "a" 100].
Proof. reflexivity. Qed.

(** C3, amended. The bot's discovery cycle deduplicates by pool id and
    keeps a most recently created record of each id, the earlier one on
    equal creation times: the result has pairwise distinct pool ids,
    holds only candidate records, for every candidate holds a record of
    the same pool id created no earlier, and every record it holds is the
    first candidate of its pool id that is created no earlier than it.
    The monitor's discovery deduplicates by the key made of the two mints
    and keeps the first record seen: the result has pairwise distinct
    keys, and it holds exactly the first candidate of every key. *)
Theorem dedup_keeps (pools : list Pool.t) :
  (NoDup (map Pool.poolId (deduplicatePools pools))
   /\ (forall q, In q (deduplicatePools pools) -> In q pools)
   /\ (forall p, In p pools ->
         exists q, In q (deduplicatePools pools)
                   /\ Pool.poolId q = Pool.poolId p
                   /\ (Pool.createdAt p <= Pool.createdAt q)%Z)
   /\ (forall q, In q (deduplicatePools pools) -> firstNewest q pools = Some q))
  /\ (NoDup (map PoolMonitor.pairKey (PoolMonitor.removeDuplicatePools pools))
      /\ (forall q, In q (PoolMonitor.removeDuplicatePools pools) ->
            firstWithKey (PoolMonitor.pairKey q) pools = Some q)
      /\ (forall p, In p pools ->
            exists q, In q (PoolMonitor.removeDuplicatePools pools)
                      /\ firstWithKey (PoolMonitor.pairKey p) pools = Some q)).
Proof.
  split.
  - unfold deduplicatePools, mapValues.
    destruct (tieInvariant_fold pools) as ((Hnd & Hin & Hmax) & Htie).
    set (m := fold_left dedupStep pools []) in *.
    assert (Hkeys : map Pool.poolId (map snd m) = map fst m).
    { rewrite map_map. apply map_ext_in. intros [k v] Hkv.
      simpl. exact (proj1 (Hin k v Hkv)). }
    split; [rewrite Hkeys; exact Hnd | split; [|split]].
    + intros q Hq. apply in_map_iff in Hq. destruct Hq as ([k v] & <- & Hkv).
      exact (proj2 (Hin k v Hkv)).
    + intros p Hp. destruct (Hmax p Hp) as (v & Hget & Hle).
      apply mapGet_In in Hget. exists v. split; [|split].
      * apply in_map_iff. exists (Pool.poolId p, v). split; [reflexivity | exact Hget].
      * exact (proj1 (Hin _ _ Hget)).
      * exact Hle.
    + intros q Hq. apply in_map_iff in Hq. destruct Hq as ([k v] & <- & Hkv).
      exact (Htie k v Hkv).
  - unfold PoolMonitor.removeDuplicatePools.
    destruct (removeDuplicatePoolsFrom_spec pools []) as (Hnd & Hout & Hall).
    split; [exact Hnd | split].
    + intros q Hq. exact (proj2 (Hout q Hq)).
    + intros p Hp. apply (Hall p Hp). reflexivity.
Qed.

End DedupProperties.


(** ** Exit policy: precedence of the stop-loss trigger *)

Module ExitProperties.
Import PoolEvaluator.

(** C5. When the unrealized P&L percentage is at or below the stop-loss
    threshold and at or above the take-profit threshold at once, the exit
    policy answers with the stop-loss trigger, urgency high: stop-loss is
    the first rule checked. *)
Theorem stop_loss_wins (config : Config.t) (now : Z) (position : Position.t)
    (currentPool : Pool.t) :
  Position.pnlPercentage position <= Config.stopLossPercentage config ->
  Config.takeProfitPercentage config <= Position.pnlPercentage position ->
  evaluatePositionForExit config now position currentPool
  = mkExit true (StopLossTriggered (Position.pnlPercentage position)) high.
Proof.
  intros Hstop _. unfold evaluatePositionForExit.
  apply Qle_bool_iff in Hstop. rewrite Hstop. reflexivity.
Qed.

(** A configuration whose two thresholds overlap: stop-loss at -15%,
    take-profit at -20%. *)
Definition overlappingConfig : Config.t :=
  Config.mk 20 100 1000 5 1000 10 (-15) (-20) 168 10000 10.

Definition losingPosition : Position.t :=
  Position.mk "position_1" "pool_1" 0 1 30 1000 820 30 (-180) (-18)
    active None None None.

Lemma stop_loss_wins_witness :
  evaluatePositionForExit overlappingConfig 3600000 losingPosition
    (GateProperties.samplePool 30 5000 2000)
  = mkExit true (StopLossTriggered (-18)) high.
Proof.
  apply (stop_loss_wins overlappingConfig 3600000 losingPosition
           (GateProperties.samplePool 30 5000 2000)).
  - discriminate.
  - discriminate.
Defined.

End ExitProperties.

(** ** Liquidity balance ratio *)

Module LiquidityProperties.
Import PoolEvaluator.

Definition baseValue (pool : Pool.t) : Q :=
  Token.amount (Pool.baseToken pool) * Pool.price pool.
Definition quoteValue (pool : Pool.t) : Q :=
  Token.amount (Pool.quoteToken pool).

Lemma ratio_zero_total (pool : Pool.t) :
  baseValue pool + quoteValue pool == 0 -> calculateLiquidityRatio pool = 0.
Proof.
  intros H. unfold calculateLiquidityRatio. fold (baseValue pool) (quoteValue pool).
  apply Qeq_bool_iff in H. rewrite H. reflexivity.
Qed.

Lemma ratio_nonzero_total (pool : Pool.t) :
  ~ baseValue pool + quoteValue pool == 0 ->
  calculateLiquidityRatio pool
  = Qmin (baseValue pool) (quoteValue pool)
      / (baseValue pool + quoteValue pool) * 2.
Proof.
  intros H. unfold calculateLiquidityRatio. fold (baseValue pool) (quoteValue pool).
  destruct (Qeq_bool (baseValue pool + quoteValue pool) 0) eqn:E; [|reflexivity].
  apply Qeq_bool_iff in E. contradiction.
Qed.

(** After the gates, a ratio below the minimum leaves its warning. *)
Lemma unbalanced_warning (config : Config.t) (now : Z) (pool : Pool.t)
    (s : Z) (rs : list Reason) (ws : list Warning) :
  Qle_bool MIN_LIQUIDITY_RATIO (calculateLiquidityRatio pool) = false ->
  In (UnbalancedLiquidity (calculateLiquidityRatio pool))
     (warnings (scoreAfterGates config now pool s rs ws)).
Proof.
  intros H. unfold scoreAfterGates. rewrite H.
  destruct (Qle_bool MIN_AGE_HOURS (getPoolAgeHours now pool)
            && Qle_bool (getPoolAgeHours now pool) MAX_AGE_HOURS);
    [| destruct (Qlt_bool (getPoolAgeHours now pool) MIN_AGE_HOURS)];
    destruct (Qlt_bool (Config.minApy config * 2) (Pool.apy pool));
    destruct (Qlt_bool (Config.minVolume24h config * 5) (Pool.volume24h pool));
    destruct (Qlt_bool 100 (Pool.apy pool));
    destruct (Qlt_bool (Pool.tvl pool) (Pool.volume24h pool * (1 # 10)));
    simpl; repeat (rewrite in_app_iff; simpl); tauto.
Qed.

(** C8. The ratio is [2 * min(baseValue, quoteValue) / (baseValue +
    quoteValue)] with [baseValue = baseAmount * price] and [quoteValue =
    quoteAmount]; when the total is zero the function returns 0 without
    dividing, and a zero-liquidity record that passes the three gates is
    still scored, with the unbalanced-liquidity warning at ratio 0. *)
Theorem liquidity_ratio_formula (config : Config.t) (now : Z) (pool : Pool.t) :
  (~ baseValue pool + quoteValue pool == 0 ->
     calculateLiquidityRatio pool
     == 2 * Qmin (baseValue pool) (quoteValue pool)
          / (baseValue pool + quoteValue pool))
  /\ (baseValue pool + quoteValue pool == 0 ->
      calculateLiquidityRatio pool = 0
      /\ (ScoreProperties.passesHardGates config pool ->
          In (UnbalancedLiquidity 0)
             (warnings (evaluatePoolForEntry config now pool)))).
Proof.
  split.
  - intros H. rewrite (ratio_nonzero_total pool H). field. exact H.
  - intros H. pose proof (ratio_zero_total pool H) as Hr.
    split; [exact Hr|].
    intros (Ha & Ht & Hv). unfold evaluatePoolForEntry.
    apply Qle_bool_iff in Ha, Ht, Hv. rewrite Ha, Ht, Hv.
    rewrite <- Hr. apply unbalanced_warning. rewrite Hr. reflexivity.
Qed.

(** A pool with reserves 300 and 100 at price 1 has ratio 1/2; a pool
    with empty reserves that passes the default gates is scored. *)
Definition lopsidedPool : Pool.t :=
  Pool.mk "pool_2" (Token.mk DedupProperties.rayMint "RAY" 6 300)
    (Token.mk DedupProperties.solMint "SOL" 9 100) 5000 2000 0 25 0 1000 1.
Definition emptyPool : Pool.t :=
  Pool.mk "pool_3" (Token.mk DedupProperties.rayMint "RAY" 6 0)
    (Token.mk DedupProperties.solMint "SOL" 9 0) 5000 2000 0 25 0 1000 1.

Lemma liquidity_ratio_formula_witness :
  calculateLiquidityRatio lopsidedPool == 1 # 2
  /\ calculateLiquidityRatio emptyPool = 0
  /\ In (UnbalancedLiquidity 0)
        (warnings (evaluatePoolForEntry DEFAULT_BOT_CONFIG
                     GateProperties.sampleNow emptyPool)).
Proof.
  split; [|split].
  - destruct (liquidity_ratio_formula DEFAULT_BOT_CONFIG GateProperties.sampleNow
                lopsidedPool) as (H & _).
    rewrite H; [reflexivity | discriminate].
  - destruct (liquidity_ratio_formula DEFAULT_BOT_CONFIG GateProperties.sampleNow
                emptyPool) as (_ & H).
    apply H. reflexivity.
  - destruct (liquidity_ratio_formula DEFAULT_BOT_CONFIG GateProperties.sampleNow
                emptyPool) as (_ & H).
    apply H; [reflexivity|].
    unfold ScoreProperties.passesHardGates. repeat split; discriminate.
Defined.

(** Both sides of a pool with non-negative reserves and price are
    non-negative. *)
Lemma baseValue_nonneg (pool : Pool.t) :
  0 <= Token.amount (Pool.baseToken pool) -> 0 <= Pool.price pool ->
  0 <= baseValue pool.
Proof. intros Ha Hp. unfold baseValue. apply Qmult_le_0_compat; assumption. Qed.

(** The ratio against its total, free of division. *)
Lemma ratio_times_total (pool : Pool.t) :
  ~ baseValue pool + quoteValue pool == 0 ->
  calculateLiquidityRatio pool * (baseValue pool + quoteValue pool)
  == 2 * Qmin (baseValue pool) (quoteValue pool).
Proof.
  intros H. rewrite (ratio_nonzero_total pool H). field. exact H.
Qed.

(** C9, as stated, fails on the empty pool: both sides are worth 0, so
    the base-side value equals the quote-side value, and the guard
    returns 0, not 1. *)
Lemma ratio_one_counterexample :
  0 <= Token.amount (Pool.baseToken emptyPool)
  /\ 0 <= Token.amount (Pool.quoteToken emptyPool)
  /\ 0 <= Pool.price emptyPool
  /\ baseValue emptyPool == quoteValue emptyPool
  /\ ~ calculateLiquidityRatio emptyPool == 1.
Proof.
  repeat split; try discriminate.
Qed.

(** C9, amended. For non-negative reserves and price the ratio lies in
    [0, 1], and it equals 1 exactly when the base-side value equals the
    quote-side value and the pool is not empty (total value other than 0);
    for the empty pool the guard returns 0. *)
Theorem liquidity_ratio_range (pool : Pool.t) :
  0 <= Token.amount (Pool.baseToken pool) ->
  0 <= Token.amount (Pool.quoteToken pool) ->
  0 <= Pool.price pool ->
  (0 <= calculateLiquidityRatio pool /\ calculateLiquidityRatio pool <= 1)
  /\ (calculateLiquidityRatio pool == 1
      <-> baseValue pool == quoteValue pool
          /\ ~ baseValue pool + quoteValue pool == 0).
Proof.
  intros Hb Hq Hp.
  pose proof (baseValue_nonneg pool Hb Hp) as Hbv.
  fold (quoteValue pool) in Hq.
  destruct (Qeq_dec (baseValue pool + quoteValue pool) 0) as [Hz|Hnz].
  - rewrite (ratio_zero_total pool Hz). split.
    + split; [apply Qle_refl | discriminate].
    + split; [discriminate | tauto].
  - pose proof (ratio_times_total pool Hnz) as Hrt.
    set (r := calculateLiquidityRatio pool) in *.
    set (b := baseValue pool) in *. set (q := quoteValue pool) in *.
    assert (Ht : 0 < b + q).
    { destruct (Qlt_le_dec 0 (b + q)) as [H|H]; [exact H|].
      exfalso. apply Hnz. lra. }
    destruct (Q.min_spec b q) as [(Hlt & Hm)|(Hle & Hm)]; rewrite Hm in Hrt.
    + split; [split|split].
      * destruct (Qlt_le_dec r 0) as [H|H]; [|exact H]. exfalso. nra.
      * destruct (Qlt_le_dec 1 r) as [H|H]; [|exact H]. exfalso. nra.
      * intros H1. exfalso. rewrite H1 in Hrt. lra.
      * intros (Heq & _). exfalso. lra.
    + split; [split|split].
      * destruct (Qlt_le_dec r 0) as [H|H]; [|exact H]. exfalso. nra.
      * destruct (Qlt_le_dec 1 r) as [H|H]; [|exact H]. exfalso. nra.
      * intros H1. rewrite H1 in Hrt. split; [lra | exact Hnz].
      * intros (Heq & _).
        assert (Hr1 : (r - 1) * (b + q) == 0) by lra.
        apply Qmult_integral in Hr1. destruct Hr1 as [Hr1|Hr1]; [lra | contradiction].
Qed.

(** The balanced sample pool has ratio 1, the lopsided one 1/2. *)
Lemma liquidity_ratio_range_witness :
  (0 <= calculateLiquidityRatio lopsidedPool
   /\ calculateLiquidityRatio lopsidedPool <= 1)
  /\ calculateLiquidityRatio (GateProperties.samplePool 25 5000 2000) == 1.
Proof.
  split.
  - apply (liquidity_ratio_range lopsidedPool); discriminate.
  - apply (liquidity_ratio_range (GateProperties.samplePool 25 5000 2000));
      try discriminate.
    split; [reflexivity | discriminate].
Defined.

End LiquidityProperties.

(** ** Portfolio ledger: entry *)

Module EntryProperties.
Import PortfolioManager.

(** [Math.min] picks its first argument when it is the smaller one. *)
Lemma Qmin_left (a b : Q) : a <= b -> Qmin a b = a.
Proof.
  intros H. unfold Qmin, GenericMinMax.gmin.
  destruct (a ?= b) eqn:E; try reflexivity.
  apply Qgt_alt in E. exfalso. apply (Qlt_not_le _ _ E H).
Qed.

(** What a successful [enterPosition] returns and leaves behind. *)
Lemma enterPosition_success (config : Config.t) (uuid : string) (now : Z)
    (pool : Pool.t) (st st' : State) (position : Position.t) :
  enterPosition config uuid now pool st = (Some position, st') ->
  canEnterNewPosition config st = true
  /\ hasPositionInPool st (Pool.poolId pool) = false
  /\ position
     = Position.mk uuid (Pool.poolId pool) now (Pool.price pool) (Pool.apy pool)
         (Config.positionSize config) (Config.positionSize config)
         (Pool.apy pool) 0 0 active None None None
  /\ Portfolio.activePositions (portfolio st')
     = Portfolio.activePositions (portfolio st) ++ [position]
  /\ Portfolio.closedPositions (portfolio st')
     = Portfolio.closedPositions (portfolio st)
  /\ Portfolio.totalInvested (portfolio st')
     = Portfolio.totalInvested (portfolio st) + Config.positionSize config
  /\ Portfolio.availableCash (portfolio st')
     = Portfolio.availableCash (portfolio st) - Config.positionSize config.
Proof.
  unfold enterPosition.
  destruct (canEnterNewPosition config st) eqn:Hcan; simpl; [|discriminate].
  destruct (hasPositionInPool st (Pool.poolId pool)) eqn:Hhas; [discriminate|].
  assert (Hmin : Qmin (Config.positionSize config)
                      (Portfolio.availableCash (portfolio st))
                 = Config.positionSize config).
  { apply Qmin_left. unfold canEnterNewPosition in Hcan.
    apply andb_true_iff in Hcan. destruct Hcan as (Hcan & _).
    apply andb_true_iff in Hcan. destruct Hcan as (_ & Hcash).
    apply Qle_bool_iff. exact Hcash. }
  rewrite Hmin. intros [= <- <-]. simpl. repeat split; reflexivity.
Qed.

(** C10. Whenever [enterPosition] returns a position, its amount is the
    configured position size: the cash check of [canEnterNewPosition] has
    already established [availableCash >= positionSize], so the minimum
    is the position size. *)
Theorem entered_amount_is_position_size (config : Config.t) (uuid : string)
    (now : Z) (pool : Pool.t) (st st' : State) (position : Position.t) :
  enterPosition config uuid now pool st = (Some position, st') ->
  Position.amount position = Config.positionSize config
  /\ Qmin (Config.positionSize config) (Portfolio.availableCash (portfolio st))
     = Config.positionSize config
  /\ Config.positionSize config <= Portfolio.availableCash (portfolio st).
Proof.
  intros H. apply enterPosition_success in H.
  destruct H as (Hcan & _ & Hpos & _).
  assert (Hcash : Config.positionSize config
                  <= Portfolio.availableCash (portfolio st)).
  { unfold canEnterNewPosition in Hcan.
    apply andb_true_iff in Hcan. destruct Hcan as (Hcan & _).
    apply andb_true_iff in Hcan. destruct Hcan as (_ & Hcash).
    apply Qle_bool_iff. exact Hcash. }
  split; [rewrite Hpos; reflexivity | split; [apply Qmin_left; exact Hcash | exact Hcash]].
Qed.

Definition poolA : Pool.t := GateProperties.samplePool 20 75000 25000.
Definition poolB : Pool.t :=
  Pool.mk "pool_2" GateProperties.usdc GateProperties.wsol 60000 9000 0 35 0 1000 2.

(** A fresh manager with $1,500: the first entry allocates the full
    $1,000 position size although less than two sizes of cash exist. *)
Lemma entered_amount_is_position_size_witness :
  exists position st',
    enterPosition DEFAULT_BOT_CONFIG "id-1" 0 poolA (init DEFAULT_BOT_CONFIG 1500)
    = (Some position, st')
    /\ Position.amount position = 1000.
Proof.
  eexists. eexists. split.
  - reflexivity.
  - apply (entered_amount_is_position_size DEFAULT_BOT_CONFIG "id-1" 0 poolA
             (init DEFAULT_BOT_CONFIG 1500) _ _ eq_refl).
Defined.

(** The number of active positions that target a pool id. *)
Definition activeInPool (st : State) (poolId : string) : nat :=
  List.length (filter (fun p => String.eqb (Position.poolId p) poolId)
                 (Portfolio.activePositions (portfolio st))).

Lemma hasPositionInPool_false_count (st : State) (poolId : string) :
  hasPositionInPool st poolId = false -> activeInPool st poolId = 0%nat.
Proof.
  unfold hasPositionInPool, activeInPool.
  induction (Portfolio.activePositions (portfolio st)) as [|p l IH]; simpl.
  - reflexivity.
  - destruct (String.eqb (Position.poolId p) poolId); simpl; [discriminate | exact IH].
Qed.

(** A precondition of [enterPosition] is violated. *)
Definition preconditionViolated (config : Config.t) (pool : Pool.t) (st : State)
    : Prop :=
  Config.maxPositions config <= lengthQ (Portfolio.activePositions (portfolio st))
  \/ Portfolio.availableCash (portfolio st) < Config.positionSize config
  \/ Config.maxTotalInvestment config <= Portfolio.totalInvested (portfolio st)
  \/ (exists p, In p (Portfolio.activePositions (portfolio st))
                /\ Position.poolId p = Pool.poolId pool).

Lemma violated_rejects (config : Config.t) (uuid : string) (now : Z)
    (pool : Pool.t) (st : State) :
  preconditionViolated config pool st ->
  enterPosition config uuid now pool st = (None, st).
Proof.
  intros H. unfold enterPosition.
  destruct (canEnterNewPosition config st) eqn:Hcan; simpl; [|reflexivity].
  destruct (hasPositionInPool st (Pool.poolId pool)) eqn:Hhas; [reflexivity|].
  exfalso. unfold canEnterNewPosition in Hcan.
  apply andb_true_iff in Hcan. destruct Hcan as (Hcan & Htotal).
  apply andb_true_iff in Hcan. destruct Hcan as (Hcount & Hcash).
  apply Qlt_bool_iff in Hcount, Htotal. apply Qle_bool_iff in Hcash.
  destruct H as [H|[H|[H|(p & Hin & Hp)]]].
  - apply (Qlt_not_le _ _ Hcount H).
  - apply (Qlt_not_le _ _ H Hcash).
  - apply (Qlt_not_le _ _ Htotal H).
  - unfold hasPositionInPool in Hhas.
    assert (Hex : existsb (fun p0 => String.eqb (Position.poolId p0) (Pool.poolId pool))
                    (Portfolio.activePositions (portfolio st)) = true).
    { apply existsb_exists. exists p. split; [exact Hin|].
      apply String.eqb_eq. exact Hp. }
    congruence.
Qed.

(** C7. When a precondition of [enterPosition] is violated (active count
    at the maximum, cash below the position size, total invested at or
    above the maximum investment, or an active position on the same pool
    id) the call returns null and the manager's state, audit log
    included, is the one before the call. When a call for a pool returns
    a position, the next call for the same pool is rejected, whatever the
    identifier and the clock, and exactly one active position targets the
    pool. *)
Theorem enterPosition_rejects (config : Config.t) (uuid : string) (now : Z)
    (pool : Pool.t) (st : State) :
  (preconditionViolated config pool st ->
     enterPosition config uuid now pool st = (None, st))
  /\ (forall (position : Position.t) (st1 : State) (uuid' : string) (now' : Z),
        enterPosition config uuid now pool st = (Some position, st1) ->
        enterPosition config uuid' now' pool st1 = (None, st1)
        /\ activeInPool st1 (Pool.poolId pool) = 1%nat).
Proof.
  split; [apply violated_rejects|].
  intros position st1 uuid' now' H.
  apply enterPosition_success in H.
  destruct H as (_ & Hhas & Hpos & Hact & _).
  assert (Hpid : Position.poolId position = Pool.poolId pool)
    by (rewrite Hpos; reflexivity).
  split.
  - apply violated_rejects. right. right. right.
    exists position. split; [|exact Hpid].
    rewrite Hact. apply in_or_app. right. left. reflexivity.
  - apply hasPositionInPool_false_count in Hhas.
    unfold activeInPool in *. rewrite Hact, filter_app, length_app, Hhas.
    simpl. rewrite Hpid, String.eqb_refl. reflexivity.
Qed.

(** From a fresh manager with the default configuration: the first call
    for a pool enters, the second is rejected and changes nothing, and a
    manager with $500 of cash rejects the first call. *)
Lemma enterPosition_rejects_witness :
  (exists position st1,
      enterPosition DEFAULT_BOT_CONFIG "id-1" 0 poolA (init DEFAULT_BOT_CONFIG 10000)
      = (Some position, st1)
      /\ enterPosition DEFAULT_BOT_CONFIG "id-2" 60000 poolA st1 = (None, st1)
      /\ activeInPool st1 (Pool.poolId poolA) = 1%nat)
  /\ enterPosition DEFAULT_BOT_CONFIG "id-1" 0 poolA (init DEFAULT_BOT_CONFIG 500)
     = (None, init DEFAULT_BOT_CONFIG 500).
Proof.
  split.
  - eexists. eexists. split; [reflexivity|].
    exact (proj2 (enterPosition_rejects DEFAULT_BOT_CONFIG "id-1" 0 poolA
                    (init DEFAULT_BOT_CONFIG 10000))
             _ _ "id-2"%string 60000%Z eq_refl).
  - apply (enterPosition_rejects DEFAULT_BOT_CONFIG "id-1" 0 poolA
             (init DEFAULT_BOT_CONFIG 500)).
    right. left. reflexivity.
Defined.

End EntryProperties.

(** ** Portfolio ledger: exit *)

Module ExitValueProperties.
Import PortfolioManager.

Lemma findIndex_Some {A : Type} (f : A -> bool) (l : list A) (i : nat) :
  findIndex f l = Some i -> exists x, nth_error l i = Some x /\ f x = true.
Proof.
  revert i. induction l as [|y l IH]; simpl; intros i; [discriminate|].
  destruct (f y) eqn:E.
  - intros [= <-]. exists y. split; [reflexivity | exact E].
  - destruct (findIndex f l) as [j|]; [|discriminate].
    intros [= <-]. simpl. apply IH. reflexivity.
Qed.

(** C6. When the active list holds a position under the given id,
    [exitPosition] succeeds and closes it at [amount + apyAccrual +
    priceDelta], with [apyAccrual = (entryYield/100/365/24) * hoursHeld *
    amount] and [priceDelta = ((currentPrice - entryPrice) / entryPrice) *
    amount]; P&L is that value less the amount, and its percentage is P&L
    over the amount, times 100. The closed record is appended to the
    closed list and removed from the active one, cash is credited with
    the final value and total invested debited by the amount. *)
Theorem exitPosition_value (positionId : string) (now : Z) (currentPool : Pool.t)
    (reason : string) (st : State) (i : nat) :
  findIndex (fun p => String.eqb (Position.id p) positionId)
            (Portfolio.activePositions (portfolio st)) = Some i ->
  exists (position closed : Position.t) (st' : State),
    nth_error (Portfolio.activePositions (portfolio st)) i = Some position
    /\ Position.id position = positionId
    /\ exitPosition positionId now currentPool reason st = (true, st')
    /\ (let hoursHeld := hoursOfMs (now - Position.entryTime position) in
        let apyAccrual :=
          (Position.entryApy position / 100 / 365 / 24) * hoursHeld
            * Position.amount position in
        let priceDelta :=
          ((Pool.price currentPool - Position.entryPrice position)
             / Position.entryPrice position) * Position.amount position in
        Position.currentValue closed
        = Position.amount position + apyAccrual + priceDelta)
    /\ Position.pnl closed = Position.currentValue closed - Position.amount position
    /\ Position.pnlPercentage closed
       = (Position.pnl closed / Position.amount position) * 100
    /\ Position.status closed = exited
    /\ Position.amount closed = Position.amount position
    /\ Portfolio.closedPositions (portfolio st')
       = Portfolio.closedPositions (portfolio st) ++ [closed]
    /\ Portfolio.activePositions (portfolio st')
       = removeAt i (Portfolio.activePositions (portfolio st))
    /\ Portfolio.availableCash (portfolio st')
       = Portfolio.availableCash (portfolio st) + Position.currentValue closed
    /\ Portfolio.totalInvested (portfolio st')
       = Portfolio.totalInvested (portfolio st) - Position.amount position.
Proof.
  intros Hfind. destruct (findIndex_Some _ _ _ Hfind) as (position & Hnth & Hid).
  apply String.eqb_eq in Hid.
  exists position, (closePosition now position currentPool reason).
  unfold exitPosition. rewrite Hfind, Hnth.
  eexists. repeat split; try reflexivity; assumption.
Qed.

(** The pool of the scenario at entry: yield 20%, price 1.0. *)
Definition entryPool : Pool.t := GateProperties.samplePool 20 75000 25000.
(** The same pool a day later, quoted at 1.2. *)
Definition exitPool : Pool.t :=
  Pool.mk "pool_1" GateProperties.usdc GateProperties.wsol 75000 25000 0 20 0 1000
    (12 # 10).

Definition afterEntry : State :=
  snd (enterPosition DEFAULT_BOT_CONFIG "id-1" 0 entryPool
         (init DEFAULT_BOT_CONFIG 10000)).

(** The scenario of the specification: a $1,000 position entered at yield
    20% and price 1.0, exited 24 hours later at price 1.2, closes at
    1000 + 1000 * 20/100/365 + 200 = 87640/73 (about 1200.55), a P&L of
    1464/73 percent (about 20.05%). *)
Lemma exitPosition_value_witness :
  exists (closed : Position.t) (st' : State),
    exitPosition "id-1" 86400000 exitPool "Take profit triggered" afterEntry
    = (true, st')
    /\ Portfolio.closedPositions (portfolio st') = [closed]
    /\ Position.currentValue closed == 87640 # 73
    /\ Position.pnlPercentage closed == 1464 # 73
    /\ Portfolio.availableCash (portfolio st') == 9000 + (87640 # 73).
Proof.
  destruct (exitPosition_value "id-1" 86400000 exitPool "Take profit triggered"
              afterEntry 0 eq_refl)
    as (position & closed & st' & Hnth & _ & Hexit & Hval & Hpnl & Hpct & _ & _
        & Hclosed & _ & Hcash & _).
  injection Hnth as <-.
  exists closed, st'. split; [exact Hexit|].
  split; [exact Hclosed|].
  rewrite Hcash, Hpct, Hpnl, Hval.
  split; [reflexivity | split; reflexivity].
Defined.

End ExitValueProperties.

(** ** Portfolio ledger: position and investment limits *)

Module LimitProperties.
Import PortfolioManager.

(** The default configuration with the investment cap lowered to $1,500:
    one and a half position sizes. *)
Definition tightConfig : Config.t :=
  Config.mk 20 100 1000 5 1000 10 (-15) 25 168 1500 10.

(** C4 at a failing input. With position size $1,000 and maximum total
    investment $1,500, two entries on a fresh manager with $10,000 both
    pass [canEnterNewPosition] (total invested 0 and 1,000, each below
    1,500) and leave $2,000 invested: above the configured maximum. *)
Lemma total_invested_exceeds_maximum :
  let st := run tightConfig 10000
              [Enter "id-1" 0 EntryProperties.poolA;
               Enter "id-2" 60000 EntryProperties.poolB] in
  List.length (Portfolio.activePositions (portfolio st)) = 2%nat
  /\ Portfolio.totalInvested (portfolio st) == 2000
  /\ Config.maxTotalInvestment tightConfig < Portfolio.totalInvested (portfolio st).
Proof.
  cbv zeta. split; [reflexivity | split; reflexivity].
Qed.

Lemma lengthQ_snoc {A : Type} (l : list A) (x : A) :
  lengthQ (l ++ [x]) == lengthQ l + 1.
Proof.
  unfold lengthQ. rewrite length_app. simpl.
  rewrite Nat2Z.inj_add, inject_Z_plus. reflexivity.
Qed.

Lemma removeAt_length {A : Type} (l : list A) (i : nat) (x : A) :
  nth_error l i = Some x -> S (List.length (removeAt i l)) = List.length l.
Proof.
  revert i. induction l as [|y l IH]; intros [|i]; simpl; try discriminate.
  - reflexivity.
  - intros H. rewrite (IH i H). reflexivity.
Qed.

Lemma lengthQ_removeAt {A : Type} (l : list A) (i : nat) (x : A) :
  nth_error l i = Some x -> lengthQ (removeAt i l) == lengthQ l - 1.
Proof.
  intros H. unfold lengthQ. rewrite <- (removeAt_length l i x H).
  rewrite Nat2Z.inj_succ, <- Z.add_1_r, inject_Z_plus. simpl. ring.
Qed.

Lemma Forall_removeAt {A : Type} (P : A -> Prop) (l : list A) (i : nat) :
  Forall P l -> Forall P (removeAt i l).
Proof.
  intros H. revert i. induction H as [|y l Hy Hl IH]; intros [|i]; simpl;
    try constructor; auto.
Qed.

(** What the active list of every reachable state satisfies: it is empty,
    or its last entry was admitted by the count check of
    [canEnterNewPosition]. *)
Definition countInvariant (config : Config.t) (st : State) : Prop :=
  Portfolio.activePositions (portfolio st) = []
  \/ lengthQ (Portfolio.activePositions (portfolio st)) - 1
     < Config.maxPositions config.

Lemma countInvariant_step (config : Config.t) (st : State) (op : Op) :
  countInvariant config st -> countInvariant config (step config st op).
Proof.
  unfold countInvariant. intros Hinv.
  destruct op as [uuid now pool|positionId now pool reason|positionId now pool];
    simpl.
  - unfold enterPosition.
    destruct (canEnterNewPosition config st) eqn:Hcan; simpl; [|exact Hinv].
    destruct (hasPositionInPool st (Pool.poolId pool)); [exact Hinv|].
    simpl. right. rewrite lengthQ_snoc.
    unfold canEnterNewPosition in Hcan.
    apply andb_true_iff in Hcan. destruct Hcan as (Hcan & _).
    apply andb_true_iff in Hcan. destruct Hcan as (Hcount & _).
    apply Qlt_bool_iff in Hcount. lra.
  - unfold exitPosition.
    destruct (findIndex _ (Portfolio.activePositions (portfolio st))) as [i|];
      [|exact Hinv].
    destruct (nth_error (Portfolio.activePositions (portfolio st)) i)
      as [position|] eqn:Hnth; [|exact Hinv].
    simpl. right. rewrite (lengthQ_removeAt _ _ _ Hnth).
    destruct Hinv as [Hnil|Hcount].
    + rewrite Hnil in Hnth. destruct i; discriminate.
    + lra.
  - destruct Hinv as [Hnil|Hcount].
    + left. rewrite Hnil. reflexivity.
    + right. unfold lengthQ, updateIn in *. rewrite length_map. exact Hcount.
Qed.

Lemma countInvariant_steps (config : Config.t) (ops : list Op) :
  forall st, countInvariant config st ->
             countInvariant config (fold_left (step config) ops st).
Proof.
  induction ops as [|op ops IH]; intros st Hinv; simpl.
  - exact Hinv.
  - apply IH. apply countInvariant_step. exact Hinv.
Qed.

(** A strict bound by one more than a whole number is a bound by it. *)
Lemma lengthQ_lt_succ {A : Type} (l : list A) (n : nat) :
  lengthQ l - 1 < inject_Z (Z.of_nat n) -> (List.length l <= n)%nat.
Proof.
  unfold lengthQ. intros H.
  assert (H1 : inject_Z (Z.of_nat (List.length l)) < inject_Z (Z.of_nat n + 1)).
  { rewrite inject_Z_plus. change (inject_Z 1) with 1. lra. }
  rewrite <- Zlt_Qlt in H1. lia.
Qed.

(** X1. The position limit holds in every state reached from a fresh
    manager by [enterPosition], [exitPosition] and [updatePosition]
    calls: when the configured maximum of concurrent positions is a whole
    number, the active position count never exceeds it. The bound rests
    on the count check of [canEnterNewPosition] alone, whatever the cash
    and investment checks decide. *)
Theorem active_count_bounded (config : Config.t) (initialCash : Q)
    (ops : list Op) (n : nat) :
  Config.maxPositions config == inject_Z (Z.of_nat n) ->
  (List.length (Portfolio.activePositions (portfolio (run config initialCash ops)))
   <= n)%nat.
Proof.
  intros Hmax. unfold run.
  assert (Hinit : countInvariant config (init config initialCash))
    by (left; reflexivity).
  destruct (countInvariant_steps config ops _ Hinit) as [Hnil|Hcount].
  - rewrite Hnil. simpl. lia.
  - apply lengthQ_lt_succ. rewrite <- Hmax. exact Hcount.
Qed.

(** With one position allowed, the second of two entries into different
    pools is refused. *)
Definition singleConfig : Config.t :=
  Config.mk 20 100 1000 1 1000 10 (-15) 25 168 10000 10.

Lemma active_count_bounded_witness :
  List.length
    (Portfolio.activePositions
       (portfolio (run singleConfig 10000
                     [Enter "id-1" 0 EntryProperties.poolA;
                      Enter "id-2" 60000 EntryProperties.poolB])))
  = 1%nat.
Proof.
  apply Nat.le_antisymm.
  - apply (active_count_bounded singleConfig 10000
             [Enter "id-1" 0 EntryProperties.poolA;
              Enter "id-2" 60000 EntryProperties.poolB] 1).
    reflexivity.
  - apply Nat.le_refl.
Defined.

End LimitProperties.

(** * Further code of the cited files *)

(** ** Risk score ([poolEvaluator], [calculateRiskScore]) *)

Module RiskAssessment.
Import PoolEvaluator.

(** [calculateRiskScore]: 0 to 100, higher is riskier. *)
Definition calculateRiskScore (now : Z) (pool : Pool.t) : Z :=
  let riskScore := 0%Z in
  (* Age risk *)
  let ageHours := getPoolAgeHours now pool in
  let riskScore :=
    if Qlt_bool ageHours 1 then (riskScore + 30)%Z
    else if Qlt_bool ageHours 24 then (riskScore + 20)%Z
    else if Qlt_bool 168 ageHours then (riskScore + 10)%Z
    else riskScore in
  (* APY risk *)
  let riskScore :=
    if Qlt_bool 100 (Pool.apy pool) then (riskScore + 25)%Z
    else if Qlt_bool 50 (Pool.apy pool) then (riskScore + 15)%Z
    else if Qlt_bool 30 (Pool.apy pool) then (riskScore + 5)%Z
    else riskScore in
  (* Liquidity risk *)
  let liquidityRatio := calculateLiquidityRatio pool in
  let riskScore :=
    if Qlt_bool liquidityRatio (3 # 10) then (riskScore + 20)%Z
    else if Qlt_bool liquidityRatio (1 # 2) then (riskScore + 10)%Z
    else riskScore in
  (* Volume to TVL ratio risk *)
  let volumeToTvlRatio := Pool.volume24h pool / Pool.tvl pool in
  let riskScore :=
    if Qlt_bool 2 volumeToTvlRatio then (riskScore + 15)%Z
    else if Qlt_bool 1 volumeToTvlRatio then (riskScore + 5)%Z
    else riskScore in
  Z.min 100 riskScore.

(** The four components of the risk score. *)
Definition ageRisk (now : Z) (pool : Pool.t) : Z :=
  let ageHours := getPoolAgeHours now pool in
  if Qlt_bool ageHours 1 then 30
  else if Qlt_bool ageHours 24 then 20
  else if Qlt_bool 168 ageHours then 10 else 0.
Definition apyRisk (pool : Pool.t) : Z :=
  if Qlt_bool 100 (Pool.apy pool) then 25
  else if Qlt_bool 50 (Pool.apy pool) then 15
  else if Qlt_bool 30 (Pool.apy pool) then 5 else 0.
Definition liquidityRisk (pool : Pool.t) : Z :=
  if Qlt_bool (calculateLiquidityRatio pool) (3 # 10) then 20
  else if Qlt_bool (calculateLiquidityRatio pool) (1 # 2) then 10 else 0.
Definition turnoverRisk (pool : Pool.t) : Z :=
  if Qlt_bool 2 (Pool.volume24h pool / Pool.tvl pool) then 15
  else if Qlt_bool 1 (Pool.volume24h pool / Pool.tvl pool) then 5 else 0.

Lemma calculateRiskScore_sum (now : Z) (pool : Pool.t) :
  calculateRiskScore now pool
  = Z.min 100 (ageRisk now pool + apyRisk pool + liquidityRisk pool
               + turnoverRisk pool).
Proof.
  unfold calculateRiskScore, ageRisk, apyRisk, liquidityRisk, turnoverRisk.
  f_equal.
  destruct (Qlt_bool (getPoolAgeHours now pool) 1);
    [| destruct (Qlt_bool (getPoolAgeHours now pool) 24);
       [| destruct (Qlt_bool 168 (getPoolAgeHours now pool))]];
    (destruct (Qlt_bool 100 (Pool.apy pool));
     [| destruct (Qlt_bool 50 (Pool.apy pool));
        [| destruct (Qlt_bool 30 (Pool.apy pool))]]);
    (destruct (Qlt_bool (calculateLiquidityRatio pool) (3 # 10));
     [| destruct (Qlt_bool (calculateLiquidityRatio pool) (1 # 2))]);
    (destruct (Qlt_bool 2 (Pool.volume24h pool / Pool.tvl pool));
     [| destruct (Qlt_bool 1 (Pool.volume24h pool / Pool.tvl pool))]);
    reflexivity.
Qed.

(** X2. The risk score of every pool lies between 0 and 90: the four
    components add up to at most 30 + 25 + 20 + 15, so the cap at 100 of
    [calculateRiskScore] never cuts anything off. A pool younger than an
    hour with yield above 100% scores at least 55. *)
Theorem risk_score_bounds (now : Z) (pool : Pool.t) :
  (0 <= calculateRiskScore now pool <= 90)%Z
  /\ calculateRiskScore now pool
     = (ageRisk now pool + apyRisk pool + liquidityRisk pool + turnoverRisk pool)%Z
  /\ (getPoolAgeHours now pool < 1 -> 100 < Pool.apy pool ->
      (55 <= calculateRiskScore now pool)%Z).
Proof.
  rewrite calculateRiskScore_sum.
  assert (Ha : (0 <= ageRisk now pool <= 30)%Z).
  { unfold ageRisk.
    destruct (Qlt_bool (getPoolAgeHours now pool) 1);
      [| destruct (Qlt_bool (getPoolAgeHours now pool) 24);
         [| destruct (Qlt_bool 168 (getPoolAgeHours now pool))]]; lia. }
  assert (Hy : (0 <= apyRisk pool <= 25)%Z).
  { unfold apyRisk.
    destruct (Qlt_bool 100 (Pool.apy pool));
      [| destruct (Qlt_bool 50 (Pool.apy pool));
         [| destruct (Qlt_bool 30 (Pool.apy pool))]]; lia. }
  assert (Hl : (0 <= liquidityRisk pool <= 20)%Z).
  { unfold liquidityRisk.
    destruct (Qlt_bool (calculateLiquidityRatio pool) (3 # 10));
      [| destruct (Qlt_bool (calculateLiquidityRatio pool) (1 # 2))]; lia. }
  assert (Ht : (0 <= turnoverRisk pool <= 15)%Z).
  { unfold turnoverRisk.
    destruct (Qlt_bool 2 (Pool.volume24h pool / Pool.tvl pool));
      [| destruct (Qlt_bool 1 (Pool.volume24h pool / Pool.tvl pool))]; lia. }
  split; [lia | split; [lia|]].
  intros Hage Hapy.
  apply Qlt_bool_iff in Hage, Hapy.
  unfold ageRisk, apyRisk in *. rewrite Hage, Hapy in *. lia.
Qed.

Lemma risk_score_bounds_witness :
  (55 <= calculateRiskScore 1800000 (GateProperties.samplePool 250 5000 2000))%Z.
Proof.
  apply (risk_score_bounds 1800000 (GateProperties.samplePool 250 5000 2000));
    reflexivity.
Defined.

End RiskAssessment.

(** ** Entry decision of the configured evaluator *)

Module EntryDecisionProperties.
Import PoolEvaluator.

Lemma shouldEnter_scoreAfterGates (config : Config.t) (now : Z) (pool : Pool.t)
    (s : Z) (rs : list Reason) (ws : list Warning) :
  shouldEnter (scoreAfterGates config now pool s rs ws)
  = (70 <=? score (scoreAfterGates config now pool s rs ws))%Z.
Proof.
  unfold scoreAfterGates.
  destruct (Qle_bool MIN_AGE_HOURS (getPoolAgeHours now pool)
            && Qle_bool (getPoolAgeHours now pool) MAX_AGE_HOURS);
    [| destruct (Qlt_bool (getPoolAgeHours now pool) MIN_AGE_HOURS)];
    destruct (Qle_bool MIN_LIQUIDITY_RATIO (calculateLiquidityRatio pool));
    destruct (Qlt_bool (Config.minApy config * 2) (Pool.apy pool));
    destruct (Qlt_bool (Config.minVolume24h config * 5) (Pool.volume24h pool));
    destruct (Qlt_bool 100 (Pool.apy pool));
    destruct (Qlt_bool (Pool.tvl pool) (Pool.volume24h pool * (1 # 10)));
    reflexivity.
Qed.

Lemma agePoints_range (now : Z) (pool : Pool.t) :
  (5 <= ScoreProperties.agePoints now pool <= 15)%Z.
Proof.
  unfold ScoreProperties.agePoints.
  destruct (Qle_bool MIN_AGE_HOURS (getPoolAgeHours now pool)
            && Qle_bool (getPoolAgeHours now pool) MAX_AGE_HOURS); lia.
Qed.

Lemma liquidityPoints_range (pool : Pool.t) :
  (3 <= ScoreProperties.liquidityPoints pool <= 10)%Z.
Proof.
  unfold ScoreProperties.liquidityPoints.
  destruct (Qle_bool MIN_LIQUIDITY_RATIO (calculateLiquidityRatio pool)); lia.
Qed.

Lemma metricPoints_range (config : Config.t) (apy tvl vol : Q) :
  (-30 <= ScoreProperties.metricPoints config apy tvl vol <= 15)%Z.
Proof.
  unfold ScoreProperties.metricPoints.
  destruct (Qlt_bool (Config.minApy config * 2) apy);
    destruct (Qlt_bool (Config.minVolume24h config * 5) vol);
    destruct (Qlt_bool 100 apy);
    destruct (Qlt_bool tvl (vol * (1 # 10))); lia.
Qed.

(** The evaluator's answer when the gates pass, and when they do not. *)
Lemma evaluate_cases (config : Config.t) (now : Z) (pool : Pool.t) :
  (ScoreProperties.passesHardGates config pool
   /\ evaluatePoolForEntry config now pool
      = scoreAfterGates config now pool 65
          [ApyMeets (Pool.apy pool) (Config.minApy config);
           TvlMeets (Pool.tvl pool) (Config.minTvl config);
           VolumeMeets (Pool.volume24h pool) (Config.minVolume24h config)] [])
  \/ (~ ScoreProperties.passesHardGates config pool
      /\ shouldEnter (evaluatePoolForEntry config now pool) = false
      /\ (0 <= score (evaluatePoolForEntry config now pool) <= 45)%Z
      /\ warnings (evaluatePoolForEntry config now pool) = []).
Proof.
  unfold evaluatePoolForEntry, ScoreProperties.passesHardGates.
  destruct (Qle_bool (Config.minApy config) (Pool.apy pool)) eqn:Ea;
    [destruct (Qle_bool (Config.minTvl config) (Pool.tvl pool)) eqn:Et;
     [destruct (Qle_bool (Config.minVolume24h config) (Pool.volume24h pool)) eqn:Ev|]|].
  - left. apply Qle_bool_iff in Ea, Et, Ev. repeat split; assumption.
  - right. apply Qle_bool_false_iff in Ev. simpl.
    repeat split; try lia. intros (_ & _ & H). apply (Qlt_not_le _ _ Ev H).
  - right. apply Qle_bool_false_iff in Et. simpl.
    repeat split; try lia. intros (_ & H & _). apply (Qlt_not_le _ _ Et H).
  - right. apply Qle_bool_false_iff in Ea. simpl.
    repeat split; try lia. intros (H & _). apply (Qlt_not_le _ _ Ea H).
Qed.

(** X3. The configured evaluator recommends entry exactly when the pool
    passes the three hard gates and its score reaches 70. The score of any
    pool lies between 0 and 105 (it can exceed the 100 it is printed
    against, and the red-flag penalties never make it negative); a pool
    that passes the gates scores at least 43. *)
Theorem entry_decision (config : Config.t) (now : Z) (pool : Pool.t) :
  (shouldEnter (evaluatePoolForEntry config now pool) = true
   <-> ScoreProperties.passesHardGates config pool
       /\ (70 <= score (evaluatePoolForEntry config now pool))%Z)
  /\ (0 <= score (evaluatePoolForEntry config now pool) <= 105)%Z
  /\ (ScoreProperties.passesHardGates config pool ->
      (43 <= score (evaluatePoolForEntry config now pool))%Z).
Proof.
  pose proof (agePoints_range now pool) as Hage.
  pose proof (liquidityPoints_range pool) as Hliq.
  pose proof (metricPoints_range config (Pool.apy pool) (Pool.tvl pool)
                (Pool.volume24h pool)) as Hmet.
  destruct (evaluate_cases config now pool) as [(Hpass & Heq)|(Hfail & Hno & Hs & _)].
  - pose proof (ScoreProperties.score_passing config now pool Hpass) as Hscore.
    rewrite Heq in *. rewrite shouldEnter_scoreAfterGates.
    split; [|split; [lia | intros _; lia]].
    rewrite Z.leb_le. tauto.
  - rewrite Hno. split; [|split; [lia | tauto]].
    split; [discriminate | tauto].
Qed.

Lemma entry_decision_witness :
  shouldEnter (evaluatePoolForEntry GateProperties.demoConfig GateProperties.sampleNow
                 (GateProperties.samplePool (185 # 10) 75000 25000)) = true.
Proof.
  apply (entry_decision GateProperties.demoConfig GateProperties.sampleNow
           (GateProperties.samplePool (185 # 10) 75000 25000)).
  split; [|discriminate].
  unfold ScoreProperties.passesHardGates. repeat split; discriminate.
Defined.

(** X4. A pool that passes the three gates and raises neither red flag
    (yield at most 100%, TVL at least a tenth of the 24h volume) is always
    recommended for entry, whatever its age and its liquidity balance: the
    age and balance warnings cost points but cannot bring the score under
    73. *)
Theorem unflagged_pool_enters (config : Config.t) (now : Z) (pool : Pool.t) :
  ScoreProperties.passesHardGates config pool ->
  Pool.apy pool <= 100 ->
  Pool.volume24h pool * (1 # 10) <= Pool.tvl pool ->
  shouldEnter (evaluatePoolForEntry config now pool) = true
  /\ (73 <= score (evaluatePoolForEntry config now pool))%Z.
Proof.
  intros Hpass Hapy Htvl.
  pose proof (agePoints_range now pool) as Hage.
  pose proof (liquidityPoints_range pool) as Hliq.
  pose proof (ScoreProperties.score_passing config now pool Hpass) as Hscore.
  assert (Hmet : (0 <= ScoreProperties.metricPoints config (Pool.apy pool)
                         (Pool.tvl pool) (Pool.volume24h pool))%Z).
  { unfold ScoreProperties.metricPoints.
    apply Qlt_bool_false_iff in Hapy, Htvl. rewrite Hapy, Htvl.
    destruct (Qlt_bool (Config.minApy config * 2) (Pool.apy pool));
      destruct (Qlt_bool (Config.minVolume24h config * 5) (Pool.volume24h pool));
      lia. }
  destruct (evaluate_cases config now pool) as [(_ & Heq)|(Hfail & _)];
    [|contradiction].
  rewrite Heq in *. rewrite shouldEnter_scoreAfterGates.
  split; [apply Z.leb_le; lia | lia].
Qed.

(** A pool four days old (outside the 1 to 72 hour window) with reserves
    1000 against 50 (ratio under 0.3) still enters, with score 73. *)
Definition oldLopsidedPool : Pool.t :=
  Pool.mk "pool_4" (Token.mk DedupProperties.rayMint "RAY" 6 1000)
    (Token.mk DedupProperties.solMint "SOL" 9 50) 5000 2000 0 25 0 1000 1.

Lemma unflagged_pool_enters_witness :
  shouldEnter (evaluatePoolForEntry DEFAULT_BOT_CONFIG 345600000 oldLopsidedPool) = true
  /\ score (evaluatePoolForEntry DEFAULT_BOT_CONFIG 345600000 oldLopsidedPool) = 73%Z.
Proof.
  split.
  - apply (unflagged_pool_enters DEFAULT_BOT_CONFIG 345600000 oldLopsidedPool).
    + unfold ScoreProperties.passesHardGates. repeat split; discriminate.
    + discriminate.
    + discriminate.
  - reflexivity.
Defined.

End EntryDecisionProperties.

(** ** Exit policy: the full decision *)

Module ExitPolicyProperties.
Import PoolEvaluator.

(** The relative yield decline exceeds 50% exactly when the yield has
    fallen under half of the entry yield. *)
Lemma decline_over_half (entryApy currentApy : Q) :
  0 < entryApy ->
  (50 < ((entryApy - currentApy) / entryApy) * 100 <-> currentApy * 2 < entryApy).
Proof.
  intros He.
  assert (Hd : ((entryApy - currentApy) / entryApy) * entryApy
               == entryApy - currentApy) by (field; lra).
  set (d := (entryApy - currentApy) / entryApy) in *.
  split; intros H.
  - nra.
  - destruct (Qlt_le_dec 50 (d * 100)) as [H1|H1]; [exact H1|]. exfalso. nra.
Qed.

(** No exit trigger fires. *)
Definition holds (config : Config.t) (now : Z) (position : Position.t)
    (currentPool : Pool.t) : Prop :=
  Config.stopLossPercentage config < Position.pnlPercentage position
  /\ Position.pnlPercentage position < Config.takeProfitPercentage config
  /\ Config.exitApyThreshold config <= Pool.apy currentPool
  /\ hoursOfMs (now - Position.entryTime position) < Config.maxHoldingTime config
  /\ Position.entryApy position <= Pool.apy currentPool * 2
  /\ Position.amount position * 10 <= Pool.tvl currentPool.

(** X5. For a position entered at a positive yield, the exit policy holds
    the position exactly when no trigger fires: P&L strictly between the
    stop-loss and take-profit thresholds, pool yield at or above the exit
    floor, holding time under the maximum, pool yield at least half of the
    entry yield, and TVL at least ten times the position amount. It then
    answers with the holding reason and urgency low; every other answer
    is an exit, and urgency high is given on stop-loss and on low
    liquidity only. *)
Theorem exit_decision_table (config : Config.t) (now : Z) (position : Position.t)
    (currentPool : Pool.t) :
  0 < Position.entryApy position ->
  (shouldExit (evaluatePositionForExit config now position currentPool) = false
   <-> holds config now position currentPool)
  /\ (holds config now position currentPool ->
      evaluatePositionForExit config now position currentPool
      = mkExit false MeetsHoldingCriteria low)
  /\ (urgency (evaluatePositionForExit config now position currentPool) = high ->
      reason (evaluatePositionForExit config now position currentPool)
      = StopLossTriggered (Position.pnlPercentage position)
      \/ reason (evaluatePositionForExit config now position currentPool)
         = LowLiquidity).
Proof.
  intros He. unfold evaluatePositionForExit, holds.
  pose proof (decline_over_half (Position.entryApy position)
                (Pool.apy currentPool) He) as Hdecl.
  destruct (Qle_bool (Position.pnlPercentage position)
              (Config.stopLossPercentage config)) eqn:E1;
    [apply Qle_bool_iff in E1 | apply Qle_bool_false_iff in E1].
  { simpl. split; [split; [discriminate | intros (H & _); lra]|].
    split; [intros (H & _); lra | intros _; left; reflexivity]. }
  destruct (Qle_bool (Config.takeProfitPercentage config)
              (Position.pnlPercentage position)) eqn:E2;
    [apply Qle_bool_iff in E2 | apply Qle_bool_false_iff in E2].
  { simpl. split; [split; [discriminate | intros (_ & H & _); lra]|].
    split; [intros (_ & H & _); lra | discriminate]. }
  destruct (Qlt_bool (Pool.apy currentPool) (Config.exitApyThreshold config)) eqn:E3;
    [apply Qlt_bool_iff in E3 | apply Qlt_bool_false_iff in E3].
  { simpl. split; [split; [discriminate | intros (_ & _ & H & _); lra]|].
    split; [intros (_ & _ & H & _); lra | discriminate]. }
  destruct (Qle_bool (Config.maxHoldingTime config)
              (hoursOfMs (now - Position.entryTime position))) eqn:E4;
    [apply Qle_bool_iff in E4 | apply Qle_bool_false_iff in E4].
  { simpl. split; [split; [discriminate | intros (_ & _ & _ & H & _); lra]|].
    split; [intros (_ & _ & _ & H & _); lra | discriminate]. }
  destruct (Qlt_bool 50 ((Position.entryApy position - Pool.apy currentPool)
                           / Position.entryApy position * 100)) eqn:E5;
    [apply Qlt_bool_iff in E5; apply Hdecl in E5
    | apply Qlt_bool_false_iff in E5].
  { simpl. split; [split; [discriminate | intros (_ & _ & _ & _ & H & _); lra]|].
    split; [intros (_ & _ & _ & _ & H & _); lra | discriminate]. }
  assert (E5' : Position.entryApy position <= Pool.apy currentPool * 2).
  { destruct (Qlt_le_dec (Pool.apy currentPool * 2) (Position.entryApy position))
      as [H|H]; [|exact H].
    apply Hdecl in H. exfalso. apply (Qlt_not_le _ _ H E5). }
  destruct (Qlt_bool (Pool.tvl currentPool) (Position.amount position * 10)) eqn:E6;
    [apply Qlt_bool_iff in E6 | apply Qlt_bool_false_iff in E6].
  { simpl. split; [split; [discriminate | intros (_ & _ & _ & _ & _ & H); lra]|].
    split; [intros (_ & _ & _ & _ & _ & H); lra | intros _; right; reflexivity]. }
  simpl. split; [split; [intros _; repeat split; assumption | reflexivity]|].
  split; [reflexivity | discriminate].
Qed.

(** A $1,000 position entered at 30% yield an hour ago, up 2%, in a pool
    that still yields 28% on $50,000 of TVL, is held. *)
Definition steadyPosition : Position.t :=
  Position.mk "position_2" "pool_1" 0 1 30 1000 1020 28 20 2
    active None None None.

Lemma exit_decision_table_witness :
  evaluatePositionForExit DEFAULT_BOT_CONFIG 3600000 steadyPosition
    (GateProperties.samplePool 28 50000 2000)
  = mkExit false MeetsHoldingCriteria low.
Proof.
  apply (exit_decision_table DEFAULT_BOT_CONFIG 3600000 steadyPosition
           (GateProperties.samplePool 28 50000 2000)).
  - reflexivity.
  - unfold holds. repeat split; discriminate.
Defined.

End ExitPolicyProperties.

(** ** Portfolio ledger: summary and lookups ([portfolioManager]) *)

Module Ledger.
Import PortfolioManager.

(** [positions.reduce((sum, pos) => sum + f(pos), 0)] *)
Definition sumOf (f : Position.t -> Q) (positions : list Position.t) : Q :=
  fold_left (fun sum pos => sum + f pos) positions 0.

(** [updatePortfolioMetrics] *)
Definition updatePortfolioMetrics (st : State) : State :=
  let pf := portfolio st in
  (* Calculate total portfolio value *)
  let activeValue := sumOf Position.currentValue (Portfolio.activePositions pf) in
  let totalValue := Portfolio.availableCash pf + activeValue in
  (* Calculate total P&L *)
  let activePnl := sumOf Position.pnl (Portfolio.activePositions pf) in
  let closedPnl := sumOf Position.pnl (Portfolio.closedPositions pf) in
  let totalPnl := activePnl + closedPnl in
  (* Calculate total P&L percentage *)
  let initialValue := totalValue - totalPnl in
  let totalPnlPercentage :=
    if Qlt_bool 0 initialValue then (totalPnl / initialValue) * 100 else 0 in
  mkState
    (Portfolio.mk totalValue (Portfolio.totalInvested pf) totalPnl
       totalPnlPercentage (Portfolio.activePositions pf)
       (Portfolio.closedPositions pf) (Portfolio.availableCash pf)
       (Portfolio.maxPositions pf))
    (actions st).

(** [getPortfolioSummary]: the copy returned, and the manager after the
    metrics update. *)
Definition getPortfolioSummary (st : State) : Portfolio.t * State :=
  let st' := updatePortfolioMetrics st in
  (portfolio st', st').

(** [getPosition]: [None] is [null]. *)
Definition getPosition (positionId : string) (st : State) : option Position.t :=
  find (fun p => String.eqb (Position.id p) positionId)
       (Portfolio.activePositions (portfolio st)).

(** [getActivePositions] *)
Definition getActivePositions (st : State) : list Position.t :=
  Portfolio.activePositions (portfolio st).

(** The P&L the manager has logged on exits: the [pnl] of every
    [position_exited] action handed to the logger. *)
Definition realizedPnl (log : list BotAction) : Q :=
  fold_left
    (fun sum a =>
       match details a with
       | ExitDetails _ _ pnl _ _ _ => sum + pnl
       | EnterDetails _ _ _ _ _ => sum
       end)
    log 0.

End Ledger.

Module LedgerProperties.
Import PortfolioManager Ledger.

Lemma fold_left_add_shift {A : Type} (f : A -> Q) (l : list A) (a : Q) :
  fold_left (fun sum x => sum + f x) l a
  == a + fold_left (fun sum x => sum + f x) l 0.
Proof.
  revert a. induction l as [|x l IH]; intros a; simpl.
  - ring.
  - rewrite (IH (a + f x)), (IH (0 + f x)). ring.
Qed.

Lemma sumOf_cons (f : Position.t -> Q) (p : Position.t) (l : list Position.t) :
  sumOf f (p :: l) == f p + sumOf f l.
Proof.
  unfold sumOf. simpl. rewrite fold_left_add_shift. ring.
Qed.

Lemma sumOf_app (f : Position.t -> Q) (l1 l2 : list Position.t) :
  sumOf f (l1 ++ l2) == sumOf f l1 + sumOf f l2.
Proof.
  induction l1 as [|p l1 IH]; simpl.
  - unfold sumOf at 2. simpl. ring.
  - rewrite !sumOf_cons, IH. ring.
Qed.

Lemma sumOf_removeAt (f : Position.t -> Q) (l : list Position.t) (i : nat)
    (p : Position.t) :
  nth_error l i = Some p -> sumOf f (removeAt i l) == sumOf f l - f p.
Proof.
  revert i. induction l as [|x l IH]; intros [|i]; simpl; try discriminate.
  - intros [= ->]. rewrite sumOf_cons. ring.
  - intros H. rewrite !sumOf_cons, (IH i H). ring.
Qed.

Lemma realizedPnl_snoc (log : list BotAction) (a : BotAction) :
  realizedPnl (log ++ [a])
  == realizedPnl log
     + match details a with
       | ExitDetails _ _ pnl _ _ _ => pnl
       | EnterDetails _ _ _ _ _ => 0
       end.
Proof.
  unfold realizedPnl. rewrite fold_left_app. simpl.
  destruct (details a); ring.
Qed.

(** Cash and invested capital against the log of exits. *)
Definition cashInvariant (initialCash : Q) (st : State) : Prop :=
  Portfolio.availableCash (portfolio st) + Portfolio.totalInvested (portfolio st)
  == initialCash + realizedPnl (actions st).

Lemma cashInvariant_step (config : Config.t) (initialCash : Q) (st : State)
    (op : Op) :
  cashInvariant initialCash st -> cashInvariant initialCash (step config st op).
Proof.
  unfold cashInvariant. intros Hinv. destruct op as [uuid now pool|pid now pool r|pid now pool];
    simpl.
  - unfold enterPosition.
    destruct (negb (canEnterNewPosition config st));
      [exact Hinv | destruct (hasPositionInPool st (Pool.poolId pool)); [exact Hinv|]].
    simpl. rewrite realizedPnl_snoc. simpl. lra.
  - unfold exitPosition.
    destruct (findIndex _ (Portfolio.activePositions (portfolio st))) as [i|];
      [|exact Hinv].
    destruct (nth_error (Portfolio.activePositions (portfolio st)) i) as [p|];
      [|exact Hinv].
    simpl. rewrite realizedPnl_snoc. simpl. lra.
  - exact Hinv.
Qed.

Lemma cashInvariant_run (config : Config.t) (initialCash : Q) (ops : list Op) :
  cashInvariant initialCash (run config initialCash ops).
Proof.
  unfold run.
  apply (DedupProperties.fold_left_invariant (step config)
           (fun _ st => cashInvariant initialCash st)).
  - intros _ st op. apply cashInvariant_step.
  - unfold cashInvariant, init, realizedPnl. simpl. ring.
Qed.

(** Every [enterPosition] call of the sequence is given a pool quoted at
    a price other than 0. *)
Definition entersAtNonzeroPrice (ops : list Op) : Prop :=
  Forall (fun op => match op with
                    | Enter _ _ pool => ~ Pool.price pool == 0
                    | _ => True
                    end) ops.

(** Every position of the ledger, active or closed, was entered at a
    price other than 0: no price quotient of [updatePosition] or
    [exitPosition] has a zero divisor. *)
Definition pricedInvariant (st : State) : Prop :=
  Forall (fun p => ~ Position.entryPrice p == 0)
         (Portfolio.activePositions (portfolio st)
          ++ Portfolio.closedPositions (portfolio st)).

Lemma pricedInvariant_step (config : Config.t) (st : State) (op : Op) :
  match op with
  | Enter _ _ pool => ~ Pool.price pool == 0
  | _ => True
  end ->
  pricedInvariant st -> pricedInvariant (step config st op).
Proof.
  unfold pricedInvariant. intros Hop Hinv. rewrite Forall_app in *.
  destruct Hinv as (Hact & Hclosed).
  destruct op as [uuid now pool|pid now pool r|pid now pool]; simpl.
  - unfold enterPosition.
    destruct (negb (canEnterNewPosition config st)); [split; assumption|].
    destruct (hasPositionInPool st (Pool.poolId pool)); [split; assumption|].
    simpl. split; [|exact Hclosed].
    apply Forall_app. split; [exact Hact|]. constructor; [exact Hop | constructor].
  - unfold exitPosition.
    destruct (findIndex _ (Portfolio.activePositions (portfolio st))) as [i|];
      [|split; assumption].
    destruct (nth_error (Portfolio.activePositions (portfolio st)) i) as [p|] eqn:Hnth;
      [|split; assumption].
    simpl. split; [apply LimitProperties.Forall_removeAt; exact Hact|].
    apply Forall_app. split; [exact Hclosed|].
    constructor; [|constructor]. simpl.
    rewrite Forall_forall in Hact. apply Hact. apply (nth_error_In _ _ Hnth).
  - assert (Hupd : forall l,
               Forall (fun p => ~ Position.entryPrice p == 0) l ->
               Forall (fun p => ~ Position.entryPrice p == 0)
                      (updateIn pid now pool l)).
    { intros l Hl. unfold updateIn. apply Forall_map.
      apply (Forall_impl _ (P := fun p => ~ Position.entryPrice p == 0));
        [|exact Hl].
      intros p Hp. destruct (String.eqb (Position.id p) pid); exact Hp. }
    split; apply Hupd; assumption.
Qed.

Lemma pricedInvariant_steps (config : Config.t) (ops : list Op) :
  entersAtNonzeroPrice ops ->
  forall st, pricedInvariant st ->
             pricedInvariant (fold_left (step config) ops st).
Proof.
  unfold entersAtNonzeroPrice.
  induction 1 as [|op ops Hop Hops IH]; intros st Hinv; simpl.
  - exact Hinv.
  - apply IH. apply pricedInvariant_step; assumption.
Qed.

Lemma pricedInvariant_run (config : Config.t) (initialCash : Q) (ops : list Op) :
  entersAtNonzeroPrice ops -> pricedInvariant (run config initialCash ops).
Proof.
  intros Hops. apply pricedInvariant_steps; [exact Hops|].
  unfold pricedInvariant. simpl. constructor.
Qed.

(** X6. Cash is conserved. When every entry is made at a price other
    than 0 (so that every position of the ledger has a non-zero entry
    price and no price quotient divides by zero), then in every state
    reached from a fresh manager by [enterPosition], [exitPosition] and
    [updatePosition] calls, available cash plus total invested equals the
    initial cash plus the P&L of the exits logged so far. Entering moves
    money from cash to invested, and only an exit changes the sum, by the
    P&L it realizes. *)
Theorem cash_conservation (config : Config.t) (initialCash : Q) (ops : list Op) :
  entersAtNonzeroPrice ops ->
  Portfolio.availableCash (portfolio (run config initialCash ops))
  + Portfolio.totalInvested (portfolio (run config initialCash ops))
  == initialCash + realizedPnl (actions (run config initialCash ops))
  /\ Forall (fun p => ~ Position.entryPrice p == 0)
            (Portfolio.activePositions (portfolio (run config initialCash ops))
             ++ Portfolio.closedPositions (portfolio (run config initialCash ops))).
Proof.
  intros Hops. split.
  - exact (cashInvariant_run config initialCash ops).
  - exact (pricedInvariant_run config initialCash ops Hops).
Qed.

(** The scenario of the specification with a re-pricing in between: enter
    at price 1.0, re-price after an hour, exit after a day at 1.2. *)
Definition tradeOps : list Op :=
  [Enter "id-1" 0 ExitValueProperties.entryPool;
   Update "id-1" 3600000 ExitValueProperties.exitPool;
   Exit "id-1" 86400000 ExitValueProperties.exitPool "Take profit triggered"].

Lemma tradeOps_priced : entersAtNonzeroPrice tradeOps.
Proof.
  unfold entersAtNonzeroPrice, tradeOps.
  constructor; [discriminate | constructor; [exact I | constructor; [exact I | constructor]]].
Qed.

Lemma cash_conservation_witness :
  Portfolio.availableCash (portfolio (run DEFAULT_BOT_CONFIG 10000 tradeOps))
  + Portfolio.totalInvested (portfolio (run DEFAULT_BOT_CONFIG 10000 tradeOps))
  == 10000 + (14640 # 73).
Proof.
  rewrite (proj1 (cash_conservation DEFAULT_BOT_CONFIG 10000 tradeOps
                    tradeOps_priced)).
  reflexivity.
Defined.

Lemma sumOf_updateIn_amount (positionId : string) (now : Z) (currentPool : Pool.t)
    (l : list Position.t) :
  sumOf Position.amount (updateIn positionId now currentPool l)
  == sumOf Position.amount l.
Proof.
  induction l as [|p l IH]; simpl; [reflexivity|].
  rewrite !sumOf_cons, IH.
  destruct (String.eqb (Position.id p) positionId); reflexivity.
Qed.

(** Every active position is marked consistently, and total invested is
    the sum of the active amounts. *)
Definition valueInvariant (st : State) : Prop :=
  Forall (fun p => Position.pnl p == Position.currentValue p - Position.amount p)
         (Portfolio.activePositions (portfolio st))
  /\ Portfolio.totalInvested (portfolio st)
     == sumOf Position.amount (Portfolio.activePositions (portfolio st)).

Lemma valueInvariant_step (config : Config.t) (st : State) (op : Op) :
  valueInvariant st -> valueInvariant (step config st op).
Proof.
  unfold valueInvariant. intros (Hall & Hsum).
  destruct op as [uuid now pool|pid now pool r|pid now pool]; simpl.
  - unfold enterPosition.
    destruct (negb (canEnterNewPosition config st));
      [split; assumption
      | destruct (hasPositionInPool st (Pool.poolId pool)); [split; assumption|]].
    simpl. split.
    + apply Forall_app. split; [exact Hall|].
      constructor; [simpl; ring | constructor].
    + rewrite sumOf_app, sumOf_cons, Hsum.
      change (sumOf Position.amount []) with 0. simpl. ring.
  - unfold exitPosition.
    destruct (findIndex _ (Portfolio.activePositions (portfolio st))) as [i|];
      [|split; assumption].
    destruct (nth_error (Portfolio.activePositions (portfolio st)) i) as [p|] eqn:Hnth;
      [|split; assumption].
    simpl. split.
    + apply LimitProperties.Forall_removeAt. exact Hall.
    + rewrite (sumOf_removeAt _ _ _ _ Hnth), Hsum. reflexivity.
  - split.
    + unfold updateIn. apply Forall_map.
      apply (Forall_impl _ (P := fun p => Position.pnl p
                                          == Position.currentValue p - Position.amount p));
        [|exact Hall].
      intros p Hp. destruct (String.eqb (Position.id p) pid); [simpl; ring | exact Hp].
    + rewrite sumOf_updateIn_amount. exact Hsum.
Qed.

Lemma valueInvariant_run (config : Config.t) (initialCash : Q) (ops : list Op) :
  valueInvariant (run config initialCash ops).
Proof.
  unfold run.
  apply (DedupProperties.fold_left_invariant (step config)
           (fun _ st => valueInvariant st)).
  - intros _ st op. apply valueInvariant_step.
  - unfold valueInvariant, init, sumOf. simpl. split; [constructor | ring].
Qed.

Lemma sumOf_value_split (l : list Position.t) :
  Forall (fun p => Position.pnl p == Position.currentValue p - Position.amount p) l ->
  sumOf Position.currentValue l == sumOf Position.amount l + sumOf Position.pnl l.
Proof.
  induction 1 as [|p l Hp Hl IH].
  - unfold sumOf. simpl. ring.
  - rewrite !sumOf_cons, IH, Hp. ring.
Qed.

(** X7. The summary reconciles. When every entry is made at a price
    other than 0, then for every state reached from a fresh manager the
    total value reported by [getPortfolioSummary] equals available cash
    plus total invested plus the unrealized P&L of the active positions,
    which is the initial cash plus the P&L realized on exits plus the
    unrealized P&L. Reading the summary a second time returns the same
    summary and leaves the manager as the first read left it. *)
Theorem summary_reconciles (config : Config.t) (initialCash : Q) (ops : list Op) :
  entersAtNonzeroPrice ops ->
  let st := run config initialCash ops in
  let summary := fst (getPortfolioSummary st) in
  Portfolio.totalValue summary
  == Portfolio.availableCash (portfolio st) + Portfolio.totalInvested (portfolio st)
     + sumOf Position.pnl (Portfolio.activePositions (portfolio st))
  /\ Portfolio.totalValue summary
     == initialCash + realizedPnl (actions st)
        + sumOf Position.pnl (Portfolio.activePositions (portfolio st))
  /\ Portfolio.totalPnl summary
     == sumOf Position.pnl (Portfolio.activePositions (portfolio st))
        + sumOf Position.pnl (Portfolio.closedPositions (portfolio st))
  /\ getPortfolioSummary (snd (getPortfolioSummary st)) = getPortfolioSummary st
  /\ Forall (fun p => ~ Position.entryPrice p == 0)
            (Portfolio.activePositions (portfolio st)).
Proof.
  intros Hops. cbv zeta.
  pose proof (valueInvariant_run config initialCash ops) as (Hall & Hsum).
  pose proof (cashInvariant_run config initialCash ops) as Hcash.
  pose proof (pricedInvariant_run config initialCash ops Hops) as Hpriced.
  unfold cashInvariant in Hcash. unfold pricedInvariant in Hpriced.
  apply Forall_app in Hpriced. destruct Hpriced as (Hpriced & _).
  pose proof (sumOf_value_split _ Hall) as Hsplit.
  unfold getPortfolioSummary, updatePortfolioMetrics. simpl.
  split; [|split; [|split; [|split]]].
  - rewrite Hsplit, Hsum. ring.
  - rewrite Hsplit. rewrite Hsum in Hcash. lra.
  - reflexivity.
  - reflexivity.
  - exact Hpriced.
Qed.

(** An hour after entry at price 1.0 the pool is quoted at 1.2: the
    interim mark carries half of the price delta and an hour of yield,
    and the summary reports 10000 + 100 + 5/219. *)
Definition markOps : list Op :=
  [Enter "id-1" 0 ExitValueProperties.entryPool;
   Update "id-1" 3600000 ExitValueProperties.exitPool].

Lemma markOps_priced : entersAtNonzeroPrice markOps.
Proof.
  unfold entersAtNonzeroPrice, markOps.
  constructor; [discriminate | constructor; [exact I | constructor]].
Qed.

Lemma summary_reconciles_witness :
  Portfolio.totalValue
    (fst (getPortfolioSummary (run DEFAULT_BOT_CONFIG 10000 markOps)))
  == 10100 + (5 # 219).
Proof.
  destruct (summary_reconciles DEFAULT_BOT_CONFIG 10000 markOps markOps_priced)
    as (_ & H & _).
  rewrite H. reflexivity.
Defined.

End LedgerProperties.

(** ** Portfolio ledger: identity of positions *)

From Stdlib Require Import Permutation.

Module IdentityProperties.
Import PortfolioManager Ledger.

Lemma map_removeAt {A B : Type} (f : A -> B) (l : list A) (i : nat) :
  map f (removeAt i l) = removeAt i (map f l).
Proof.
  revert i. induction l as [|x l IH]; intros [|i]; simpl; try reflexivity.
  rewrite IH. reflexivity.
Qed.

Lemma removeAt_Permutation {A : Type} (l : list A) (i : nat) (x : A) :
  nth_error l i = Some x -> Permutation l (x :: removeAt i l).
Proof.
  revert i. induction l as [|y l IH]; intros [|i]; simpl; try discriminate.
  - intros [= ->]. apply Permutation_refl.
  - intros H. apply perm_trans with (y :: x :: removeAt i l).
    + apply perm_skip. apply IH. exact H.
    + apply perm_swap.
Qed.

Lemma map_id_updateIn (positionId : string) (now : Z) (currentPool : Pool.t)
    (l : list Position.t) :
  map Position.id (updateIn positionId now currentPool l) = map Position.id l.
Proof.
  unfold updateIn. rewrite map_map. apply map_ext.
  intros p. destruct (String.eqb (Position.id p) positionId); reflexivity.
Qed.

Lemma map_poolId_updateIn (positionId : string) (now : Z) (currentPool : Pool.t)
    (l : list Position.t) :
  map Position.poolId (updateIn positionId now currentPool l)
  = map Position.poolId l.
Proof.
  unfold updateIn. rewrite map_map. apply map_ext.
  intros p. destruct (String.eqb (Position.id p) positionId); reflexivity.
Qed.

Lemma hasPositionInPool_false_notin (st : State) (poolId : string) :
  hasPositionInPool st poolId = false ->
  ~ In poolId (map Position.poolId (Portfolio.activePositions (portfolio st))).
Proof.
  unfold hasPositionInPool. intros H Hin.
  apply in_map_iff in Hin. destruct Hin as (p & Hp & Hin).
  assert (Hex : existsb (fun p0 => String.eqb (Position.poolId p0) poolId)
                  (Portfolio.activePositions (portfolio st)) = true).
  { apply existsb_exists. exists p. split; [exact Hin|].
    apply String.eqb_eq. exact Hp. }
  congruence.
Qed.

Lemma onePerPool_step (config : Config.t) (st : State) (op : Op) :
  NoDup (map Position.poolId (Portfolio.activePositions (portfolio st))) ->
  NoDup (map Position.poolId
           (Portfolio.activePositions (portfolio (step config st op)))).
Proof.
  intros Hnd. destruct op as [uuid now pool|pid now pool r|pid now pool]; simpl.
  - unfold enterPosition.
    destruct (negb (canEnterNewPosition config st)); [exact Hnd|].
    destruct (hasPositionInPool st (Pool.poolId pool)) eqn:Hhas; [exact Hnd|].
    simpl. rewrite map_app. simpl.
    apply DedupProperties.NoDup_snoc; [exact Hnd|].
    apply hasPositionInPool_false_notin. exact Hhas.
  - unfold exitPosition.
    destruct (findIndex _ (Portfolio.activePositions (portfolio st))) as [i|];
      [|exact Hnd].
    destruct (nth_error (Portfolio.activePositions (portfolio st)) i) as [p|] eqn:Hnth;
      [|exact Hnd].
    simpl. rewrite map_removeAt.
    assert (Hnth' : nth_error (map Position.poolId
                                 (Portfolio.activePositions (portfolio st))) i
                    = Some (Position.poolId p)).
    { rewrite nth_error_map, Hnth. reflexivity. }
    apply removeAt_Permutation in Hnth'.
    apply (Permutation_NoDup Hnth') in Hnd. inversion Hnd. assumption.
  - rewrite map_poolId_updateIn. exact Hnd.
Qed.

(** X8. At most one active position per pool: in every state reached from
    a fresh manager by [enterPosition], [exitPosition] and
    [updatePosition] calls, the active positions target pairwise distinct
    pool ids. *)
Theorem one_active_position_per_pool (config : Config.t) (initialCash : Q)
    (ops : list Op) :
  NoDup (map Position.poolId
           (Portfolio.activePositions (portfolio (run config initialCash ops)))).
Proof.
  unfold run.
  apply (DedupProperties.fold_left_invariant (step config)
           (fun _ st => NoDup (map Position.poolId
                                 (Portfolio.activePositions (portfolio st))))).
  - intros _ st op. apply onePerPool_step.
  - simpl. constructor.
Qed.

Definition activeIds (st : State) : list string :=
  map Position.id (Portfolio.activePositions (portfolio st)).
Definition closedIds (st : State) : list string :=
  map Position.id (Portfolio.closedPositions (portfolio st)).

(** The identifiers drawn for the [enterPosition] calls of a sequence. *)
Definition enterIds (ops : list Op) : list string :=
  flat_map (fun op => match op with
                      | Enter uuid _ _ => [uuid]
                      | _ => []
                      end) ops.

Lemma findIndex_None {A : Type} (f : A -> bool) (l : list A) :
  findIndex f l = None <-> (forall x, In x l -> f x = false).
Proof.
  induction l as [|y l IH]; simpl.
  - split; [intros _ x [] | reflexivity].
  - destruct (f y) eqn:E.
    + split; [discriminate|]. intros H. specialize (H y (or_introl eq_refl)).
      congruence.
    + destruct (findIndex f l) as [i|].
      * split; [discriminate|]. intros H.
        assert (Hi : Some i = None)
          by (apply IH; intros x Hx; apply H; right; exact Hx).
        discriminate Hi.
      * split; [|reflexivity]. intros _ x [<-|Hx]; [exact E|].
        apply (proj1 IH eq_refl). exact Hx.
Qed.

Lemma exit_unknown (positionId : string) (now : Z) (currentPool : Pool.t)
    (reason : string) (st : State) :
  ~ In positionId (activeIds st) ->
  exitPosition positionId now currentPool reason st = (false, st)
  /\ getPosition positionId st = None.
Proof.
  intros Hnot.
  assert (Hall : forall p, In p (Portfolio.activePositions (portfolio st)) ->
                           String.eqb (Position.id p) positionId = false).
  { intros p Hp. apply String.eqb_neq. intros Heq. apply Hnot.
    unfold activeIds. rewrite <- Heq. apply in_map. exact Hp. }
  split.
  - unfold exitPosition. rewrite (proj2 (findIndex_None _ _) Hall). reflexivity.
  - unfold getPosition.
    destruct (find _ (Portfolio.activePositions (portfolio st))) as [p|] eqn:E;
      [|reflexivity].
    apply find_some in E. destruct E as (Hin & Heq).
    rewrite (Hall p Hin) in Heq. discriminate.
Qed.

(** X9. [exitPosition] reports failure exactly when no active position
    carries the given id, and then it changes nothing: neither the
    portfolio nor the audit log. When an active position carries the id
    the call succeeds, the closed list grows by one and the active list
    shrinks by one. *)
Theorem exit_fails_iff_unknown (positionId : string) (now : Z)
    (currentPool : Pool.t) (reason : string) (st : State) :
  (fst (exitPosition positionId now currentPool reason st) = false
   <-> ~ In positionId (activeIds st))
  /\ (fst (exitPosition positionId now currentPool reason st) = false ->
      snd (exitPosition positionId now currentPool reason st) = st)
  /\ (fst (exitPosition positionId now currentPool reason st) = true ->
      let st' := snd (exitPosition positionId now currentPool reason st) in
      List.length (Portfolio.closedPositions (portfolio st'))
      = S (List.length (Portfolio.closedPositions (portfolio st)))
      /\ S (List.length (Portfolio.activePositions (portfolio st')))
         = List.length (Portfolio.activePositions (portfolio st))).
Proof.
  destruct (in_dec string_dec positionId (activeIds st)) as [Hin|Hnot].
  - unfold activeIds in Hin. apply in_map_iff in Hin.
    destruct Hin as (p & Hid & Hp).
    unfold exitPosition.
    destruct (findIndex (fun p0 => String.eqb (Position.id p0) positionId)
                (Portfolio.activePositions (portfolio st))) as [i|] eqn:Hfind.
    + destruct (ExitValueProperties.findIndex_Some _ _ _ Hfind) as (q & Hnth & _).
      rewrite Hnth. simpl.
      split; [split; [discriminate|] | split; [discriminate|]].
      * intros Hnot. exfalso. apply Hnot. unfold activeIds.
        rewrite <- Hid. apply in_map. exact Hp.
      * intros _. split.
        { rewrite length_app. simpl. lia. }
        { apply (LimitProperties.removeAt_length _ _ _ Hnth). }
    + exfalso. pose proof (proj1 (findIndex_None _ _) Hfind p Hp) as Hf.
      simpl in Hf. rewrite Hid, String.eqb_refl in Hf. discriminate.
  - destruct (exit_unknown positionId now currentPool reason st Hnot) as (Hex & _).
    rewrite Hex. simpl.
    split; [tauto | split; [reflexivity | discriminate]].
Qed.

Lemma exit_fails_iff_unknown_witness :
  exitPosition "id-9" 0 ExitValueProperties.exitPool "Take profit triggered"
    ExitValueProperties.afterEntry
  = (false, ExitValueProperties.afterEntry)
  /\ fst (exitPosition "id-1" 86400000 ExitValueProperties.exitPool
            "Take profit triggered" ExitValueProperties.afterEntry) = true.
Proof.
  split; [|reflexivity].
  pose proof (exit_fails_iff_unknown "id-9" 0 ExitValueProperties.exitPool
                "Take profit triggered" ExitValueProperties.afterEntry)
    as (Hiff & Hsame & _).
  assert (Hf : fst (exitPosition "id-9" 0 ExitValueProperties.exitPool
                      "Take profit triggered" ExitValueProperties.afterEntry)
               = false).
  { apply Hiff. simpl. intros [H|[]]. discriminate H. }
  specialize (Hsame Hf).
  destruct (exitPosition "id-9" 0 ExitValueProperties.exitPool
              "Take profit triggered" ExitValueProperties.afterEntry) as [b st'].
  simpl in *. subst. reflexivity.
Defined.

Lemma enterIds_snoc (ops : list Op) (op : Op) :
  enterIds (ops ++ [op])
  = enterIds ops ++ match op with Enter uuid _ _ => [uuid] | _ => [] end.
Proof.
  unfold enterIds. rewrite flat_map_app. simpl. rewrite app_nil_r. reflexivity.
Qed.

Lemma NoDup_snoc_inv {A : Type} (l : list A) (x : A) :
  NoDup (l ++ [x]) -> NoDup l /\ ~ In x l.
Proof.
  intros H. apply NoDup_remove in H. rewrite app_nil_r in H. exact H.
Qed.

(** The identifiers held by the ledger are distinct and were all drawn
    by an earlier [enterPosition]. *)
Definition idsInvariant (ops : list Op) (st : State) : Prop :=
  NoDup (enterIds ops) ->
  NoDup (activeIds st ++ closedIds st)
  /\ incl (activeIds st ++ closedIds st) (enterIds ops).

Lemma idsInvariant_step (config : Config.t) (ops : list Op) (st : State) (op : Op) :
  idsInvariant ops st -> idsInvariant (ops ++ [op]) (step config st op).
Proof.
  unfold idsInvariant. intros IH Hfresh. rewrite enterIds_snoc in *.
  destruct op as [uuid now pool|pid now pool r|pid now pool]; simpl.
  - apply NoDup_snoc_inv in Hfresh. destruct Hfresh as (Hnd0 & Hnew).
    destruct (IH Hnd0) as (Hnd & Hincl).
    unfold enterPosition.
    destruct (negb (canEnterNewPosition config st));
      [split; [exact Hnd | apply incl_appl; exact Hincl]|].
    destruct (hasPositionInPool st (Pool.poolId pool));
      [split; [exact Hnd | apply incl_appl; exact Hincl]|].
    unfold activeIds, closedIds in *. simpl. rewrite map_app. simpl.
    rewrite <- app_assoc. simpl.
    split.
    + apply (Permutation_NoDup (Permutation_middle _ _ uuid)).
      constructor; [|exact Hnd]. intros Hin. apply Hnew. apply Hincl. exact Hin.
    + intros x Hx. apply in_app_or in Hx. apply in_or_app.
      destruct Hx as [Hx|[<-|Hx]].
      * left. apply Hincl. apply in_or_app. left. exact Hx.
      * right. left. reflexivity.
      * left. apply Hincl. apply in_or_app. right. exact Hx.
  - rewrite app_nil_r in *. destruct (IH Hfresh) as (Hnd & Hincl).
    unfold exitPosition.
    destruct (findIndex _ (Portfolio.activePositions (portfolio st))) as [i|];
      [|split; assumption].
    destruct (nth_error (Portfolio.activePositions (portfolio st)) i) as [p|] eqn:Hnth;
      [|split; assumption].
    unfold activeIds, closedIds in *. simpl.
    rewrite map_removeAt, map_app. simpl.
    assert (Hnth' : nth_error (map Position.id
                                 (Portfolio.activePositions (portfolio st))) i
                    = Some (Position.id p)).
    { rewrite nth_error_map, Hnth. reflexivity. }
    apply removeAt_Permutation in Hnth'.
    set (A := map Position.id (Portfolio.activePositions (portfolio st))) in *.
    set (C := map Position.id (Portfolio.closedPositions (portfolio st))) in *.
    assert (Hperm : Permutation (A ++ C) (removeAt i A ++ C ++ [Position.id p])).
    { apply perm_trans with ((Position.id p :: removeAt i A) ++ C).
      - apply Permutation_app_tail. exact Hnth'.
      - simpl. rewrite app_assoc. apply Permutation_cons_append. }
    split.
    + apply (Permutation_NoDup Hperm). exact Hnd.
    + intros x Hx. apply Hincl.
      apply (Permutation_in _ (Permutation_sym Hperm)). exact Hx.
  - rewrite app_nil_r in *. destruct (IH Hfresh) as (Hnd & Hincl).
    unfold activeIds, closedIds in *. simpl. rewrite !map_id_updateIn.
    split; assumption.
Qed.

Lemma idsInvariant_run (config : Config.t) (initialCash : Q) (ops : list Op) :
  idsInvariant ops (run config initialCash ops).
Proof.
  unfold run.
  apply (DedupProperties.fold_left_invariant (step config) idsInvariant).
  - intros l st op. apply idsInvariant_step.
  - intros _. simpl. split; [constructor | intros x []].
Qed.

Lemma closed_persists_step (config : Config.t) (st : State) (op : Op)
    (positionId : string) :
  In positionId (closedIds st) -> In positionId (closedIds (step config st op)).
Proof.
  unfold closedIds. intros H.
  destruct op as [uuid now pool|pid now pool r|pid now pool]; simpl.
  - unfold enterPosition.
    destruct (negb (canEnterNewPosition config st)); [exact H|].
    destruct (hasPositionInPool st (Pool.poolId pool)); exact H.
  - unfold exitPosition.
    destruct (findIndex _ (Portfolio.activePositions (portfolio st))) as [i|];
      [|exact H].
    destruct (nth_error (Portfolio.activePositions (portfolio st)) i) as [p|];
      [|exact H].
    simpl. rewrite map_app. apply in_or_app. left. exact H.
  - rewrite map_id_updateIn. exact H.
Qed.

Lemma closed_persists (config : Config.t) (ops : list Op) (st : State)
    (positionId : string) :
  In positionId (closedIds st) ->
  In positionId (closedIds (fold_left (step config) ops st)).
Proof.
  revert st. induction ops as [|op ops IH]; intros st H; simpl; [exact H|].
  apply IH. apply closed_persists_step. exact H.
Qed.

(** X10. An exited position is never reopened. When the identifiers
    drawn for entries are pairwise distinct, a position id found in the
    closed list after some calls is still in the closed list and not in
    the active list after any further calls, [getPosition] does not find
    it, and [exitPosition] on it fails and changes nothing. *)
Theorem exited_never_reopened (config : Config.t) (initialCash : Q)
    (ops1 ops2 : list Op) (positionId : string) :
  NoDup (enterIds (ops1 ++ ops2)) ->
  In positionId (closedIds (run config initialCash ops1)) ->
  let st := run config initialCash (ops1 ++ ops2) in
  In positionId (closedIds st)
  /\ ~ In positionId (activeIds st)
  /\ getPosition positionId st = None
  /\ (forall (now : Z) (currentPool : Pool.t) (reason : string),
        exitPosition positionId now currentPool reason st = (false, st)).
Proof.
  intros Hfresh Hclosed. cbv zeta.
  assert (Hstill : In positionId (closedIds (run config initialCash (ops1 ++ ops2)))).
  { unfold run in *. rewrite fold_left_app. apply closed_persists. exact Hclosed. }
  destruct (idsInvariant_run config initialCash (ops1 ++ ops2) Hfresh) as (Hnd & _).
  assert (Hnot : ~ In positionId (activeIds (run config initialCash (ops1 ++ ops2)))).
  { intros Hact. apply in_split in Hstill.
    destruct Hstill as (c1 & c2 & Hc). rewrite Hc, app_assoc in Hnd.
    apply NoDup_remove_2 in Hnd. apply Hnd.
    apply in_or_app. left. apply in_or_app. left. exact Hact. }
  split; [exact Hstill | split; [exact Hnot | split]].
  - apply (exit_unknown positionId 0 (GateProperties.samplePool 0 0 0) "" _ Hnot).
  - intros now currentPool reason.
    apply (exit_unknown positionId now currentPool reason _ Hnot).
Qed.

(** Enter a pool, exit it, and enter the same pool again under a new id:
    the first id stays closed. *)
Definition reentryOps : list Op :=
  [Enter "id-1" 0 ExitValueProperties.entryPool;
   Exit "id-1" 86400000 ExitValueProperties.exitPool "Take profit triggered"].

Lemma exited_never_reopened_witness :
  let st := run DEFAULT_BOT_CONFIG 10000
              (reentryOps ++ [Enter "id-2" 90000000 ExitValueProperties.entryPool]) in
  activeIds st = ["id-2"%string]
  /\ In "id-1"%string (closedIds st)
  /\ exitPosition "id-1" 90000001 ExitValueProperties.exitPool "again" st
     = (false, st).
Proof.
  cbv zeta.
  destruct (exited_never_reopened DEFAULT_BOT_CONFIG 10000 reentryOps
              [Enter "id-2" 90000000 ExitValueProperties.entryPool] "id-1")
    as (Hc & _ & _ & Hexit).
  - simpl. constructor; [intros [H|[]]; discriminate H | constructor; [intros [] | constructor]].
  - left. reflexivity.
  - split; [reflexivity | split; [exact Hc | apply Hexit]].
Defined.

End IdentityProperties.

(** ** Portfolio ledger: re-pricing and lookup *)

Module RepricingProperties.
Import PortfolioManager Ledger.

(** The full price delta of a position against a pool snapshot. *)
Definition priceDelta (position : Position.t) (currentPool : Pool.t) : Q :=
  ((Pool.price currentPool - Position.entryPrice position)
     / Position.entryPrice position) * Position.amount position.

(** X11. Re-pricing does not compound. [updatePosition] computes the
    interim value from the entry data and the snapshot alone, so an
    update overwrites any earlier update, and the value realized by
    [exitPosition] does not depend on the updates made before it. For a
    position entered at a price other than 0, at the same instant and
    snapshot, the exit value exceeds the interim value by half of the
    full price delta (interim marks carry 50% price exposure). *)
Theorem repricing_does_not_compound (now1 now2 : Z) (position : Position.t)
    (pool1 pool2 : Pool.t) (reason : string) :
  updatePosition now2 (updatePosition now1 position pool1) pool2
  = updatePosition now2 position pool2
  /\ Position.currentValue
       (closePosition now2 (updatePosition now1 position pool1) pool2 reason)
     = Position.currentValue (closePosition now2 position pool2 reason)
  /\ Position.pnlPercentage
       (closePosition now2 (updatePosition now1 position pool1) pool2 reason)
     = Position.pnlPercentage (closePosition now2 position pool2 reason)
  /\ (~ Position.entryPrice position == 0 ->
      Position.currentValue (closePosition now2 position pool2 reason)
      - Position.currentValue (updatePosition now2 position pool2)
      == priceDelta position pool2 * (1 # 2)
      /\ priceDelta position pool2 * Position.entryPrice position
         == (Pool.price pool2 - Position.entryPrice position)
            * Position.amount position).
Proof.
  split; [reflexivity | split; [reflexivity | split; [reflexivity|]]].
  intros Hprice. unfold closePosition, updatePosition, priceDelta. simpl.
  split; [ring | field; exact Hprice].
Qed.

(** A $1,000 position entered at price 1.0, marked and exited at 1.2 at
    the same instant: the exit value is $100 above the interim mark. *)
Definition unitPosition : Position.t :=
  Position.mk "id-1" "pool_1" 0 1 20 1000 1000 20 0 0 active None None None.

Lemma repricing_does_not_compound_witness :
  Position.currentValue
    (closePosition 3600000 unitPosition ExitValueProperties.exitPool "exit")
  - Position.currentValue
      (updatePosition 3600000 unitPosition ExitValueProperties.exitPool)
  == 100.
Proof.
  destruct (repricing_does_not_compound 0 3600000 unitPosition
              ExitValueProperties.entryPool ExitValueProperties.exitPool "exit")
    as (_ & _ & _ & H).
  destruct H as (H & _); [discriminate|].
  rewrite H. reflexivity.
Defined.

Lemma find_snoc {A : Type} (f : A -> bool) (l : list A) (x : A) :
  find f (l ++ [x])
  = match find f l with
    | Some y => Some y
    | None => if f x then Some x else None
    end.
Proof.
  induction l as [|y l IH]; simpl; [reflexivity|].
  destruct (f y); [reflexivity | exact IH].
Qed.

(** X12. Lookup after entry. When [enterPosition] returns a position
    under an id that no active position carried, [getPosition] on that id
    returns that position, it is the last element of
    [getActivePositions], and lookups of other ids answer as before the
    entry. *)
Theorem getPosition_after_enter (config : Config.t) (uuid : string) (now : Z)
    (pool : Pool.t) (st st' : State) (position : Position.t) :
  enterPosition config uuid now pool st = (Some position, st') ->
  ~ In uuid (IdentityProperties.activeIds st) ->
  getPosition uuid st' = Some position
  /\ getActivePositions st' = getActivePositions st ++ [position]
  /\ (forall other : string,
        other <> uuid -> getPosition other st' = getPosition other st).
Proof.
  intros Henter Hfresh.
  apply EntryProperties.enterPosition_success in Henter.
  destruct Henter as (_ & _ & Hpos & Hact & _).
  assert (Hid : Position.id position = uuid) by (rewrite Hpos; reflexivity).
  unfold getPosition, getActivePositions. rewrite Hact.
  split; [|split; [reflexivity|]].
  - rewrite find_snoc.
    destruct (IdentityProperties.exit_unknown uuid now pool "" st Hfresh)
      as (_ & Hnone).
    unfold getPosition in Hnone. rewrite Hnone, Hid, String.eqb_refl. reflexivity.
  - intros other Hother. rewrite find_snoc.
    destruct (find _ (Portfolio.activePositions (portfolio st))); [reflexivity|].
    rewrite Hid. apply String.eqb_neq in Hother.
    rewrite String.eqb_sym, Hother. reflexivity.
Qed.

Lemma getPosition_after_enter_witness :
  exists position,
    getPosition "id-1" ExitValueProperties.afterEntry = Some position
    /\ Position.poolId position = "pool_1"%string
    /\ Position.amount position = 1000.
Proof.
  destruct (enterPosition DEFAULT_BOT_CONFIG "id-1" 0 ExitValueProperties.entryPool
              (init DEFAULT_BOT_CONFIG 10000)) as [[position|] st'] eqn:E;
    [|discriminate E].
  destruct (getPosition_after_enter DEFAULT_BOT_CONFIG "id-1" 0
              ExitValueProperties.entryPool (init DEFAULT_BOT_CONFIG 10000)
              st' position E) as (Hget & _).
  - intros [].
  - exists position.
    assert (Hst : ExitValueProperties.afterEntry = st').
    { unfold ExitValueProperties.afterEntry. rewrite E. reflexivity. }
    rewrite Hst. split; [exact Hget|].
    injection E as <- _. split; reflexivity.
Defined.

End RepricingProperties.

(** ** The bot's audit log ([yieldFarmingBot], [logAction]) *)

Module AuditLog.

(** [array.slice(-n)]: the last [n] elements, the whole array when it is
    shorter. *)
Definition sliceLast {A : Type} (n : nat) (l : list A) : list A :=
  skipn (List.length l - n) l.

(** [logAction]: push, then keep only the last 1000 actions. *)
Definition logAction {A : Type} (actions : list A) (action : A) : list A :=
  let actions := actions ++ [action] in
  if (1000 <? List.length actions)%nat then sliceLast 1000 actions else actions.

End AuditLog.

Module AuditLogProperties.
Import AuditLog.

Lemma sliceLast_length {A : Type} (n : nat) (l : list A) :
  List.length (sliceLast n l) = Nat.min n (List.length l).
Proof.
  unfold sliceLast. rewrite length_skipn. lia.
Qed.

Lemma sliceLast_short {A : Type} (n : nat) (l : list A) :
  (List.length l <= n)%nat -> sliceLast n l = l.
Proof.
  intros H. unfold sliceLast.
  replace (List.length l - n)%nat with 0%nat by lia. reflexivity.
Qed.

(** Logging onto the last 1000 of a history gives the last 1000 of the
    history with the action appended. *)
Lemma logAction_sliceLast {A : Type} (history : list A) (action : A) :
  logAction (sliceLast 1000 history) action = sliceLast 1000 (history ++ [action]).
Proof.
  unfold logAction.
  rewrite length_app, sliceLast_length. simpl List.length.
  destruct (Nat.le_gt_cases 1000 (List.length history)) as [Hfull|Hroom].
  - replace (Nat.min 1000 (List.length history) + 1)%nat with 1001%nat by lia.
    change (1000 <? 1001)%nat with true. cbv iota.
    unfold sliceLast at 1.
    rewrite length_app, sliceLast_length. simpl List.length.
    replace (Nat.min 1000 (List.length history) + 1 - 1000)%nat with 1%nat by lia.
    unfold sliceLast. rewrite length_app. simpl List.length.
    rewrite (skipn_app (List.length history + 1 - 1000)).
    replace (List.length history + 1 - 1000 - List.length history)%nat with 0%nat
      by lia.
    rewrite (skipn_app 1), length_skipn.
    replace (1 - (List.length history - (List.length history - 1000)))%nat
      with 0%nat by lia.
    rewrite skipn_skipn.
    replace (1 + (List.length history - 1000))%nat
      with (List.length history + 1 - 1000)%nat by lia.
    reflexivity.
  - rewrite (sliceLast_short 1000 history) by lia.
    destruct (1000 <? Nat.min 1000 (List.length history) + 1)%nat eqn:E.
    + apply Nat.ltb_lt in E. lia.
    + rewrite sliceLast_short; [reflexivity|].
      rewrite length_app. simpl. lia.
Qed.

(** X13. The audit log is a ring buffer of 1000 actions: after any
    sequence of [logAction] calls on an empty log, the log holds exactly
    the most recent actions in their order, all of them while there are
    at most 1000 and the last 1000 otherwise. In particular it never
    holds more than 1000 actions and its last action is the last one
    logged. *)
Theorem audit_log_keeps_last_1000 {A : Type} (history : list A) :
  fold_left logAction history [] = sliceLast 1000 history
  /\ List.length (fold_left logAction history [])
     = Nat.min 1000 (List.length history)
  /\ (forall (action : A) (earlier : list A),
        history = earlier ++ [action] ->
        exists kept, fold_left logAction history [] = kept ++ [action]).
Proof.
  assert (Hfold : fold_left logAction history [] = sliceLast 1000 history).
  { induction history as [|a history IH] using rev_ind.
    - reflexivity.
    - rewrite fold_left_app. simpl. rewrite IH. apply logAction_sliceLast. }
  split; [exact Hfold | split].
  - rewrite Hfold. apply sliceLast_length.
  - intros action earlier ->. rewrite Hfold.
    unfold sliceLast. rewrite length_app. simpl List.length.
    rewrite skipn_app.
    replace (List.length earlier + 1 - 1000 - List.length earlier)%nat with 0%nat
      by lia.
    eexists. reflexivity.
Qed.

End AuditLogProperties.

(** ** The bot's discovery step ([yieldFarmingBot], [poolDataService]) *)

From Stdlib Require Import DecimalString.

Module Orchestrator.
Import YieldFarmingBot AuditLog.

(** [validatePoolData] of the pool data service. *)
Definition validatePoolData (pool : Pool.t) : bool :=
  Qlt_bool 0 (Pool.tvl pool)
  && Qle_bool 0 (Pool.apy pool)
  && Qle_bool 0 (Pool.volume24h pool)
  && Qle_bool 0 (Token.amount (Pool.baseToken pool))
  && Qle_bool 0 (Token.amount (Pool.quoteToken pool))
  && Qle_bool 0 (Pool.lpTokenSupply pool).

(** The two statements of [scanForNewPools] between the fetch and the
    evaluation loop: deduplicate, then keep the valid records. *)
Definition selectPools (allPools : list Pool.t) : list Pool.t :=
  let uniquePools := deduplicatePools allPools in
  filter validatePoolData uniquePools.

(** The payloads of the actions the bot's log receives. *)
Inductive ActionDetails : Type :=
| DetectedDetails (symbols : string) (apy tvl volume24h : Q)
| EvaluatedDetails (apy tvl volume24h age : Q)
| MonitoredDetails (positionId : string)
    (currentValue pnl pnlPercentage currentApy : Q)
| ManagerDetails (d : PortfolioManager.Details).

Record Action : Type := mkAction {
  id : string;
  timestamp : Z;
  type : PortfolioManager.ActionType;
  poolId : string;
  details : ActionDetails;
  success : bool
}.

(** An action of the portfolio manager as the bot's logger receives it. *)
Definition ofManager (a : PortfolioManager.BotAction) : Action :=
  mkAction (PortfolioManager.action_id a) (PortfolioManager.timestamp a)
    (PortfolioManager.type a) (PortfolioManager.action_poolId a)
    (ManagerDetails (PortfolioManager.details a)) (PortfolioManager.success a).

(** [`${n}`] for an integer number. *)
Definition string_of_Z (n : Z) : string := NilZero.string_of_int (Z.to_int n).

(** The fields of the bot that the discovery step reads and writes: the
    pool cache, the audit log, and the portfolio of its manager. *)
Record Bot : Type := mkBot {
  poolCache : PoolMap;
  actions : list Action;
  portfolio : Portfolio.t
}.

(** The constructor: the manager starts with [config.maxTotalInvestment]
    as its cash. *)
Definition newBot (config : Config.t) : Bot :=
  mkBot [] []
    (PortfolioManager.portfolio
       (PortfolioManager.init config (Config.maxTotalInvestment config))).

(** The symbols of a pool, [`${base}/${quote}`]. *)
Definition symbolsOf (pool : Pool.t) : string :=
  (Token.symbol (Pool.baseToken pool) ++ "/"
     ++ Token.symbol (Pool.quoteToken pool))%string.

(** [evaluateAndEnterPool]. The evaluator and the manager log through
    the bot's [logAction]; the manager is run on an empty outbox and what
    it emits is logged in order. *)
Definition evaluateAndEnterPool (config : Config.t) (uuid : string) (now : Z)
    (pool : Pool.t) (bot : Bot) : Bot :=
  (* Skip if we already evaluated this pool recently *)
  if mapHas (poolCache bot) (Pool.poolId pool) then bot
  else
    (* Cache the pool *)
    let cache := mapSet (poolCache bot) (Pool.poolId pool) pool in
    (* Log pool detection *)
    let log :=
      logAction (actions bot)
        (mkAction
           ("detect_" ++ Pool.poolId pool ++ "_" ++ string_of_Z now)%string
           now PortfolioManager.pool_detected (Pool.poolId pool)
           (DetectedDetails (symbolsOf pool) (Pool.apy pool) (Pool.tvl pool)
              (Pool.volume24h pool))
           true) in
    (* Evaluate pool: the evaluator logs the attempt first *)
    let log :=
      logAction log
        (mkAction
           ("eval_" ++ Pool.poolId pool ++ "_" ++ string_of_Z now)%string
           now PortfolioManager.pool_evaluated (Pool.poolId pool)
           (EvaluatedDetails (Pool.apy pool) (Pool.tvl pool) (Pool.volume24h pool)
              (PoolEvaluator.getPoolAgeHours now pool))
           true) in
    let evaluation := PoolEvaluator.evaluatePoolForEntry config now pool in
    if PoolEvaluator.shouldEnter evaluation then
      (* Try to enter position *)
      let '(_, manager) :=
        PortfolioManager.enterPosition config uuid now pool
          (PortfolioManager.mkState (portfolio bot) []) in
      mkBot cache
        (fold_left logAction (map ofManager (PortfolioManager.actions manager)) log)
        (PortfolioManager.portfolio manager)
    else mkBot cache log (portfolio bot).

End Orchestrator.

Module OrchestratorProperties.
Import YieldFarmingBot AuditLog Orchestrator.

Lemma mapHas_mapSet (m : PoolMap) (k : string) (v : Pool.t) :
  mapHas (mapSet m k v) k = true.
Proof.
  unfold mapHas. rewrite DedupProperties.mapGet_mapSet, String.eqb_refl.
  reflexivity.
Qed.

Lemma cache_after (config : Config.t) (uuid : string) (now : Z) (pool : Pool.t)
    (bot : Bot) :
  poolCache (evaluateAndEnterPool config uuid now pool bot)
  = if mapHas (poolCache bot) (Pool.poolId pool) then poolCache bot
    else mapSet (poolCache bot) (Pool.poolId pool) pool.
Proof.
  unfold evaluateAndEnterPool.
  destruct (mapHas (poolCache bot) (Pool.poolId pool)); [reflexivity|].
  destruct (PoolEvaluator.shouldEnter _); [|reflexivity].
  destruct (PortfolioManager.enterPosition _ _ _ _ _). reflexivity.
Qed.

(** X14. A pool id is evaluated at most once by the bot. A record whose
    pool id is already in the cache is skipped: nothing is logged, cached
    or entered. After [evaluateAndEnterPool] the pool id is in the cache,
    bound to the record of the first call, so every later call for that
    pool id, with whatever metrics, is such a skip. A record that the
    evaluator does not recommend leaves the portfolio as it was. *)
Theorem pool_evaluated_once (config : Config.t) (uuid : string) (now : Z)
    (pool : Pool.t) (bot : Bot) :
  (mapHas (poolCache bot) (Pool.poolId pool) = true ->
     evaluateAndEnterPool config uuid now pool bot = bot)
  /\ mapHas (poolCache (evaluateAndEnterPool config uuid now pool bot))
            (Pool.poolId pool) = true
  /\ (mapHas (poolCache bot) (Pool.poolId pool) = false ->
      mapGet (poolCache (evaluateAndEnterPool config uuid now pool bot))
             (Pool.poolId pool) = Some pool)
  /\ (forall (uuid' : string) (now' : Z) (pool' : Pool.t),
        Pool.poolId pool' = Pool.poolId pool ->
        evaluateAndEnterPool config uuid' now' pool'
          (evaluateAndEnterPool config uuid now pool bot)
        = evaluateAndEnterPool config uuid now pool bot)
  /\ (PoolEvaluator.shouldEnter (PoolEvaluator.evaluatePoolForEntry config now pool)
      = false ->
      portfolio (evaluateAndEnterPool config uuid now pool bot) = portfolio bot).
Proof.
  assert (Hskip : forall u n p b,
             mapHas (poolCache b) (Pool.poolId p) = true ->
             evaluateAndEnterPool config u n p b = b).
  { intros u n p b H. unfold evaluateAndEnterPool. rewrite H. reflexivity. }
  assert (Hcached : mapHas (poolCache (evaluateAndEnterPool config uuid now pool bot))
                           (Pool.poolId pool) = true).
  { rewrite cache_after.
    destruct (mapHas (poolCache bot) (Pool.poolId pool)) eqn:E;
      [exact E | apply mapHas_mapSet]. }
  split; [apply Hskip | split; [exact Hcached | split; [|split]]].
  - intros Hnew. rewrite cache_after, Hnew.
    rewrite DedupProperties.mapGet_mapSet, String.eqb_refl. reflexivity.
  - intros uuid' now' pool' Hid. apply Hskip. rewrite Hid. exact Hcached.
  - intros Hno. unfold evaluateAndEnterPool.
    destruct (mapHas (poolCache bot) (Pool.poolId pool)); [reflexivity|].
    rewrite Hno. reflexivity.
Qed.

(** On a new bot: a pool below the yield gate is cached and skipped; the
    same pool id offered again with a passing yield is ignored. *)
Lemma pool_evaluated_once_witness :
  evaluateAndEnterPool DEFAULT_BOT_CONFIG "id-2" 60000
    (GateProperties.samplePool 90 5000 2000)
    (evaluateAndEnterPool DEFAULT_BOT_CONFIG "id-1" 0 GateProperties.poolLowApy
       (newBot DEFAULT_BOT_CONFIG))
  = evaluateAndEnterPool DEFAULT_BOT_CONFIG "id-1" 0 GateProperties.poolLowApy
      (newBot DEFAULT_BOT_CONFIG)
  /\ portfolio (evaluateAndEnterPool DEFAULT_BOT_CONFIG "id-1" 0
                  GateProperties.poolLowApy (newBot DEFAULT_BOT_CONFIG))
     = portfolio (newBot DEFAULT_BOT_CONFIG).
Proof.
  pose proof (pool_evaluated_once DEFAULT_BOT_CONFIG "id-1" 0
                GateProperties.poolLowApy (newBot DEFAULT_BOT_CONFIG))
    as (_ & _ & _ & Hagain & Hskip).
  split.
  - apply Hagain. reflexivity.
  - apply Hskip. reflexivity.
Defined.

Lemma In_mapGet (m : PoolMap) (k : string) (v : Pool.t) :
  NoDup (map fst m) -> In (k, v) m -> mapGet m k = Some v.
Proof.
  induction m as [|[k0 v0] m IH]; simpl; intros Hnd Hin; [contradiction|].
  inversion Hnd as [|? ? Hnotin Hnd']. subst.
  destruct Hin as [[= -> ->]|Hin].
  - rewrite String.eqb_refl. reflexivity.
  - destruct (String.eqb k0 k) eqn:E.
    + apply String.eqb_eq in E. subst k0. exfalso. apply Hnotin.
      apply (in_map fst) in Hin. exact Hin.
    + apply IH; assumption.
Qed.

Lemma validatePoolData_true (pool : Pool.t) :
  validatePoolData pool = true
  <-> 0 < Pool.tvl pool /\ 0 <= Pool.apy pool /\ 0 <= Pool.volume24h pool
      /\ 0 <= Token.amount (Pool.baseToken pool)
      /\ 0 <= Token.amount (Pool.quoteToken pool)
      /\ 0 <= Pool.lpTokenSupply pool.
Proof.
  unfold validatePoolData.
  rewrite !andb_true_iff, Qlt_bool_iff, !Qle_bool_iff. tauto.
Qed.

(** X15. What reaches the evaluation loop of a scan. Every selected
    record is a candidate that passes validation (TVL positive; yield,
    volume, both reserves and LP supply non-negative), the selected pool
    ids are pairwise distinct, and a selected record is a most recently
    created candidate of its pool id. Validation runs after
    deduplication, so a pool whose newest record is invalid is dropped
    even when an older record of it is valid. *)
Theorem selected_pools (allPools : list Pool.t) :
  NoDup (map Pool.poolId (selectPools allPools))
  /\ (forall p, In p (selectPools allPools) ->
        In p allPools
        /\ validatePoolData p = true
        /\ 0 < Pool.tvl p
        /\ (forall q, In q allPools -> Pool.poolId q = Pool.poolId p ->
                      (Pool.createdAt q <= Pool.createdAt p)%Z))
  /\ (forall q newest,
        In q allPools -> In newest allPools ->
        Pool.poolId newest = Pool.poolId q ->
        (Pool.createdAt q < Pool.createdAt newest)%Z ->
        ~ In q (selectPools allPools)).
Proof.
  unfold selectPools, deduplicatePools, mapValues.
  destruct (DedupProperties.dedupInvariant_fold allPools) as (Hnd & Hin & Hmax).
  set (m := fold_left dedupStep allPools []) in *.
  assert (Hkeys : map Pool.poolId (map snd m) = map fst m).
  { rewrite map_map. apply map_ext_in. intros [k v] Hkv.
    simpl. exact (proj1 (Hin k v Hkv)). }
  assert (Hnewest : forall p, In p (map snd m) ->
             forall q, In q allPools -> Pool.poolId q = Pool.poolId p ->
                       (Pool.createdAt q <= Pool.createdAt p)%Z).
  { intros p Hp q Hq Hid. apply in_map_iff in Hp.
    destruct Hp as ([k v] & Hv & Hkv). simpl in Hv. subst v.
    destruct (Hin k p Hkv) as (Hk & _).
    pose proof (In_mapGet m k p Hnd Hkv) as Hget.
    destruct (Hmax q Hq) as (v & Hgetq & Hle).
    rewrite Hid, Hk, Hget in Hgetq. injection Hgetq as <-. exact Hle. }
  split; [|split].
  - assert (Hsub : forall (l : list Pool.t),
               NoDup (map Pool.poolId l) ->
               NoDup (map Pool.poolId (filter validatePoolData l))).
    { induction l as [|x l IH]; simpl; intros H; [constructor|].
      inversion H as [|? ? Hx Hl]. subst.
      destruct (validatePoolData x); simpl; [|apply IH; exact Hl].
      constructor; [|apply IH; exact Hl].
      intros Hc. apply Hx. apply in_map_iff in Hc.
      destruct Hc as (y & Hy & Hyin). apply filter_In in Hyin.
      rewrite <- Hy. apply in_map. tauto. }
    apply Hsub. rewrite Hkeys. exact Hnd.
  - intros p Hp. apply filter_In in Hp. destruct Hp as (Hp & Hvalid).
    split; [|split; [exact Hvalid | split]].
    + apply in_map_iff in Hp. destruct Hp as ([k v] & <- & Hkv).
      exact (proj2 (Hin k v Hkv)).
    + apply validatePoolData_true in Hvalid. tauto.
    + apply Hnewest. exact Hp.
  - intros q newest Hq Hn Hid Hlt Hsel.
    apply filter_In in Hsel. destruct Hsel as (Hsel & _).
    pose proof (Hnewest q Hsel newest Hn Hid). lia.
Qed.

(** A pool with a valid record at time 100 and a newer record with zero
    TVL at time 200 is not selected at all. *)
Definition staleValid : Pool.t := DedupProperties.raySol "raydium_1" 100.
Definition newestInvalid : Pool.t :=
  Pool.mk "raydium_1" (Token.mk DedupProperties.rayMint "RAY" 6 1000)
    (Token.mk DedupProperties.solMint "SOL" 9 1000) 0 2000 10 30 200 100 1.

Lemma selected_pools_witness :
  validatePoolData staleValid = true
  /\ selectPools [staleValid; newestInvalid] = []
  /\ ~ In staleValid (selectPools [staleValid; newestInvalid]).
Proof.
  split; [reflexivity | split; [reflexivity|]].
  apply (proj2 (proj2 (selected_pools [staleValid; newestInvalid]))
           staleValid newestInvalid).
  - left. reflexivity.
  - right. left. reflexivity.
  - reflexivity.
  - reflexivity.
Defined.

End OrchestratorProperties.

(** ** Yield estimate of the pool data service ([calculateAPY]) *)

Module PoolDataService.

(** [calculateAPY(fees24h, tvl, volume24h)] *)
Definition calculateAPY (fees24h tvl volume24h : Q) : Q :=
  if Qle_bool tvl 0 then 0
  else
    let dailyYield := fees24h / tvl in
    let apy := dailyYield * 365 * 100 in
    (* Add volume-based boost for high-volume pools *)
    let volumeBoost := Qmin (volume24h / tvl) 2 * (1 # 10) in
    Qmax 0 (apy + volumeBoost).

End PoolDataService.

Module PoolDataServiceProperties.
Import PoolDataService.

(** X16. The yield estimate is never negative, so a record built from it
    passes the yield check of [validatePoolData]; it is 0 when TVL is
    zero or negative (no division takes place); and for positive TVL with
    non-negative fees and volume it is the annualized fee yield
    [fees24h / tvl * 365 * 100] plus a volume boost between 0 and 0.2
    percentage points, the boost being a tenth of the volume-to-TVL ratio
    capped at 2. *)
Theorem calculateAPY_range (fees24h tvl volume24h : Q) :
  0 <= calculateAPY fees24h tvl volume24h
  /\ (tvl <= 0 -> calculateAPY fees24h tvl volume24h = 0)
  /\ (0 < tvl -> 0 <= fees24h -> 0 <= volume24h ->
      calculateAPY fees24h tvl volume24h
      == fees24h / tvl * 365 * 100 + Qmin (volume24h / tvl) 2 * (1 # 10)
      /\ fees24h / tvl * 365 * 100 <= calculateAPY fees24h tvl volume24h
      /\ calculateAPY fees24h tvl volume24h <= fees24h / tvl * 365 * 100 + (2 # 10)).
Proof.
  unfold calculateAPY.
  destruct (Qle_bool tvl 0) eqn:E;
    [apply Qle_bool_iff in E | apply Qle_bool_false_iff in E].
  - split; [apply Qle_refl | split; [reflexivity | intros H; exfalso; lra]].
  - split; [apply Q.le_max_l | split; [intros H; exfalso; lra|]].
    intros _ Hfees Hvol.
    assert (Hf : 0 <= fees24h / tvl).
    { apply Qle_shift_div_l; [exact E | lra]. }
    assert (Hv : 0 <= volume24h / tvl).
    { apply Qle_shift_div_l; [exact E | lra]. }
    assert (Hb : 0 <= Qmin (volume24h / tvl) 2 /\ Qmin (volume24h / tvl) 2 <= 2).
    { split; [apply Q.min_glb; lra | apply Q.le_min_r]. }
    assert (Hmax : Qmax 0 (fees24h / tvl * 365 * 100
                           + Qmin (volume24h / tvl) 2 * (1 # 10))
                   == fees24h / tvl * 365 * 100
                      + Qmin (volume24h / tvl) 2 * (1 # 10)).
    { apply Q.max_r. lra. }
    rewrite Hmax. split; [reflexivity | split; lra].
Qed.

(** Fees of $100 a day on $100,000 of TVL turning over $400,000 a day:
    36.5% from fees plus the full boost of 0.2. *)
Lemma calculateAPY_range_witness :
  calculateAPY 100 100000 400000 == 367 # 10.
Proof.
  destruct (calculateAPY_range 100 100000 400000) as (_ & _ & H).
  destruct H as (Heq & _); [reflexivity | discriminate | discriminate|].
  rewrite Heq. reflexivity.
Defined.

End PoolDataServiceProperties.

(** ** The pool monitor's cache and watchlist ([poolMonitor]) *)

Module MonitorState.
Import YieldFarmingBot AuditLog.

(** [Map.prototype.delete] *)
Fixpoint mapDelete (m : PoolMap) (key : string) : PoolMap :=
  match m with
  | [] => []
  | (k, v) :: rest =>
      if String.eqb k key then rest else (k, v) :: mapDelete rest key
  end.

(** [updatePoolCache]: set every discovered pool, then delete the oldest
    entries beyond the last 1000. *)
Definition updatePoolCache (poolCache : PoolMap) (pools : list Pool.t) : PoolMap :=
  let poolCache :=
    fold_left (fun cache pool => mapSet cache (Pool.poolId pool) pool)
              pools poolCache in
  (* Clean old entries (keep last 1000) *)
  if (1000 <? List.length poolCache)%nat then
    let entries := poolCache in
    fold_left (fun cache entry => mapDelete cache (fst entry))
              (firstn (List.length entries - 1000) entries) poolCache
  else poolCache.

(** [Set.prototype.add] on the watchlist of pool ids. *)
Definition setAdd (watchlist : list string) (poolId : string) : list string :=
  if existsb (String.eqb poolId) watchlist then watchlist
  else watchlist ++ [poolId].

(** The loop of [evaluateDiscoveredPools] as far as the watchlist goes:
    the monitor evaluates each pool with the configured evaluator and
    adds the high-scoring ones. *)
Definition evaluateDiscoveredPools (config : Config.t) (now : Z)
    (pools : list Pool.t) (watchlist : list string) : list string :=
  fold_left
    (fun watchlist pool =>
       let evaluation := PoolEvaluator.evaluatePoolForEntry config now pool in
       (* Add high-scoring pools to watchlist *)
       if PoolEvaluator.shouldEnter evaluation
          && (80 <=? PoolEvaluator.score evaluation)%Z
       then setAdd watchlist (Pool.poolId pool)
       else watchlist)
    pools watchlist.

End MonitorState.

Module MonitorStateProperties.
Import YieldFarmingBot AuditLog MonitorState.

Lemma NoDup_keys_mapSet (m : PoolMap) (k : string) (v : Pool.t) :
  NoDup (map fst m) -> NoDup (map fst (mapSet m k v)).
Proof.
  intros Hnd. rewrite DedupProperties.keys_mapSet. unfold mapHas.
  destruct (mapGet m k) eqn:E; [exact Hnd|].
  apply DedupProperties.NoDup_snoc;
    [exact Hnd | apply DedupProperties.mapGet_None_notin; exact E].
Qed.

Lemma NoDup_keys_setAll (pools : list Pool.t) (m : PoolMap) :
  NoDup (map fst m) ->
  NoDup (map fst (fold_left (fun cache pool => mapSet cache (Pool.poolId pool) pool)
                            pools m)).
Proof.
  revert m. induction pools as [|p pools IH]; intros m H; simpl; [exact H|].
  apply IH. apply NoDup_keys_mapSet. exact H.
Qed.

(** Deleting the keys of the first [k] entries of a map with distinct
    keys drops exactly those entries. *)
Lemma delete_oldest (m : PoolMap) (k : nat) :
  NoDup (map fst m) ->
  fold_left (fun cache entry => mapDelete cache (fst entry)) (firstn k m) m
  = skipn k m.
Proof.
  revert k. induction m as [|[k0 v0] m IH]; intros [|k] Hnd; simpl; try reflexivity.
  rewrite String.eqb_refl. inversion Hnd. subst. apply IH. assumption.
Qed.

Lemma NoDup_skipn {A : Type} (k : nat) (l : list A) :
  NoDup l -> NoDup (skipn k l).
Proof.
  revert k. induction l as [|x l IH]; intros [|k] H; simpl; try exact H.
  inversion H. subst. apply IH. assumption.
Qed.

(** X17. The monitor's pool cache is bounded. When the cache has
    distinct keys, [updatePoolCache] leaves a cache with distinct keys and
    at most 1000 entries: the last 1000, in insertion order, of the cache
    with every discovered pool set. A pool that was already cached keeps
    its place in that order when it is refreshed, so eviction goes by
    first insertion, not by last update. *)
Theorem pool_cache_bounded (poolCache : PoolMap) (pools : list Pool.t) :
  NoDup (map fst poolCache) ->
  updatePoolCache poolCache pools
  = sliceLast 1000
      (fold_left (fun cache pool => mapSet cache (Pool.poolId pool) pool)
                 pools poolCache)
  /\ (List.length (updatePoolCache poolCache pools) <= 1000)%nat
  /\ NoDup (map fst (updatePoolCache poolCache pools))
  /\ (forall pool, mapHas poolCache (Pool.poolId pool) = true ->
        map fst (mapSet poolCache (Pool.poolId pool) pool) = map fst poolCache).
Proof.
  intros Hnd. unfold updatePoolCache.
  pose proof (NoDup_keys_setAll pools poolCache Hnd) as Hnd'.
  set (m := fold_left (fun cache pool => mapSet cache (Pool.poolId pool) pool)
                      pools poolCache) in *.
  assert (Heq : (if (1000 <? List.length m)%nat
                 then fold_left (fun cache entry => mapDelete cache (fst entry))
                        (firstn (List.length m - 1000) m) m
                 else m) = sliceLast 1000 m).
  { destruct (1000 <? List.length m)%nat eqn:E.
    - rewrite delete_oldest by exact Hnd'. reflexivity.
    - apply Nat.ltb_ge in E. symmetry.
      apply AuditLogProperties.sliceLast_short. exact E. }
  rewrite Heq. split; [reflexivity | split; [|split]].
  - rewrite AuditLogProperties.sliceLast_length. lia.
  - unfold sliceLast. rewrite <- skipn_map. apply NoDup_skipn. exact Hnd'.
  - intros pool Hhas. rewrite DedupProperties.keys_mapSet, Hhas. reflexivity.
Qed.

Lemma pool_cache_bounded_witness :
  updatePoolCache [("raydium_1"%string, DedupProperties.raySol "raydium_1" 100)]
    [DedupProperties.raySol "jupiter_1" 200; DedupProperties.raySol "raydium_1" 300]
  = [("raydium_1"%string, DedupProperties.raySol "raydium_1" 300);
     ("jupiter_1"%string, DedupProperties.raySol "jupiter_1" 200)].
Proof.
  destruct (pool_cache_bounded
              [("raydium_1"%string, DedupProperties.raySol "raydium_1" 100)]
              [DedupProperties.raySol "jupiter_1" 200;
               DedupProperties.raySol "raydium_1" 300]) as (Heq & _).
  - simpl. constructor; [intros [] | constructor].
  - rewrite Heq. reflexivity.
Defined.

Lemma In_setAdd (watchlist : list string) (poolId x : string) :
  In x (setAdd watchlist poolId) <-> In x watchlist \/ x = poolId.
Proof.
  unfold setAdd.
  destruct (existsb (String.eqb poolId) watchlist) eqn:E.
  - split; [tauto|]. intros [H| ->]; [exact H|].
    apply existsb_exists in E. destruct E as (y & Hy & Heq).
    apply String.eqb_eq in Heq. subst y. exact Hy.
  - rewrite in_app_iff. simpl. split; [intros [H|[H|[]]]; auto | intros [H|H]; auto].
Qed.

Lemma NoDup_setAdd (watchlist : list string) (poolId : string) :
  NoDup watchlist -> NoDup (setAdd watchlist poolId).
Proof.
  intros Hnd. unfold setAdd.
  destruct (existsb (String.eqb poolId) watchlist) eqn:E; [exact Hnd|].
  apply DedupProperties.NoDup_snoc; [exact Hnd|].
  intros Hin.
  assert (Hex : existsb (String.eqb poolId) watchlist = true).
  { apply existsb_exists. exists poolId. split; [exact Hin | apply String.eqb_refl]. }
  congruence.
Qed.

(** The test that puts a pool on the watchlist. *)
Lemma watch_test (config : Config.t) (now : Z) (pool : Pool.t) :
  PoolEvaluator.shouldEnter (PoolEvaluator.evaluatePoolForEntry config now pool)
  && (80 <=? PoolEvaluator.score (PoolEvaluator.evaluatePoolForEntry config now pool))%Z
  = true
  <-> ScoreProperties.passesHardGates config pool
      /\ (80 <= PoolEvaluator.score
                  (PoolEvaluator.evaluatePoolForEntry config now pool))%Z.
Proof.
  rewrite andb_true_iff, Z.leb_le.
  destruct (EntryDecisionProperties.evaluate_cases config now pool)
    as [(Hpass & Heq)|(Hfail & Hno & _)].
  - rewrite Heq, EntryDecisionProperties.shouldEnter_scoreAfterGates, Z.leb_le.
    split; [intros (_ & H); tauto | intros (_ & H); split; [lia | exact H]].
  - rewrite Hno. split; [intros (H & _); discriminate H | tauto].
Qed.

(** X18. A pool id is on the monitor's watchlist after the decision phase
    exactly when it was on it before or one of the evaluated pools with
    that id passes the three hard gates and scores at least 80; the
    watchlist keeps its ids distinct and never loses one. *)
Theorem watchlist_after_decisions (config : Config.t) (now : Z)
    (pools : list Pool.t) (watchlist : list string) (poolId : string) :
  (In poolId (evaluateDiscoveredPools config now pools watchlist)
   <-> In poolId watchlist
       \/ exists pool, In pool pools /\ Pool.poolId pool = poolId
                        /\ ScoreProperties.passesHardGates config pool
                        /\ (80 <= PoolEvaluator.score
                                    (PoolEvaluator.evaluatePoolForEntry config now pool))%Z)
  /\ (NoDup watchlist ->
      NoDup (evaluateDiscoveredPools config now pools watchlist)).
Proof.
  unfold evaluateDiscoveredPools.
  revert watchlist. induction pools as [|p pools IH]; intros watchlist; simpl.
  - split; [|tauto].
    split; [tauto | intros [H|(q & Hq & _)]; [exact H | destruct Hq]].
  - destruct (IH (if PoolEvaluator.shouldEnter
                        (PoolEvaluator.evaluatePoolForEntry config now p)
                      && (80 <=? PoolEvaluator.score
                                   (PoolEvaluator.evaluatePoolForEntry config now p))%Z
                  then setAdd watchlist (Pool.poolId p) else watchlist))
      as (Hiff & Hnd).
    pose proof (watch_test config now p) as Htest.
    destruct (PoolEvaluator.shouldEnter
                (PoolEvaluator.evaluatePoolForEntry config now p)
              && (80 <=? PoolEvaluator.score
                           (PoolEvaluator.evaluatePoolForEntry config now p))%Z).
    + split; [|intros H; apply Hnd, NoDup_setAdd, H].
      rewrite Hiff, In_setAdd. split.
      * intros [[H| ->]|(q & Hq & Hrest)].
        { left. exact H. }
        { right. exists p. destruct (proj1 Htest eq_refl). auto. }
        { right. exists q. tauto. }
      * intros [H|(q & [<-|Hq] & Hid & Hrest)].
        { left. left. exact H. }
        { left. right. symmetry. exact Hid. }
        { right. exists q. tauto. }
    + split; [|exact Hnd].
      rewrite Hiff. split.
      * intros [H|(q & Hq & Hrest)]; [left; exact H | right; exists q; tauto].
      * intros [H|(q & [<-|Hq] & Hid & Hpass & Hscore)].
        { left. exact H. }
        { assert (Hf : false = true) by (apply Htest; tauto). discriminate Hf. }
        { right. exists q. tauto. }
Qed.

Lemma watchlist_after_decisions_witness :
  In "pool_1"%string
     (evaluateDiscoveredPools DEFAULT_BOT_CONFIG GateProperties.sampleNow
        [GateProperties.samplePool 90 5000 2000; GateProperties.poolLowApy] [])
  /\ NoDup (evaluateDiscoveredPools DEFAULT_BOT_CONFIG GateProperties.sampleNow
              [GateProperties.samplePool 90 5000 2000; GateProperties.poolLowApy] []).
Proof.
  destruct (watchlist_after_decisions DEFAULT_BOT_CONFIG GateProperties.sampleNow
              [GateProperties.samplePool 90 5000 2000; GateProperties.poolLowApy]
              [] "pool_1") as (Hiff & Hnd).
  split; [|apply Hnd; constructor].
  apply Hiff. right. exists (GateProperties.samplePool 90 5000 2000).
  split; [left; reflexivity | split; [reflexivity | split]].
  - unfold ScoreProperties.passesHardGates. repeat split; discriminate.
  - discriminate.
Defined.

End MonitorStateProperties.

(** ** Entry decision of the monitor's evaluator *)

Module MonitorDecisionProperties.
Import PoolMonitor.

Definition passesMonitorGates (pool : Pool.t) : Prop :=
  MIN_APY <= Pool.apy pool
  /\ MIN_TVL <= Pool.tvl pool
  /\ MIN_VOLUME_24H <= Pool.volume24h pool.

Definition ageBonus (now : Z) (pool : Pool.t) : Z :=
  let ageHours := hoursOfMs (now - Pool.createdAt pool) in
  if Qle_bool MIN_AGE_HOURS ageHours && Qle_bool ageHours MAX_AGE_HOURS
  then (if Qle_bool ageHours SWEET_SPOT_AGE_HOURS then 20 else 10)
       + (if Qle_bool ageHours 12 then 15 else 0)
  else 0.

Definition incentiveBonus (pool : Pool.t) : Z :=
  if Qle_bool HIGH_INCENTIVE_THRESHOLD (Pool.apy pool) then 25
  else if Qle_bool 100 (Pool.apy pool) then 15 else 0.

Definition volumeBonus (pool : Pool.t) : Z :=
  if Qle_bool HIGH_VOLUME_THRESHOLD (Pool.volume24h pool) then 15
  else if Qle_bool (MIN_VOLUME_24H * 2) (Pool.volume24h pool) then 10 else 0.

Definition earlyBonus (pool : Pool.t) : Z :=
  if Qlt_bool (Pool.tvl pool) 1000 && Qlt_bool 150 (Pool.apy pool) then 15 else 0.

Definition sustainableBonus (pool : Pool.t) : Z :=
  if Qlt_bool (Pool.apy pool) 1000
     && Qlt_bool (Pool.tvl pool * (1 # 10)) (Pool.volume24h pool)
  then 10 else 0.

Lemma monitor_scoreAfterGates (now : Z) (pool : Pool.t) (s : Z)
    (rs : list Reason) (ws : list Warning) :
  score (scoreAfterGates now pool s rs ws)
  = (s + ageBonus now pool + incentiveBonus pool + volumeBonus pool
     + earlyBonus pool + sustainableBonus pool)%Z
  /\ decision (scoreAfterGates now pool s rs ws)
     = if (MIN_SCORE_TO_ENTER <=? score (scoreAfterGates now pool s rs ws))%Z
       then ENTER else SKIP.
Proof.
  unfold scoreAfterGates, ageBonus, incentiveBonus, volumeBonus, earlyBonus,
    sustainableBonus.
  set (ageHours := hoursOfMs (now - Pool.createdAt pool)).
  destruct (Qle_bool MIN_AGE_HOURS ageHours && Qle_bool ageHours MAX_AGE_HOURS);
    [destruct (Qle_bool ageHours SWEET_SPOT_AGE_HOURS);
     destruct (Qle_bool ageHours 12)
    | destruct (Qlt_bool ageHours MIN_AGE_HOURS)];
    (destruct (Qle_bool HIGH_INCENTIVE_THRESHOLD (Pool.apy pool));
     [| destruct (Qle_bool 100 (Pool.apy pool))]);
    (destruct (Qle_bool HIGH_VOLUME_THRESHOLD (Pool.volume24h pool));
     [| destruct (Qle_bool (MIN_VOLUME_24H * 2) (Pool.volume24h pool))]);
    destruct (Qlt_bool (Pool.tvl pool) 1000 && Qlt_bool 150 (Pool.apy pool));
    destruct (Qlt_bool (Pool.apy pool) 1000
              && Qlt_bool (Pool.tvl pool * (1 # 10)) (Pool.volume24h pool));
    destruct (Qlt_bool 1000 (Pool.apy pool));
    simpl; split; try reflexivity; lia.
Qed.

Lemma monitor_cases (now : Z) (pool : Pool.t) :
  (passesMonitorGates pool
   /\ evaluatePoolForEntry now pool
      = scoreAfterGates now pool 70
          [ApyMeets (Pool.apy pool) MIN_APY; TvlMeets (Pool.tvl pool) MIN_TVL;
           VolumeMeets (Pool.volume24h pool) MIN_VOLUME_24H] [])
  \/ (~ passesMonitorGates pool
      /\ decision (evaluatePoolForEntry now pool) = SKIP
      /\ score (evaluatePoolForEntry now pool) = 0%Z).
Proof.
  unfold evaluatePoolForEntry, passesMonitorGates.
  destruct (Qle_bool MIN_APY (Pool.apy pool)) eqn:Ea;
    [destruct (Qle_bool MIN_TVL (Pool.tvl pool)) eqn:Et;
     [destruct (Qle_bool MIN_VOLUME_24H (Pool.volume24h pool)) eqn:Ev|]|].
  - left. apply Qle_bool_iff in Ea, Et, Ev. repeat split; assumption.
  - right. apply Qle_bool_false_iff in Ev. simpl.
    repeat split. intros (_ & _ & H). apply (Qlt_not_le _ _ Ev H).
  - right. apply Qle_bool_false_iff in Et. simpl.
    repeat split. intros (_ & H & _). apply (Qlt_not_le _ _ Et H).
  - right. apply Qle_bool_false_iff in Ea. simpl.
    repeat split. intros (H & _). apply (Qlt_not_le _ _ Ea H).
Qed.

(** X19. The monitor's evaluator answers ENTER exactly when the pool
    passes its three gates (yield at least 100%, TVL at least $50, volume
    at least $500) and the score reaches 100. A pool that passes the
    gates scores between 85 and 170, and one that is between 1 and 12
    hours old scores at least 120 and is always ENTER. *)
Theorem monitor_entry_decision (now : Z) (pool : Pool.t) :
  (decision (evaluatePoolForEntry now pool) = ENTER
   <-> passesMonitorGates pool
       /\ (100 <= score (evaluatePoolForEntry now pool))%Z)
  /\ (passesMonitorGates pool ->
      (85 <= score (evaluatePoolForEntry now pool) <= 170)%Z)
  /\ (passesMonitorGates pool ->
      1 <= hoursOfMs (now - Pool.createdAt pool) ->
      hoursOfMs (now - Pool.createdAt pool) <= 12 ->
      decision (evaluatePoolForEntry now pool) = ENTER
      /\ (120 <= score (evaluatePoolForEntry now pool))%Z).
Proof.
  assert (Hage : (0 <= ageBonus now pool <= 35)%Z).
  { unfold ageBonus.
    destruct (Qle_bool MIN_AGE_HOURS (hoursOfMs (now - Pool.createdAt pool))
              && Qle_bool (hoursOfMs (now - Pool.createdAt pool)) MAX_AGE_HOURS);
      [|lia].
    destruct (Qle_bool (hoursOfMs (now - Pool.createdAt pool)) SWEET_SPOT_AGE_HOURS);
      destruct (Qle_bool (hoursOfMs (now - Pool.createdAt pool)) 12); lia. }
  assert (Hinc : (0 <= incentiveBonus pool <= 25)%Z).
  { unfold incentiveBonus.
    destruct (Qle_bool HIGH_INCENTIVE_THRESHOLD (Pool.apy pool));
      [| destruct (Qle_bool 100 (Pool.apy pool))]; lia. }
  assert (Hvol : (0 <= volumeBonus pool <= 15)%Z).
  { unfold volumeBonus.
    destruct (Qle_bool HIGH_VOLUME_THRESHOLD (Pool.volume24h pool));
      [| destruct (Qle_bool (MIN_VOLUME_24H * 2) (Pool.volume24h pool))]; lia. }
  assert (Hearly : (0 <= earlyBonus pool <= 15)%Z).
  { unfold earlyBonus.
    destruct (Qlt_bool (Pool.tvl pool) 1000 && Qlt_bool 150 (Pool.apy pool)); lia. }
  assert (Hsus : (0 <= sustainableBonus pool <= 10)%Z).
  { unfold sustainableBonus.
    destruct (Qlt_bool (Pool.apy pool) 1000
              && Qlt_bool (Pool.tvl pool * (1 # 10)) (Pool.volume24h pool)); lia. }
  destruct (monitor_cases now pool) as [(Hpass & Heq)|(Hfail & Hskip & Hzero)].
  - destruct (monitor_scoreAfterGates now pool 70
                [ApyMeets (Pool.apy pool) MIN_APY; TvlMeets (Pool.tvl pool) MIN_TVL;
                 VolumeMeets (Pool.volume24h pool) MIN_VOLUME_24H] [])
      as (Hscore & Hdec).
    rewrite Heq, Hdec. clear Hdec.
    assert (Hinc15 : (15 <= incentiveBonus pool)%Z).
    { unfold incentiveBonus. destruct Hpass as (Ha & _).
      destruct (Qle_bool HIGH_INCENTIVE_THRESHOLD (Pool.apy pool)); [lia|].
      unfold MIN_APY in Ha. apply Qle_bool_iff in Ha. rewrite Ha. lia. }
    unfold MIN_SCORE_TO_ENTER.
    split; [|split; [intros _; lia|]].
    + destruct (100 <=? score _)%Z eqn:E;
        [apply Z.leb_le in E; tauto | apply Z.leb_gt in E].
      split; [discriminate | intros (_ & H); lia].
    + intros _ Hlo Hhi.
      assert (Hfresh : ageBonus now pool = 35%Z).
      { unfold ageBonus, MIN_AGE_HOURS, MAX_AGE_HOURS, SWEET_SPOT_AGE_HOURS.
        assert (H72 : hoursOfMs (now - Pool.createdAt pool) <= 72) by lra.
        assert (H24 : hoursOfMs (now - Pool.createdAt pool) <= 24) by lra.
        apply Qle_bool_iff in Hlo, Hhi, H72, H24.
        rewrite Hlo, Hhi, H72, H24. reflexivity. }
      assert (H120 : (100 <= score (scoreAfterGates now pool 70
                  [ApyMeets (Pool.apy pool) MIN_APY; TvlMeets (Pool.tvl pool) MIN_TVL;
                   VolumeMeets (Pool.volume24h pool) MIN_VOLUME_24H] []))%Z) by lia.
      apply Z.leb_le in H120. rewrite H120. split; [reflexivity | lia].
  - rewrite Hskip, Hzero.
    split; [split; [discriminate | tauto] | split; intros H; contradiction].
Qed.

Lemma monitor_entry_decision_witness :
  decision (evaluatePoolForEntry GateProperties.sampleNow
              (GateProperties.samplePool 150 5000 600)) = ENTER.
Proof.
  apply (monitor_entry_decision GateProperties.sampleNow
           (GateProperties.samplePool 150 5000 600)).
  - unfold passesMonitorGates. repeat split; discriminate.
  - discriminate.
  - discriminate.
Defined.

End MonitorDecisionProperties.

(** ** The bot's monitoring pass ([yieldFarmingBot],
       [monitorActivePositions]) *)

Module Monitoring.
Import AuditLog Orchestrator.

(** [PoolPerformanceMetrics] *)
Record PoolPerformanceMetrics : Type := mkMetrics {
  metrics_poolId : string;
  metrics_timestamp : Z;
  metrics_apy : Q;
  metrics_tvl : Q;
  metrics_volume24h : Q;
  metrics_price : Q;
  metrics_fees24h : Q;
  priceChange24h : Q;
  apyChange24h : Q
}.

(** "Convert metrics to PoolInfo format (simplified)". *)
Definition poolInfoOf (now : Z) (position : Position.t)
    (currentPool : PoolPerformanceMetrics) : Pool.t :=
  Pool.mk (Position.poolId position)
    (Token.mk "" "BASE" 9 0) (Token.mk "" "QUOTE" 9 0)
    (metrics_tvl currentPool) (metrics_volume24h currentPool)
    (metrics_fees24h currentPool) (metrics_apy currentPool)
    now 0 (metrics_price currentPool).

(** The payload of a [position_monitored] action and the action. *)
Definition monitoredAction (now : Z) (position : Position.t)
    (currentPool : PoolPerformanceMetrics) : Action :=
  mkAction
    ("monitor_" ++ Position.id position ++ "_" ++ string_of_Z now)%string
    now PortfolioManager.position_monitored (Position.poolId position)
    (MonitoredDetails (Position.id position) (Position.currentValue position)
       (Position.pnl position) (Position.pnlPercentage position)
       (metrics_apy currentPool))
    true.

(** One turn of the loop of [monitorActivePositions], in live mode.
    [getPoolMetrics] is the argument [metrics] ([None]: no data, the
    position is skipped this cycle), and [render] turns the reason of the
    exit policy into the string handed to [exitPosition]. [position] is
    the element of the array returned by [getActivePositions]: the
    position object itself, whose entry fields never change; the object
    as mutated by [updatePosition] is [updatePosition now position
    poolInfo]. *)
Definition monitorOne (config : Config.t)
    (render : PoolEvaluator.ExitReason -> string) (now : Z)
    (metrics : string -> option PoolPerformanceMetrics)
    (bot : Bot) (position : Position.t) : Bot :=
  match metrics (Position.poolId position) with
  | None => bot
  | Some currentPool =>
      let poolInfo := poolInfoOf now position currentPool in
      (* Update position value *)
      let manager :=
        PortfolioManager.updatePositionById (Position.id position) now poolInfo
          (PortfolioManager.mkState (portfolio bot) []) in
      let updated := PortfolioManager.updatePosition now position poolInfo in
      (* Log position monitoring *)
      let log := logAction (actions bot) (monitoredAction now updated currentPool) in
      (* Check exit conditions *)
      let exitEvaluation :=
        PoolEvaluator.evaluatePositionForExit config now updated poolInfo in
      if PoolEvaluator.shouldExit exitEvaluation then
        let '(_, manager) :=
          PortfolioManager.exitPosition (Position.id position) now poolInfo
            (render (PoolEvaluator.reason exitEvaluation)) manager in
        mkBot (poolCache bot)
          (fold_left logAction (map ofManager (PortfolioManager.actions manager)) log)
          (PortfolioManager.portfolio manager)
      else mkBot (poolCache bot) log (PortfolioManager.portfolio manager)
  end.

(** [monitorActivePositions], in live mode. *)
Definition monitorActivePositions (config : Config.t)
    (render : PoolEvaluator.ExitReason -> string) (now : Z)
    (metrics : string -> option PoolPerformanceMetrics) (bot : Bot) : Bot :=
  let activePositions := Portfolio.activePositions (portfolio bot) in
  fold_left (monitorOne config render now metrics) activePositions bot.

(** What a monitoring pass leaves of one active position: itself when
    there is no data, nothing when the exit policy fires on the re-priced
    position, the re-priced position otherwise. *)
Definition survivor (config : Config.t) (now : Z)
    (metrics : string -> option PoolPerformanceMetrics) (position : Position.t)
    : list Position.t :=
  match metrics (Position.poolId position) with
  | None => [position]
  | Some currentPool =>
      let poolInfo := poolInfoOf now position currentPool in
      let updated := PortfolioManager.updatePosition now position poolInfo in
      if PoolEvaluator.shouldExit
           (PoolEvaluator.evaluatePositionForExit config now updated poolInfo)
      then [] else [updated]
  end.

End Monitoring.

Module MonitoringProperties.
Import AuditLog Orchestrator Monitoring.

(** The closed record a monitoring pass makes of one active position:
    none without metrics or when the exit policy holds the re-priced
    position, else the re-priced position closed by [exitPosition] at
    the snapshot, with the rendered reason of the policy. *)
Definition exitRecord (config : Config.t)
    (render : PoolEvaluator.ExitReason -> string) (now : Z)
    (metrics : string -> option PoolPerformanceMetrics) (position : Position.t)
    : list Position.t :=
  match metrics (Position.poolId position) with
  | None => []
  | Some currentPool =>
      let poolInfo := poolInfoOf now position currentPool in
      let updated := PortfolioManager.updatePosition now position poolInfo in
      let exitEvaluation :=
        PoolEvaluator.evaluatePositionForExit config now updated poolInfo in
      if PoolEvaluator.shouldExit exitEvaluation
      then [PortfolioManager.closePosition now updated poolInfo
              (render (PoolEvaluator.reason exitEvaluation))]
      else []
  end.

(** The [position_exited] action of the manager for a closed record. *)
Definition exitedAction (now : Z) (closed : Position.t) (reason : string)
    : Action :=
  mkAction ("exit_" ++ Position.id closed)%string now
    PortfolioManager.position_exited (Position.poolId closed)
    (ManagerDetails
       (PortfolioManager.ExitDetails (Position.id closed) reason
          (Position.pnl closed) (Position.pnlPercentage closed)
          (hoursOfMs (now - Position.entryTime closed))
          (Position.currentValue closed)))
    true.

(** The actions a monitoring pass logs for one active position: nothing
    without metrics, else the monitoring action, followed by the exit
    action when the exit policy fires. *)
Definition events (config : Config.t)
    (render : PoolEvaluator.ExitReason -> string) (now : Z)
    (metrics : string -> option PoolPerformanceMetrics) (position : Position.t)
    : list Action :=
  match metrics (Position.poolId position) with
  | None => []
  | Some currentPool =>
      let poolInfo := poolInfoOf now position currentPool in
      let updated := PortfolioManager.updatePosition now position poolInfo in
      let exitEvaluation :=
        PoolEvaluator.evaluatePositionForExit config now updated poolInfo in
      monitoredAction now updated currentPool
      :: (if PoolEvaluator.shouldExit exitEvaluation
          then [exitedAction now
                  (PortfolioManager.closePosition now updated poolInfo
                     (render (PoolEvaluator.reason exitEvaluation)))
                  (render (PoolEvaluator.reason exitEvaluation))]
          else [])
  end.

(** The entry data of a position is usable by the exit policy and the
    re-pricing: entry price, amount and entry yield are not 0, so no
    quotient of the pass has a zero divisor. *)
Definition wellMarked (position : Position.t) : Prop :=
  ~ Position.entryPrice position == 0
  /\ ~ Position.amount position == 0
  /\ ~ Position.entryApy position == 0.

Lemma updateIn_other (positionId : string) (now : Z) (currentPool : Pool.t)
    (l : list Position.t) :
  ~ In positionId (map Position.id l) ->
  PortfolioManager.updateIn positionId now currentPool l = l.
Proof.
  induction l as [|p l IH]; simpl; intros H; [reflexivity|].
  destruct (String.eqb (Position.id p) positionId) eqn:E.
  - apply String.eqb_eq in E. exfalso. apply H. left. exact E.
  - rewrite IH; [reflexivity|]. intros Hin. apply H. right. exact Hin.
Qed.

Lemma findIndex_middle (positionId : string) (done rest : list Position.t)
    (p : Position.t) :
  ~ In positionId (map Position.id done) ->
  Position.id p = positionId ->
  PortfolioManager.findIndex (fun q => String.eqb (Position.id q) positionId)
    (done ++ p :: rest) = Some (List.length done).
Proof.
  intros Hnot Hid. induction done as [|d done IH]; simpl.
  - rewrite Hid, String.eqb_refl. reflexivity.
  - destruct (String.eqb (Position.id d) positionId) eqn:E.
    + apply String.eqb_eq in E. exfalso. apply Hnot. left. exact E.
    + rewrite IH; [reflexivity|]. intros Hin. apply Hnot. right. exact Hin.
Qed.

Lemma removeAt_middle {A : Type} (done rest : list A) (x : A) :
  PortfolioManager.removeAt (List.length done) (done ++ x :: rest) = done ++ rest.
Proof.
  induction done as [|d done IH]; simpl; [reflexivity|]. rewrite IH. reflexivity.
Qed.

(** The ids of a ledger whose active list is [done ++ position :: rest]. *)
Lemma ids_split (done rest closed : list Position.t) (position : Position.t) :
  NoDup (map Position.id ((done ++ position :: rest) ++ closed)) ->
  ~ In (Position.id position) (map Position.id done)
  /\ ~ In (Position.id position) (map Position.id rest)
  /\ ~ In (Position.id position) (map Position.id closed).
Proof.
  rewrite <- app_assoc, map_app. simpl. intros H.
  apply NoDup_remove_2 in H. rewrite map_app in H.
  repeat split; intros Hin; apply H; rewrite !in_app_iff; tauto.
Qed.

(** One turn of the loop, on every field of the bot. *)
Lemma monitorOne_effect (config : Config.t)
    (render : PoolEvaluator.ExitReason -> string) (now : Z)
    (metrics : string -> option PoolPerformanceMetrics)
    (cache : YieldFarmingBot.PoolMap) (log : list Action)
    (totalValue totalInvested totalPnl totalPnlPercentage cash maxPositions : Q)
    (done rest closed : list Position.t) (position : Position.t) :
  NoDup (map Position.id ((done ++ position :: rest) ++ closed)) ->
  monitorOne config render now metrics
    (mkBot cache log
       (Portfolio.mk totalValue totalInvested totalPnl totalPnlPercentage
          (done ++ position :: rest) closed cash maxPositions))
    position
  = mkBot cache
      (fold_left logAction (events config render now metrics position) log)
      (Portfolio.mk totalValue
         (fold_left (fun t e => t - Position.amount e)
                    (exitRecord config render now metrics position) totalInvested)
         totalPnl totalPnlPercentage
         (done ++ survivor config now metrics position ++ rest)
         (closed ++ exitRecord config render now metrics position)
         (fold_left (fun c e => c + Position.currentValue e)
                    (exitRecord config render now metrics position) cash)
         maxPositions).
Proof.
  intros Hnd. apply ids_split in Hnd. destruct Hnd as (Hdone & Hrest & Hclosed).
  unfold monitorOne, events, exitRecord, survivor.
  destruct (metrics (Position.poolId position)) as [currentPool|];
    [|simpl; rewrite app_nil_r; reflexivity].
  set (poolInfo := poolInfoOf now position currentPool).
  set (updated := PortfolioManager.updatePosition now position poolInfo).
  assert (Hupd : PortfolioManager.updateIn (Position.id position) now poolInfo
                   (done ++ position :: rest)
                 = done ++ updated :: rest).
  { unfold PortfolioManager.updateIn at 1. rewrite map_app. simpl.
    rewrite String.eqb_refl.
    fold (PortfolioManager.updateIn (Position.id position) now poolInfo done).
    fold (PortfolioManager.updateIn (Position.id position) now poolInfo rest).
    rewrite !updateIn_other by assumption. reflexivity. }
  pose proof (updateIn_other (Position.id position) now poolInfo closed Hclosed)
    as Hcl.
  unfold PortfolioManager.updatePositionById. simpl PortfolioManager.portfolio.
  simpl Portfolio.activePositions. simpl Portfolio.closedPositions.
  rewrite Hupd, Hcl.
  destruct (PoolEvaluator.shouldExit
              (PoolEvaluator.evaluatePositionForExit config now updated poolInfo)).
  - unfold PortfolioManager.exitPosition.
    simpl PortfolioManager.portfolio. simpl Portfolio.activePositions.
    rewrite (findIndex_middle (Position.id position) done rest updated Hdone eq_refl).
    rewrite nth_error_app2 by lia. rewrite Nat.sub_diag.
    simpl. rewrite removeAt_middle. reflexivity.
  - simpl. rewrite app_nil_r. reflexivity.
Qed.

Lemma ids_after (config : Config.t)
    (render : PoolEvaluator.ExitReason -> string) (now : Z)
    (metrics : string -> option PoolPerformanceMetrics)
    (done rest closed : list Position.t) (position : Position.t) :
  NoDup (map Position.id ((done ++ position :: rest) ++ closed)) ->
  NoDup (map Position.id
           (((done ++ survivor config now metrics position) ++ rest)
            ++ closed ++ exitRecord config render now metrics position)).
Proof.
  unfold survivor, exitRecord.
  destruct (metrics (Position.poolId position)) as [currentPool|].
  - destruct (PoolEvaluator.shouldExit _); simpl; intros H.
    + rewrite !app_nil_r. rewrite !map_app in *. simpl in *.
      rewrite <- !app_assoc in *. simpl in *.
      apply (Permutation_NoDup (l := Position.id position
                                     :: map Position.id done ++ map Position.id rest
                                        ++ map Position.id closed)).
      * rewrite !app_assoc. apply Permutation_cons_append.
      * apply (Permutation_NoDup (Permutation_sym (Permutation_middle _ _ _))).
        exact H.
    + rewrite app_nil_r. rewrite <- (app_assoc done). simpl.
      rewrite !map_app in *. simpl in *. exact H.
  - simpl. intros H. rewrite app_nil_r. rewrite <- (app_assoc done). exact H.
Qed.

Lemma monitor_fold (config : Config.t)
    (render : PoolEvaluator.ExitReason -> string) (now : Z)
    (metrics : string -> option PoolPerformanceMetrics)
    (cache : YieldFarmingBot.PoolMap)
    (totalValue totalPnl totalPnlPercentage maxPositions : Q)
    (todo : list Position.t) :
  forall (done closed : list Position.t) (log : list Action)
         (totalInvested cash : Q),
    NoDup (map Position.id ((done ++ todo) ++ closed)) ->
    fold_left (monitorOne config render now metrics) todo
      (mkBot cache log
         (Portfolio.mk totalValue totalInvested totalPnl totalPnlPercentage
            (done ++ todo) closed cash maxPositions))
    = mkBot cache
        (fold_left logAction (flat_map (events config render now metrics) todo) log)
        (Portfolio.mk totalValue
           (fold_left (fun t e => t - Position.amount e)
                      (flat_map (exitRecord config render now metrics) todo)
                      totalInvested)
           totalPnl totalPnlPercentage
           (done ++ flat_map (survivor config now metrics) todo)
           (closed ++ flat_map (exitRecord config render now metrics) todo)
           (fold_left (fun c e => c + Position.currentValue e)
                      (flat_map (exitRecord config render now metrics) todo) cash)
           maxPositions).
Proof.
  induction todo as [|position rest IH];
    intros done closed log totalInvested cash Hnd; simpl.
  - rewrite !app_nil_r. reflexivity.
  - rewrite (monitorOne_effect config render now metrics cache log totalValue
               totalInvested totalPnl totalPnlPercentage cash maxPositions
               done rest closed position Hnd).
    rewrite (app_assoc done).
    rewrite IH by (apply ids_after; exact Hnd).
    rewrite !fold_left_app, <- !app_assoc. reflexivity.
Qed.

Lemma fold_left_sub_shift (l : list Position.t) (a : Q) :
  fold_left (fun t e => t - Position.amount e) l a
  == a - Ledger.sumOf Position.amount l.
Proof.
  revert a. induction l as [|x l IH]; intros a; simpl.
  - unfold Ledger.sumOf. simpl. ring.
  - rewrite IH, LedgerProperties.sumOf_cons. ring.
Qed.

(** X20. A monitoring pass in live mode, on a ledger whose positions have
    pairwise distinct ids and whose active positions have non-zero entry
    price, amount and entry yield. Every active position without metrics
    is left as it was; every position with metrics is re-priced against
    them, and exactly those re-priced positions on which the exit policy
    fires are exited through [exitPosition]: they leave the active list,
    their closed records are appended to the closed list in order,
    available cash is credited with their final values, total invested is
    debited by their amounts, and the log receives, per position with
    metrics, the monitoring action followed by the exit action when there
    is one. The pool cache is untouched. After the pass the exit policy
    holds every active position whose pool had metrics. *)
Theorem monitoring_pass (config : Config.t)
    (render : PoolEvaluator.ExitReason -> string) (now : Z)
    (metrics : string -> option PoolPerformanceMetrics) (bot : Bot) :
  NoDup (map Position.id (Portfolio.activePositions (portfolio bot)
                          ++ Portfolio.closedPositions (portfolio bot))) ->
  Forall wellMarked (Portfolio.activePositions (portfolio bot)) ->
  let active := Portfolio.activePositions (portfolio bot) in
  let exits := flat_map (exitRecord config render now metrics) active in
  let after := monitorActivePositions config render now metrics bot in
  Portfolio.activePositions (portfolio after)
  = flat_map (survivor config now metrics) active
  /\ Portfolio.closedPositions (portfolio after)
     = Portfolio.closedPositions (portfolio bot) ++ exits
  /\ Portfolio.availableCash (portfolio after)
     == Portfolio.availableCash (portfolio bot)
        + Ledger.sumOf Position.currentValue exits
  /\ Portfolio.totalInvested (portfolio after)
     == Portfolio.totalInvested (portfolio bot)
        - Ledger.sumOf Position.amount exits
  /\ actions after
     = fold_left logAction (flat_map (events config render now metrics) active)
                 (actions bot)
  /\ poolCache after = poolCache bot
  /\ Forall wellMarked (Portfolio.activePositions (portfolio after))
  /\ (forall position currentPool,
        In position (Portfolio.activePositions (portfolio after)) ->
        metrics (Position.poolId position) = Some currentPool ->
        PoolEvaluator.shouldExit
          (PoolEvaluator.evaluatePositionForExit config now position
             (poolInfoOf now position currentPool)) = false).
Proof.
  intros Hnd Hmarked. cbv zeta. unfold monitorActivePositions.
  destruct bot as [cache log [tv ti tp tpp act closed cash maxP]].
  simpl in *.
  pose proof (monitor_fold config render now metrics cache tv tp tpp maxP act
                [] closed log ti cash Hnd) as Hfold.
  simpl app in Hfold. rewrite Hfold. simpl.
  split; [reflexivity | split; [reflexivity | split; [|split; [|split; [|split]]]]].
  - rewrite LedgerProperties.fold_left_add_shift. reflexivity.
  - apply fold_left_sub_shift.
  - reflexivity.
  - reflexivity.
  - split.
    + apply Forall_forall. intros p Hp. apply in_flat_map in Hp.
      destruct Hp as (original & Horig & Hsurv).
      rewrite Forall_forall in Hmarked. specialize (Hmarked original Horig).
      unfold survivor in Hsurv.
      destruct (metrics (Position.poolId original)) as [m|].
      * destruct (PoolEvaluator.shouldExit _); [destruct Hsurv|].
        destruct Hsurv as [<-|[]]. exact Hmarked.
      * destruct Hsurv as [<-|[]]. exact Hmarked.
    + intros position currentPool Hin Hm.
      apply in_flat_map in Hin. destruct Hin as (original & _ & Hsurv).
      unfold survivor in Hsurv.
      destruct (metrics (Position.poolId original)) as [m|] eqn:Hmo.
      * destruct (PoolEvaluator.shouldExit
                    (PoolEvaluator.evaluatePositionForExit config now
                       (PortfolioManager.updatePosition now original
                          (poolInfoOf now original m))
                       (poolInfoOf now original m))) eqn:Hexit; [destruct Hsurv|].
        destruct Hsurv as [<-|[]]. simpl in Hm. rewrite Hmo in Hm.
        injection Hm as <-. exact Hexit.
      * destruct Hsurv as [<-|[]]. rewrite Hmo in Hm. discriminate Hm.
Qed.

(** A bot that entered two pools at [sampleNow]. An hour later the first
    pool is quoted at half its entry price (stop-loss), the second is
    unchanged. *)
Definition botWithTwo : Bot :=
  evaluateAndEnterPool DEFAULT_BOT_CONFIG "id-2" GateProperties.sampleNow
    EntryProperties.poolB
    (evaluateAndEnterPool DEFAULT_BOT_CONFIG "id-1" GateProperties.sampleNow
       (GateProperties.samplePool 90 5000 2000) (newBot DEFAULT_BOT_CONFIG)).

Definition laterMetrics (poolId : string) : option PoolPerformanceMetrics :=
  if String.eqb poolId "pool_1"
  then Some (mkMetrics "pool_1" 10800000 90 5000 2000 (1 # 2) 5 0 0)
  else if String.eqb poolId "pool_2"
  then Some (mkMetrics "pool_2" 10800000 35 60000 9000 2 20 0 0)
  else None.

Lemma botWithTwo_ids :
  NoDup (map Position.id (Portfolio.activePositions (portfolio botWithTwo)
                          ++ Portfolio.closedPositions (portfolio botWithTwo))).
Proof.
  simpl. constructor; [intros [H|[]]; discriminate H|].
  constructor; [intros [] | constructor].
Qed.

Lemma botWithTwo_marked :
  Forall wellMarked (Portfolio.activePositions (portfolio botWithTwo)).
Proof.
  simpl. unfold wellMarked.
  constructor; [simpl; repeat split; discriminate|].
  constructor; [simpl; repeat split; discriminate | constructor].
Qed.

Lemma monitoring_pass_witness :
  map Position.id (Portfolio.activePositions (portfolio botWithTwo))
  = ["id-1"%string; "id-2"%string]
  /\ map Position.id
       (Portfolio.activePositions
          (portfolio (monitorActivePositions DEFAULT_BOT_CONFIG
                        (fun _ => "exit"%string) 10800000 laterMetrics botWithTwo)))
     = ["id-2"%string]
  /\ map Position.id
       (Portfolio.closedPositions
          (portfolio (monitorActivePositions DEFAULT_BOT_CONFIG
                        (fun _ => "exit"%string) 10800000 laterMetrics botWithTwo)))
     = ["id-1"%string]
  /\ Portfolio.totalInvested
       (portfolio (monitorActivePositions DEFAULT_BOT_CONFIG
                     (fun _ => "exit"%string) 10800000 laterMetrics botWithTwo))
     == 1000.
Proof.
  destruct (monitoring_pass DEFAULT_BOT_CONFIG (fun _ => "exit"%string) 10800000
              laterMetrics botWithTwo botWithTwo_ids botWithTwo_marked)
    as (Hact & Hclosed & _ & Hinv & _).
  split; [reflexivity | split; [|split]].
  - rewrite Hact. reflexivity.
  - rewrite Hclosed. reflexivity.
  - rewrite Hinv. reflexivity.
Defined.

End MonitoringProperties.
